(** * tidy.py: a shallow embedding of the safe file tidying CLI

    The development follows [src/tidy_cli/tidy.py].  The program is a
    sequence of small functions working on [pathlib.Path] values and on the
    file system; the embedding keeps that shape:

    - text is [string], file contents and keys are [list byte];
    - a path is the list of its components below the root directory;
    - the file system is an association list from paths to nodes, whose
      order is the order in which a directory listing returns its entries;
    - every function of the program that touches the file system, prints,
      or can raise is a computation in the monad [M]: a state transformer
      whose outcome is a value, a raised exception, or the exhaustion of the
      step budget given to the [while] and [for] loops. *)

From Stdlib Require Import String Ascii List ZArith Lia Bool Arith FinFun Permutation.
From Stdlib Require Import DecimalString DecimalNat.
From Stdlib.Strings Require Import Byte.
Import ListNotations.
Open Scope string_scope.
Open Scope list_scope.
Open Scope nat_scope.

Set Implicit Arguments.

(* ================================================================== *)
(** ** Text *)
(* ================================================================== *)

Definition bytes := list byte.

(** [str(n)] / the [{n}] of an f-string, for a natural number. *)
Definition decimal (n : nat) : string :=
  NilEmpty.string_of_uint (Nat.to_uint n).

(** [s.startswith(p)]. *)
Definition startswith (p s : string) : bool := String.prefix p s.

(** Left padding with ['0'] up to [width] characters: the [:04d] and [:02d]
    of an f-string, on a natural number. *)
Fixpoint zeros (n : nat) : string :=
  match n with
  | O => ""
  | S n' => String "0" (zeros n')
  end.

Definition zero_pad (width n : nat) : string :=
  let s := decimal n in zeros (width - String.length s) ++ s.

(** [s.rfind(c)]: the index of the last occurrence of [c]. *)
Fixpoint rfind (c : ascii) (s : string) : option nat :=
  match s with
  | EmptyString => None
  | String a s' =>
      match rfind c s' with
      | Some i => Some (S i)
      | None => if Ascii.eqb a c then Some 0 else None
      end
  end.

(** What [str.lower] does to a text of ASCII characters: the letters
    [A]-[Z] are lowered and nothing else changes. *)
Definition lower_ascii (a : ascii) : ascii :=
  let n := nat_of_ascii a in
  if (65 <=? n) && (n <=? 90) then ascii_of_nat (n + 32) else a.

Fixpoint ascii_lower (s : string) : string :=
  match s with
  | EmptyString => EmptyString
  | String a s' => String (lower_ascii a) (ascii_lower s')
  end.

(** [s.lstrip(c)] for a one-character set. *)
Fixpoint lstrip (c : ascii) (s : string) : string :=
  match s with
  | EmptyString => EmptyString
  | String a s' => if Ascii.eqb a c then lstrip c s' else s
  end.

(** [len(s)] for a [str] that Python decoded from the bytes of a file name
    (UTF-8 with [surrogateescape]): a well-formed UTF-8 sequence is one
    character, and every byte outside such a sequence is one character of
    its own.  [sequence_length a rest] is the number of bytes of the
    character that starts at [a]. *)
Definition byte_in (lo hi : nat) (a : ascii) : bool :=
  let n := nat_of_ascii a in (lo <=? n) && (n <=? hi).

Definition continuation (s : string) : bool :=
  match s with
  | String a _ => byte_in 128 191 a
  | EmptyString => false
  end.

Definition tail_str (s : string) : string :=
  match s with
  | String _ s' => s'
  | EmptyString => EmptyString
  end.

Definition second_in (lo hi : nat) (s : string) : bool :=
  match s with
  | String a _ => byte_in lo hi a
  | EmptyString => false
  end.

Definition sequence_length (a : ascii) (rest : string) : nat :=
  let two := continuation (tail_str rest) in
  let three := continuation (tail_str (tail_str rest)) in
  if byte_in 194 223 a then (if continuation rest then 2 else 1)
  else if byte_in 224 224 a then (if second_in 160 191 rest && two then 3 else 1)
  else if byte_in 225 236 a || byte_in 238 239 a
       then (if continuation rest && two then 3 else 1)
  else if byte_in 237 237 a then (if second_in 128 159 rest && two then 3 else 1)
  else if byte_in 240 240 a
       then (if second_in 144 191 rest && two && three then 4 else 1)
  else if byte_in 241 243 a
       then (if continuation rest && two && three then 4 else 1)
  else if byte_in 244 244 a
       then (if second_in 128 143 rest && two && three then 4 else 1)
  else 1.

Fixpoint len_skip (skip : nat) (s : string) : nat :=
  match s with
  | EmptyString => 0
  | String a s' =>
      match skip with
      | S skip' => len_skip skip' s'
      | O => S (len_skip (sequence_length a s' - 1) s')
      end
  end.

Definition len (s : string) : nat := len_skip 0 s.

(** [s[:n]]. *)
Fixpoint take_str (n : nat) (s : string) : string :=
  match n, s with
  | S n', String a s' => String a (take_str n' s')
  | _, _ => EmptyString
  end.

(** [s[n:]]. *)
Fixpoint drop_str (n : nat) (s : string) : string :=
  match n, s with
  | S n', String _ s' => drop_str n' s'
  | _, _ => s
  end.

(* ================================================================== *)
(** ** pathlib *)
(* ================================================================== *)

(** An absolute, normalised path: the components below [/].  The root
    directory is the empty list. *)
Definition Path := list string.

Definition path_eqb (p q : Path) : bool :=
  if list_eq_dec string_dec p q then true else false.

Module pathlib.

(** [str(path)]. *)
Fixpoint components_str (p : Path) : string :=
  match p with
  | [] => ""
  | c :: p' => "/" ++ c ++ components_str p'
  end.

Definition str (p : Path) : string :=
  match p with
  | [] => "/"
  | _ => components_str p
  end.

(** [path.name]: the final component, empty for the root. *)
Definition name (p : Path) : string := last p "".

(** [path.parent]; the root is its own parent. *)
Definition parent (p : Path) : Path := removelast p.

(** [path / name]. *)
Definition joinpath (p : Path) (n : string) : Path := p ++ [n].

(** [path.suffix] and [path.stem] as pathlib computes them up to Python
    3.13: with [i = name.rfind('.')], the suffix is [name[i:]] when
    [0 < i < len(name) - 1] and empty otherwise; the stem is the rest. *)
Definition split_index (n : string) : option nat :=
  match rfind "." n with
  | Some i => if (0 <? i) && (i <? String.length n - 1) then Some i else None
  | None => None
  end.

Definition suffix (p : Path) : string :=
  match split_index (name p) with
  | Some i => drop_str i (name p)
  | None => ""
  end.

Definition stem (p : Path) : string :=
  match split_index (name p) with
  | Some i => take_str i (name p)
  | None => name p
  end.

(** [path.parts[1:]] are the components; [parts[0]] is ["/"]. *)
Definition parts (p : Path) : list string := "/" :: p.

(** [path.relative_to(other)]: the components below [other], when [other]
    is a prefix. *)
Fixpoint relative_to (p other : Path) : option (list string) :=
  match other, p with
  | [], _ => Some p
  | o :: other', c :: p' => if String.eqb o c then relative_to p' other' else None
  | _ :: _, [] => None
  end.

End pathlib.

(* ================================================================== *)
(** ** The file system *)
(* ================================================================== *)

Record FileData := mkFile {
  content : bytes;
  mtime : Z;
  readable : bool;
  writable : bool
}.

Inductive Node :=
| File (f : FileData)
| Dir
| Symlink (target : Path)
| Special.

(** Entries in directory-listing order; the first entry of a path is the
    one in force.  The root directory is implicit. *)
Definition FS := list (Path * Node).

Fixpoint node_at (fs : FS) (k : Path) : option Node :=
  match fs with
  | [] => None
  | (k', n) :: fs' => if path_eqb k' k then Some n else node_at fs' k
  end.

Inductive errno :=
| ENOENT | ENOTDIR | ELOOP | EEXIST | EISDIR | EACCES | ENOTEMPTY | EINVAL
| ENAMETOOLONG.

(** The result of walking a path from the root, following symbolic links:
    the entry reached ([Found], never a symbolic link), a free name in an
    existing directory ([Vacant]), or a failure. *)
Inductive Resolved :=
| Found (k : Path) (n : Node)
| Vacant (k : Path)
| Unreachable (e : errno).

(** The number of symbolic links one path resolution may traverse. *)
Definition MAXSYMLINKS : nat := 40.

Fixpoint namei (links : nat) (fs : FS) : Path -> list string -> Resolved :=
  fix go (cur : Path) (rest : list string) {struct rest} : Resolved :=
    match rest with
    | [] => Found cur Dir
    | c :: rest' =>
        let k := cur ++ [c] in
        match node_at fs k with
        | None =>
            match rest' with
            | [] => Vacant k
            | _ :: _ => Unreachable ENOENT
            end
        | Some Dir => go k rest'
        | Some (Symlink t) =>
            match links with
            | O => Unreachable ELOOP
            | S links' => namei links' fs [] (t ++ rest')
            end
        | Some n =>
            match rest' with
            | [] => Found k n
            | _ :: _ => Unreachable ENOTDIR
            end
        end
    end.

(** Resolution of a whole path, as [stat] does it. *)
Definition resolve (fs : FS) (p : Path) : Resolved := namei MAXSYMLINKS fs [] p.

(** Resolution of the directory part only, as [lstat], [rename], [unlink]
    and [mkdir] do it: the key of the final component in its directory. *)
Definition resolve_entry (fs : FS) (p : Path) : Resolved :=
  match p with
  | [] => Found [] Dir
  | _ :: _ =>
      match resolve fs (pathlib.parent p) with
      | Found d Dir =>
          let k := d ++ [pathlib.name p] in
          match node_at fs k with
          | Some n => Found k n
          | None => Vacant k
          end
      | Found _ _ => Unreachable ENOTDIR
      | Vacant _ => Unreachable ENOENT
      | Unreachable e => Unreachable e
      end
  end.

Module os.

Inductive result (A : Type) :=
| Success (a : A)
| Failure (e : errno).
Arguments Success {A} a.
Arguments Failure {A} e.

(** [Path.exists()], [Path.is_file()], [Path.is_dir()] follow symbolic
    links and answer [False] on a path that does not resolve.  The
    failures of [stat] that pathlib raises again from them are not part of
    these three: the file system has no permissions on directories, and
    the limit on names is added to [exists()] below, in [Path_exists]. *)
Definition path_exists (fs : FS) (p : Path) : bool :=
  match resolve fs p with
  | Found _ _ => true
  | _ => false
  end.

Definition is_file (fs : FS) (p : Path) : bool :=
  match resolve fs p with
  | Found _ (File _) => true
  | _ => false
  end.

Definition is_dir (fs : FS) (p : Path) : bool :=
  match resolve fs p with
  | Found _ Dir => true
  | _ => false
  end.

(** The limits of the platform on the bytes of a component and of a whole
    path (with its final null byte). *)
Definition NAME_MAX : nat := 255.
Definition PATH_MAX : nat := 4096.

(** Whether the walk along a path comes, in a directory that it has
    reached, to a component that is longer than [NAME_MAX]. *)
Fixpoint long_component (fs : FS) (reached : Path) (rest : list string) : bool :=
  match rest with
  | [] => false
  | c :: rest' =>
      if NAME_MAX <? String.length c then is_dir fs reached
      else long_component fs (reached ++ [c]) rest'
  end.

Definition name_too_long (fs : FS) (p : Path) : bool :=
  (PATH_MAX <=? String.length (pathlib.str p)) || long_component fs [] p.

(** [Path.exists()] as pathlib writes it: [stat], whose failures ENOENT,
    ENOTDIR and ELOOP are answered [False] and whose other failures are
    raised; the one that this file system has is a name that is too
    long. *)
Definition Path_exists (fs : FS) (p : Path) : result bool :=
  if name_too_long fs p then Failure ENAMETOOLONG else Success (path_exists fs p).

(** [os.path.islink]: the entry itself, not what it points to. *)
Definition islink (fs : FS) (p : Path) : bool :=
  match resolve_entry fs p with
  | Found _ (Symlink _) => true
  | _ => false
  end.

(** [Path.stat()]: size and modification time of what the path resolves
    to.  Directories and special files are given size and time zero. *)
Definition stat (fs : FS) (p : Path) : result (nat * Z) :=
  match resolve fs p with
  | Found _ (File f) => Success (length (content f), mtime f)
  | Found _ _ => Success (O, 0%Z)
  | Vacant _ => Failure ENOENT
  | Unreachable e => Failure e
  end.

(** [Path.read_bytes()]. *)
Definition read_bytes (fs : FS) (p : Path) : result bytes :=
  match resolve fs p with
  | Found _ (File f) => if readable f then Success (content f) else Failure EACCES
  | Found _ Dir => Failure EISDIR
  | Found _ _ => Failure EACCES
  | Vacant _ => Failure ENOENT
  | Unreachable e => Failure e
  end.

Fixpoint replace_node (k : Path) (n : Node) (fs : FS) : FS :=
  match fs with
  | [] => []
  | (k', n') :: fs' =>
      if path_eqb k' k then (k', n) :: fs' else (k', n') :: replace_node k n fs'
  end.

(** [Path.write_bytes(data)]: truncates an existing regular file, which
    must be writable, or creates a missing one (also through a dangling
    symbolic link). *)
Definition write_bytes (now : Z) (fs : FS) (p : Path) (data : bytes) : result FS :=
  match resolve fs p with
  | Found k (File f) =>
      if writable f
      then Success (replace_node k (File (mkFile data now (readable f) true)) fs)
      else Failure EACCES
  | Found _ Dir => Failure EISDIR
  | Found _ _ => Failure EACCES
  | Vacant k => Success (fs ++ [(k, File (mkFile data now true true))])
  | Unreachable e => Failure e
  end.

(** [os.mkdir(path)]: one directory, whose parent must exist. *)
Definition mkdir (fs : FS) (p : Path) : result FS :=
  match resolve_entry fs p with
  | Found _ _ => Failure EEXIST
  | Vacant k => Success (fs ++ [(k, Dir)])
  | Unreachable e => Failure e
  end.

Definition remove_key (k : Path) (fs : FS) : FS :=
  filter (fun e => negb (path_eqb (fst e) k)) fs.

(** [Path.unlink()]: removes the entry itself; a directory is refused. *)
Definition unlink (fs : FS) (p : Path) : result FS :=
  match resolve_entry fs p with
  | Found _ Dir => Failure EISDIR
  | Found k _ => Success (remove_key k fs)
  | Vacant _ => Failure ENOENT
  | Unreachable e => Failure e
  end.

Definition rekey (from to : Path) (e : Path * Node) : Path * Node :=
  match pathlib.relative_to (fst e) from with
  | Some tail => (to ++ tail, snd e)
  | None => e
  end.

Definition is_below (k d : Path) : bool :=
  match pathlib.relative_to k d with
  | Some (_ :: _) => true
  | _ => false
  end.

Definition has_children (fs : FS) (d : Path) : bool :=
  existsb (fun e => is_below (fst e) d) fs.

(** [os.rename(src, dst)]: the entry [src] (with everything below it)
    takes the name [dst]; an entry already at [dst] is replaced, unless that
    would put a directory over a file, a file over a directory, or a
    directory over a directory that is not empty. *)
Definition rename (fs : FS) (src dst : Path) : result FS :=
  match resolve_entry fs src, resolve_entry fs dst with
  | Found ks n, Found kd m =>
      if path_eqb ks kd then Success fs
      else if is_below kd ks then Failure EINVAL
      else match n, m with
           | Dir, Dir =>
               if has_children fs kd then Failure ENOTEMPTY
               else Success (map (rekey ks kd) (remove_key kd fs))
           | Dir, _ => Failure ENOTDIR
           | _, Dir => Failure EISDIR
           | _, _ => Success (map (rekey ks kd) (remove_key kd fs))
           end
  | Found ks n, Vacant kd =>
      if is_below kd ks then Failure EINVAL
      else Success (map (rekey ks kd) fs)
  | Found _ _, Unreachable e => Failure e
  | Vacant _, _ => Failure ENOENT
  | Unreachable e, _ => Failure e
  end.

(** [os.scandir(top)] as [os.walk] reads it: the names of the entries of
    the directory, split into those for which [entry.is_dir()] holds (it
    follows symbolic links) and the others. *)
Definition child_name (d : Path) (e : Path * Node) : option string :=
  match pathlib.relative_to (fst e) d with
  | Some [c] => Some c
  | _ => None
  end.

Fixpoint listdir (fs : FS) (d : Path) (entries : FS) : list string :=
  match entries with
  | [] => []
  | e :: entries' =>
      match child_name d e with
      | Some c => c :: listdir fs d entries'
      | None => listdir fs d entries'
      end
  end.

Definition scandir (fs : FS) (top : Path) : result (list string * list string) :=
  match resolve fs top with
  | Found d Dir =>
      let names := listdir fs d fs in
      Success (filter (fun c => is_dir fs (d ++ [c])) names,
               filter (fun c => negb (is_dir fs (d ++ [c]))) names)
  | Found _ _ => Failure ENOTDIR
  | Vacant _ => Failure ENOENT
  | Unreachable e => Failure e
  end.

(** [Path.resolve()] (not strict): symbolic links are followed as far as
    the path exists, the remaining components are kept as they are. *)
Fixpoint realpath (links : nat) (fs : FS) : Path -> list string -> Path :=
  fix go (cur : Path) (rest : list string) {struct rest} : Path :=
    match rest with
    | [] => cur
    | c :: rest' =>
        let k := cur ++ [c] in
        match node_at fs k with
        | Some (Symlink t) =>
            match links with
            | O => k ++ rest'
            | S links' => realpath links' fs [] (t ++ rest')
            end
        | _ => go k rest'
        end
    end.

End os.

(* ================================================================== *)
(** ** Byte strings: [bytes.strip] and [base64.urlsafe_b64encode] *)
(* ================================================================== *)

(** The ASCII whitespace that [bytes.strip()] removes. *)
Definition is_space (b : byte) : bool :=
  let n := Byte.to_N b in
  (N.eqb n 32 || ((N.leb 9 n) && (N.leb n 13)))%bool.

Fixpoint lstrip_bytes (l : bytes) : bytes :=
  match l with
  | [] => []
  | b :: l' => if is_space b then lstrip_bytes l' else l
  end.

Definition strip_bytes (l : bytes) : bytes :=
  rev (lstrip_bytes (rev (lstrip_bytes l))).

Module base64.

Definition alphabet : string :=
  "ABCDEFGHIJKLMNOPQRSTUVWXYZabcdefghijklmnopqrstuvwxyz0123456789-_".

Definition digit (n : N) : byte :=
  match String.get (N.to_nat n) alphabet with
  | Some a => byte_of_ascii a
  | None => byte_of_ascii "="
  end.

Definition pad : byte := byte_of_ascii "=".

(** [base64.urlsafe_b64encode]: three bytes give four digits; a final group
    of one or two bytes is padded with ["="]. *)
Fixpoint urlsafe_b64encode (l : bytes) : bytes :=
  match l with
  | [] => []
  | [a] =>
      let x := Byte.to_N a in
      [digit (N.shiftr x 2); digit (N.shiftl (N.land x 3) 4); pad; pad]
  | [a; b] =>
      let x := Byte.to_N a in
      let y := Byte.to_N b in
      [digit (N.shiftr x 2);
       digit (N.lor (N.shiftl (N.land x 3) 4) (N.shiftr y 4));
       digit (N.shiftl (N.land y 15) 2); pad]
  | a :: b :: c :: l' =>
      let x := Byte.to_N a in
      let y := Byte.to_N b in
      let z := Byte.to_N c in
      digit (N.shiftr x 2)
      :: digit (N.lor (N.shiftl (N.land x 3) 4) (N.shiftr y 4))
      :: digit (N.lor (N.shiftl (N.land y 15) 2) (N.shiftr z 6))
      :: digit (N.land z 63)
      :: urlsafe_b64encode l'
  end.

End base64.

(* ================================================================== *)
(** ** Dictionaries and [min] *)
(* ================================================================== *)

(** A [dict] keeps its keys in insertion order. *)
Definition Dict (K V : Type) := list (K * V).

(** [d.setdefault(k, []).append(v)]. *)
Fixpoint setdefault_append {K V : Type} (eqb : K -> K -> bool)
  (k : K) (v : V) (d : Dict K (list V)) : Dict K (list V) :=
  match d with
  | [] => [(k, [v])]
  | (k', vs) :: d' =>
      if eqb k' k then (k', vs ++ [v]) :: d'
      else (k', vs) :: setdefault_append eqb k v d'
  end.

(** [min(l, key=key)]: the first element whose key is minimal. *)
Fixpoint min_from {A : Type} (key : A -> nat) (best : A) (l : list A) : A :=
  match l with
  | [] => best
  | x :: l' => if key x <? key best then min_from key x l' else min_from key best l'
  end.

Definition python_min {A : Type} (key : A -> nat) (l : list A) : option A :=
  match l with
  | [] => None
  | x :: l' => Some (min_from key x l')
  end.

(* ================================================================== *)
(** ** Computations *)
(* ================================================================== *)

Inductive Exn :=
| OSError (e : errno) (p : Path)
| ValueError (msg : string)
| RuntimeError (msg : string)
| SystemExit (code : Z).

Inductive Outcome (A : Type) :=
| Ok (a : A)
| Raised (e : Exn)
| OutOfSteps.
Arguments Ok {A} a.
Arguments Raised {A} e.
Arguments OutOfSteps {A}.

(** What a run can observe or change: the file system, the lines printed,
    the clock that stamps new files, the position in the stream of random
    bytes, and (as an instrument) the paths whose content was hashed. *)
Record State := mkState {
  fs : FS;
  out : list string;
  clock : Z;
  rand_pos : nat;
  hashed : list Path
}.

Definition M (A : Type) := State -> Outcome A * State.

Definition ret {A : Type} (a : A) : M A := fun st => (Ok a, st).

Definition bind {A B : Type} (c : M A) (k : A -> M B) : M B :=
  fun st =>
    match c st with
    | (Ok a, st') => k a st'
    | (Raised e, st') => (Raised e, st')
    | (OutOfSteps, st') => (OutOfSteps, st')
    end.

Definition raise {A : Type} (e : Exn) : M A := fun st => (Raised e, st).

Definition out_of_steps {A : Type} : M A := fun st => (OutOfSteps, st).

Declare Scope tidy_scope.
Delimit Scope tidy_scope with tidy.
Notation "x <- c ;; k" := (bind c (fun x => k))
  (at level 61, c at next level, right associativity) : tidy_scope.
Notation "c ;;; k" := (bind c (fun _ => k))
  (at level 61, right associativity) : tidy_scope.
Open Scope tidy_scope.

(** [try: c  except OSError as exc: handler(exc)]. *)
Definition try_OSError {A : Type} (c : M A) (handler : Exn -> M A) : M A :=
  fun st =>
    match c st with
    | (Raised (OSError e p), st') => handler (OSError e p) st'
    | r => r
    end.

Definition print (line : string) : M unit :=
  fun st => (Ok tt, mkState (fs st) (out st ++ [line]) (clock st) (rand_pos st) (hashed st)).

Definition set_fs (fs' : FS) : M unit :=
  fun st => (Ok tt, mkState fs' (out st) (clock st) (rand_pos st) (hashed st)).

(** A query of the file system that cannot fail. *)
Definition ask {A : Type} (q : FS -> A) : M A := fun st => (Ok (q (fs st)), st).

(** A system call that reads: its failure is raised as [OSError]. *)
Definition syscall {A : Type} (q : FS -> os.result A) (p : Path) : M A :=
  fun st =>
    match q (fs st) with
    | os.Success a => (Ok a, st)
    | os.Failure e => (Raised (OSError e p), st)
    end.

(** A system call that changes the file system. *)
Definition syscall_upd (q : FS -> os.result FS) (p : Path) : M unit :=
  fun st =>
    match q (fs st) with
    | os.Success fs' => set_fs fs' st
    | os.Failure e => (Raised (OSError e p), st)
    end.

Definition strerror (e : errno) : string :=
  match e with
  | ENOENT => "[Errno 2] No such file or directory"
  | ENOTDIR => "[Errno 20] Not a directory"
  | ELOOP => "[Errno 40] Too many levels of symbolic links"
  | EEXIST => "[Errno 17] File exists"
  | EISDIR => "[Errno 21] Is a directory"
  | EACCES => "[Errno 13] Permission denied"
  | ENOTEMPTY => "[Errno 39] Directory not empty"
  | EINVAL => "[Errno 22] Invalid argument"
  | ENAMETOOLONG => "[Errno 36] File name too long"
  end.

(** A [for] loop over a list, threading the variables the body updates. *)
Fixpoint for_list {A B : Type} (l : list A) (body : A -> B -> M B) (acc : B) : M B :=
  match l with
  | [] => ret acc
  | x :: l' => acc' <- body x acc ;; for_list l' body acc'
  end.

Module shutil.

(** [shutil.move(src, dst)]: into [dst] when it is a directory, refusing
    to replace an entry there; otherwise a rename.  The copy-and-delete
    fallback for a rename across devices is below this model. *)
Definition move (src dst : Path) : M unit :=
  isdir <- ask (fun fs => os.is_dir fs dst) ;;
  if isdir then
    let real_dst := pathlib.joinpath dst (pathlib.name src) in
    taken <- ask (fun fs => os.path_exists fs real_dst) ;;
    if taken then raise (OSError EEXIST real_dst)
    else syscall_upd (fun fs => os.rename fs src real_dst) src
  else syscall_upd (fun fs => os.rename fs src dst) src.

End shutil.

(** [Path.mkdir(parents=False, exist_ok=True)]: [os.mkdir], where a
    [FileNotFoundError] is raised and any other [OSError] is let through
    only when the path is a directory already. *)
Definition mkdir_exist_ok (p : Path) : M unit :=
  fun st =>
    match os.mkdir (fs st) p with
    | os.Success fs' => set_fs fs' st
    | os.Failure ENOENT => (Raised (OSError ENOENT p), st)
    | os.Failure e =>
        if os.is_dir (fs st) p then (Ok tt, st) else (Raised (OSError e p), st)
    end.

(** [Path.mkdir(parents=True, exist_ok=True)], as pathlib writes it: on
    [FileNotFoundError] the parent is made first (unless the path is its own
    parent) and the directory is then made without [parents].  The
    recursion goes up one component at a time: [depth] is the length of the
    path. *)
Fixpoint mkdir_parents (depth : nat) (p : Path) : M unit :=
  fun st =>
    match os.mkdir (fs st) p with
    | os.Success fs' => set_fs fs' st
    | os.Failure ENOENT =>
        match p, depth with
        | [], _ => (Raised (OSError ENOENT p), st)
        | _ :: _, O => (OutOfSteps, st)
        | _ :: _, S depth' =>
            (mkdir_parents depth' (pathlib.parent p) ;;; mkdir_exist_ok p) st
        end
    | os.Failure e =>
        if os.is_dir (fs st) p then (Ok tt, st) else (Raised (OSError e p), st)
    end.

(* ================================================================== *)
(** ** External collaborators *)
(* ================================================================== *)

(** What the program takes from libraries and from the platform without
    depending on how it is computed: glob matching, the case mapping and
    the [repr] of a text (which follow the Unicode character database),
    the hash function, the time zone, the [cryptography] package and the
    source of random bytes. *)
Class Platform := {
  (** [s.lower()] and [repr(s)] of a [str] *)
  lower : string -> string;
  repr : string -> string;
  (** [fnmatch.fnmatch(name, pattern)] *)
  fnmatch : string -> string -> bool;
  (** [hashlib.new(name)], [hasher.update(chunk)], [hasher.hexdigest()] *)
  Hasher : Type;
  hashlib_new : string -> Hasher;
  hasher_update : Hasher -> bytes -> Hasher;
  hexdigest : Hasher -> string;
  (** [time.localtime(t)]: [(tm_year, tm_mon)] *)
  localtime : Z -> nat * nat;
  (** whether [from cryptography.fernet import Fernet] succeeds *)
  have_cryptography : bool;
  (** [Fernet(key)] accepts the key; [fernet.encrypt(data)] *)
  fernet_key_ok : bytes -> bool;
  fernet_encrypt : bytes -> bytes -> bytes;
  (** the [i]-th byte that [os.urandom] hands out *)
  random_byte : nat -> byte
}.

(* ================================================================== *)
(** ** tidy.py *)
(* ================================================================== *)

Section Tidy.

Context {platform : Platform}.

(** [str(exc)]: an [OSError] prints its message and the [repr] of the file
    name it was raised for. *)
Definition exn_str (x : Exn) : string :=
  match x with
  | OSError e p => strerror e ++ ": " ++ repr (pathlib.str p)
  | ValueError msg => msg
  | RuntimeError msg => msg
  | SystemExit code => decimal (Z.to_nat code)
  end.

Definition print_action (message : string) (dry_run : bool) : M unit :=
  let prefix := if dry_run then "[DRY-RUN] " else "" in
  print (prefix ++ message).

Definition is_hidden (path : Path) : bool :=
  existsb (fun part => startswith "." part) (pathlib.parts path).

Definition should_skip (path : Path) (include_hidden : bool)
  (exclude_globs : list string) : bool :=
  if negb include_hidden && is_hidden path then true
  else existsb (fun pattern => fnmatch (pathlib.str path) pattern) exclude_globs.

(** *** [iter_files]: a generator over [os.walk]

    [os.walk] keeps a stack of directories still to visit.  Visiting a
    directory lists it once ([scandir]) and hands [(dirpath, dirnames,
    filenames)] to [iter_files], which prunes [dirnames] and then yields
    the eligible files one by one; when the caller asks for the next
    file after the last of them, [os.walk] pushes the remaining
    sub-directories that are not symbolic links and goes on.  Everything
    between two yields runs at the time the caller asks, on the file system
    as it is then. *)
Record Frame := mkFrame {
  dirpath : Path;
  dirnames : list string;
  filenames : list string
}.

Record Walk := mkWalk {
  include_hidden_of : bool;
  exclude_globs_of : list string;
  frame : option Frame;
  stack : list Path
}.

Inductive Step :=
| Yield (file_path : Path) (w : Walk)
| Skip (w : Walk)
| Stop.

(** Creating the generator runs nothing yet. *)
Definition iter_files (root_dir : Path) (include_hidden : bool)
  (exclude_globs : list string) : Walk :=
  mkWalk include_hidden exclude_globs None [root_dir].

Definition next_step (w : Walk) (fs : FS) : Step :=
  let include_hidden := include_hidden_of w in
  let exclude_globs := exclude_globs_of w in
  match frame w with
  | Some (mkFrame current_dir dirs (filename :: rest)) =>
      let w' := mkWalk include_hidden exclude_globs
                  (Some (mkFrame current_dir dirs rest)) (stack w) in
      let file_path := pathlib.joinpath current_dir filename in
      if os.is_file fs file_path
         && negb (should_skip file_path include_hidden exclude_globs)
      then Yield file_path w'
      else Skip w'
  | Some (mkFrame current_dir dirs []) =>
      let subdirs :=
        filter (fun new_path => negb (os.islink fs new_path))
               (map (pathlib.joinpath current_dir) dirs) in
      Skip (mkWalk include_hidden exclude_globs None (subdirs ++ stack w))
  | None =>
      match stack w with
      | [] => Stop
      | top :: stack' =>
          match os.scandir fs top with
          | os.Failure _ => Skip (mkWalk include_hidden exclude_globs None stack')
          | os.Success (dirs, nondirs) =>
              let dirs' :=
                if negb include_hidden
                then filter (fun d => negb (startswith "." d)) dirs
                else dirs in
              Skip (mkWalk include_hidden exclude_globs
                      (Some (mkFrame top dirs' nondirs)) stack')
          end
      end
  end.

(** [for file_path in files: body], where [files] is the generator: each
    step of the generator runs on the state the body left. *)
Fixpoint for_each {A : Type} (steps : nat) (files : Walk)
  (body : Path -> A -> M A) (acc : A) : M A :=
  match steps with
  | O => out_of_steps
  | S steps' =>
      fun st =>
        match next_step files (fs st) with
        | Stop => (Ok acc, st)
        | Skip files' => for_each steps' files' body acc st
        | Yield file_path files' =>
            (acc' <- body file_path acc ;; for_each steps' files' body acc') st
        end
  end.

(** *** Hashing *)

(** [f.read(chunk_size)]: the next chunk and what remains. *)
Fixpoint read_chunk (chunk_size : N) (data : bytes) : bytes * bytes :=
  match data with
  | [] => ([], [])
  | b :: data' =>
      if N.eqb chunk_size 0 then ([], data)
      else let (chunk, rest) := read_chunk (N.pred chunk_size) data' in
           (b :: chunk, rest)
  end.

(** The [while True] loop of [compute_file_hash]; every round that does
    not break consumes at least one byte, so [rounds] is bounded by the
    length of the file plus one. *)
Fixpoint hash_chunks (rounds : nat) (chunk_size : N) (hasher : Hasher)
  (data : bytes) : Hasher :=
  match rounds with
  | O => hasher
  | S rounds' =>
      let (chunk, rest) := read_chunk chunk_size data in
      match chunk with
      | [] => hasher
      | _ :: _ => hash_chunks rounds' chunk_size (hasher_update hasher chunk) rest
      end
  end.

Definition compute_file_hash (file_path : Path) (hash_name : string)
  (chunk_size : N) : M string :=
  (fun st => (Ok tt, mkState (fs st) (out st) (clock st) (rand_pos st)
                       (hashed st ++ [file_path]))) ;;;
  data <- syscall (fun fs => os.read_bytes fs file_path) file_path ;;
  ret (hexdigest (hash_chunks (S (length data)) chunk_size (hashlib_new hash_name) data)).

Definition group_files_by_size (steps : nat) (files : Walk)
  : M (Dict nat (list Path)) :=
  for_each steps files
    (fun file_path size_to_files =>
       try_OSError
         (st <- syscall (fun fs => os.stat fs file_path) file_path ;;
          ret (setdefault_append Nat.eqb (fst st) file_path size_to_files))
         (fun _ => ret size_to_files))
    [].

(** The body of [for path in paths] in [find_duplicates]. *)
Definition hash_member (path : Path) (hash_to_files : Dict string (list Path))
  : M (Dict string (list Path)) :=
  try_OSError
    (digest <- compute_file_hash path "sha256" (1024 * 1024)%N ;;
     ret (setdefault_append String.eqb digest path hash_to_files))
    (fun _ => ret hash_to_files).

(** The body of [for size, paths in candidates_by_size.items()]. *)
Definition hash_bucket (size_paths : nat * list Path)
  (hash_to_files : Dict string (list Path)) : M (Dict string (list Path)) :=
  let paths := snd size_paths in
  if length paths <? 2 then ret hash_to_files
  else for_list paths hash_member hash_to_files.

Definition find_duplicates (steps : nat) (root_dir : Path) (include_hidden : bool)
  (exclude_globs : list string) : M (Dict string (list Path)) :=
  candidates_by_size <-
    group_files_by_size steps (iter_files root_dir include_hidden exclude_globs) ;;
  hash_to_files <- for_list candidates_by_size hash_bucket [] ;;
  ret (filter (fun h_ps => 1 <? length (snd h_ps)) hash_to_files).

(** *** Moving without overwriting *)

Definition ensure_directory (directory : Path) : M unit :=
  mkdir_parents (length directory) directory.

(** The candidate that the [while True] loop of [safe_move] probes at
    [counter]. *)
Definition candidate (dest : Path) (counter : nat) : Path :=
  pathlib.joinpath (pathlib.parent dest)
    (pathlib.stem dest ++ "__" ++ decimal counter ++ pathlib.suffix dest).

(** The [while True] loop: it returns the first candidate, from [counter]
    on, that does not exist, and ends with the exception that
    [candidate.exists()] raises when it raises one. *)
Fixpoint probe (steps : nat) (fs : FS) (dest : Path) (counter : nat) : Outcome Path :=
  match steps with
  | O => OutOfSteps
  | S steps' =>
      match os.Path_exists fs (candidate dest counter) with
      | os.Failure e => Raised (OSError e (candidate dest counter))
      | os.Success false => Ok (candidate dest counter)
      | os.Success true => probe steps' fs dest (counter + 1)
      end
  end.

(** The loop runs on the file system as it is, and changes nothing. *)
Definition probing (steps : nat) (dest : Path) : M Path :=
  fun st => (probe steps (fs st) dest 1, st).

Definition safe_move (steps : nat) (src dest : Path) (dry_run : bool) : M unit :=
  ensure_directory (pathlib.parent dest) ;;;
  taken <- syscall (fun fs => os.Path_exists fs dest) dest ;;
  dest <- (if taken then probing steps dest else ret dest) ;;
  print_action ("move " ++ pathlib.str src ++ " -> " ++ pathlib.str dest) dry_run ;;;
  if negb dry_run then shutil.move src dest else ret tt.

(** *** Dedupe *)

(** The body of [for dup in others]. *)
Definition dedupe_one (steps : nat) (mode : string) (duplicates_dir : Path)
  (dry_run : bool) (dup : Path) (operated_files : nat) : M nat :=
  if String.eqb mode "report" then
    print_action ("duplicate: " ++ pathlib.str dup) true ;;;
    ret operated_files
  else if String.eqb mode "move" then
    let target := pathlib.joinpath duplicates_dir (pathlib.name dup) in
    safe_move steps dup target dry_run ;;;
    ret (operated_files + 1)
  else if String.eqb mode "delete" then
    print_action ("delete " ++ pathlib.str dup) dry_run ;;;
    if negb dry_run then
      try_OSError
        (syscall_upd (fun fs => os.unlink fs dup) dup ;;;
         ret (operated_files + 1))
        (fun exc =>
           print ("Failed to delete " ++ pathlib.str dup ++ ": " ++ exn_str exc) ;;;
           ret operated_files)
    else ret operated_files
  else raise (ValueError "Invalid dedupe mode").

(** The body of [for digest, paths in duplicates.items()]. *)
Definition dedupe_group (steps : nat) (mode : string) (duplicates_dir : Path)
  (dry_run : bool) (digest_paths : string * list Path) (operated_files : nat) : M nat :=
  let digest := fst digest_paths in
  let paths := snd digest_paths in
  match python_min (fun p => len (pathlib.str p)) paths with
  | None => raise (ValueError "min() arg is an empty sequence")
  | Some original =>
      let others := filter (fun p => negb (path_eqb p original)) paths in
      print ("Hash " ++ take_str 12 digest ++ "… keep: " ++ pathlib.str original) ;;;
      for_list others (dedupe_one steps mode duplicates_dir dry_run) operated_files
  end.

Definition dedupe_action (steps : nat) (root_dir : Path) (mode : string)
  (duplicates_dir : Path) (include_hidden : bool) (exclude_globs : list string)
  (dry_run : bool) : M (nat * nat) :=
  duplicates <- find_duplicates steps root_dir include_hidden exclude_globs ;;
  match duplicates with
  | [] => print "No duplicates found." ;;; ret (0, 0)
  | _ :: _ =>
      print ("Found " ++ decimal (length duplicates) ++ " duplicate groups.") ;;;
      operated_files <-
        for_list duplicates (dedupe_group steps mode duplicates_dir dry_run) 0 ;;
      ret (length duplicates, operated_files)
  end.

(** *** Organize *)

(** [os.path.realpath(path)], which does not fail. *)
Definition path_resolve (fs : FS) (p : Path) : Path :=
  os.realpath MAXSYMLINKS fs [] p.

(** [path.resolve()] as pathlib writes it: the real path is computed and
    then [stat]ed, for no other purpose than to raise [RuntimeError] when
    the path runs into a loop of symbolic links; any other failure of that
    [stat] is ignored. *)
Definition Path_resolve (p : Path) : M Path :=
  fun st =>
    let real := path_resolve (fs st) p in
    match os.stat (fs st) real with
    | os.Failure ELOOP =>
        (Raised (RuntimeError ("Symlink loop from " ++ repr (pathlib.str real))), st)
    | _ => (Ok real, st)
    end.

(** The body of [for file_path in iter_files(...)] in [organize_files]. *)
Definition organize_one (steps : nat) (organize_mode : string) (organize_dir : Path)
  (dry_run : bool) (file_path : Path) (count : nat) : M nat :=
  target_dir <-
    try_OSError
      (if String.eqb organize_mode "ext" then
         let e := lstrip "." (lower (pathlib.suffix file_path)) in
         let ext := if String.eqb e "" then "noext" else e in
         ret (Some (pathlib.joinpath organize_dir ext))
       else if String.eqb organize_mode "date" then
         st <- syscall (fun fs => os.stat fs file_path) file_path ;;
         let t := localtime (snd st) in
         ret (Some (pathlib.joinpath
                      (pathlib.joinpath organize_dir (zero_pad 4 (fst t)))
                      (zero_pad 2 (snd t))))
       else raise (ValueError "Invalid organize mode"))
      (fun _ => ret None) ;;
  match target_dir with
  | None => ret count
  | Some target_dir =>
      let target_path := pathlib.joinpath target_dir (pathlib.name file_path) in
      target_resolved <- Path_resolve target_path ;;
      file_resolved <- Path_resolve file_path ;;
      if path_eqb target_resolved file_resolved then ret count
      else safe_move steps file_path target_path dry_run ;;; ret (count + 1)
  end.

Definition organize_files (steps : nat) (root_dir : Path) (organize_mode : string)
  (organize_dir : Path) (include_hidden : bool) (exclude_globs : list string)
  (dry_run : bool) : M nat :=
  count <-
    for_each steps (iter_files root_dir include_hidden exclude_globs)
      (organize_one steps organize_mode organize_dir dry_run) 0 ;;
  (if count =? 0 then print "No files to organize or already organized."
   else ret tt) ;;;
  ret count.

(** *** Encrypt *)

(** [os.urandom(n)]. *)
Definition os_urandom (n : nat) : M bytes :=
  fun st =>
    (Ok (map (fun i => random_byte (rand_pos st + i)) (seq 0 n)),
     mkState (fs st) (out st) (clock st) (rand_pos st + n) (hashed st)).

(** [Fernet.generate_key()], which the [cryptography] package defines as
    [base64.urlsafe_b64encode(os.urandom(32))]. *)
Definition Fernet_generate_key : M bytes :=
  random_bytes <- os_urandom 32 ;;
  ret (base64.urlsafe_b64encode random_bytes).

Definition write_bytes (p : Path) (data : bytes) : M unit :=
  fun st => syscall_upd (fun fs => os.write_bytes (clock st) fs p data) p st.

(** The key store.  The name of the key file is taken to be within the
    limits of the platform, so that [key_file.exists()] raises nothing. *)
Definition read_or_create_key (key_file : Path) : M bytes :=
  present <- ask (fun fs => os.path_exists fs key_file) ;;
  if present then
    data <- syscall (fun fs => os.read_bytes fs key_file) key_file ;;
    ret (strip_bytes data)
  else
    key <- (if have_cryptography then Fernet_generate_key
            else
              random_bytes <- os_urandom 32 ;;
              ret (base64.urlsafe_b64encode random_bytes)) ;;
    ensure_directory (pathlib.parent key_file) ;;;
    write_bytes key_file key ;;;
    print ("Wrote key file: " ++ pathlib.str key_file) ;;;
    ret key.

Definition newline : string := String (ascii_of_nat 10) "".

Definition encrypt_file (src dest : Path) (key : bytes) (dry_run : bool) : M unit :=
  (if have_cryptography then ret tt
   else
     print ("Encryption requested but 'cryptography' is not installed." ++ newline
            ++ "Install with: pip install -r requirements.txt or pip install cryptography") ;;;
     raise (SystemExit 2)) ;;;
  ensure_directory (pathlib.parent dest) ;;;
  print_action ("encrypt " ++ pathlib.str src ++ " -> " ++ pathlib.str dest) dry_run ;;;
  if dry_run then ret tt
  else
    (if fernet_key_ok key then ret tt
     else raise (ValueError "Fernet key must be 32 url-safe base64-encoded bytes.")) ;;;
    data <- syscall (fun fs => os.read_bytes fs src) src ;;
    let token := fernet_encrypt key data in
    write_bytes dest token.

(** [path.with_suffix(suffix)]. *)
Definition with_suffix (p : Path) (suffix : string) : M Path :=
  if String.eqb (pathlib.name p) "" then raise (ValueError "has an empty name")
  else ret (pathlib.joinpath (pathlib.parent p) (pathlib.stem p ++ suffix)).

(** The body of [for file_path in iter_files(...)] in [encrypt_tree]. *)
Definition encrypt_one (root_dir output_dir : Path) (key : bytes)
  (remove_originals dry_run : bool) (file_path : Path) (count : nat) : M nat :=
  if String.eqb (pathlib.suffix file_path) ".enc" then ret count
  else
    relative <- match pathlib.relative_to file_path root_dir with
                | Some r => ret r
                | None => raise (ValueError "is not in the subpath")
                end ;;
    renamed <- with_suffix relative (pathlib.suffix relative ++ ".enc") ;;
    let target_path := output_dir ++ renamed in
    encrypt_file file_path target_path key dry_run ;;;
    (if remove_originals then
       print_action ("delete original " ++ pathlib.str file_path) dry_run ;;;
       if negb dry_run then
         try_OSError
           (syscall_upd (fun fs => os.unlink fs file_path) file_path)
           (fun exc =>
              print ("Failed to delete " ++ pathlib.str file_path ++ ": "
                     ++ exn_str exc))
       else ret tt
     else ret tt) ;;;
    ret (count + 1).

Definition encrypt_tree (steps : nat) (root_dir output_dir key_file : Path)
  (include_hidden : bool) (exclude_globs : list string)
  (remove_originals dry_run : bool) : M nat :=
  key <- read_or_create_key key_file ;;
  count <-
    for_each steps (iter_files root_dir include_hidden exclude_globs)
      (encrypt_one root_dir output_dir key remove_originals dry_run) 0 ;;
  (if count =? 0 then print "No files encrypted (nothing matched or already encrypted)."
   else ret tt) ;;;
  ret count.

(** *** [main], from the parsed arguments *)

Record Args := mkArgs {
  arg_root : Path;
  arg_include_hidden : bool;
  arg_exclude_glob : list string;
  arg_apply : bool;
  arg_dedupe : option string;
  arg_duplicates_dir : option Path;
  arg_organize : option string;
  arg_organize_dir : option Path;
  arg_encrypt : bool;
  arg_encryption_output_dir : option Path;
  arg_key_file : option Path;
  arg_remove_originals : bool
}.

Definition or_default (given : option Path) (default : Path) : Path :=
  match given with
  | Some p => p
  | None => default
  end.

Definition main (steps : nat) (args : Args) : M Z :=
  root_dir <- Path_resolve (arg_root args) ;;
  let include_hidden := arg_include_hidden args in
  let exclude_globs := arg_exclude_glob args in
  let dry_run := negb (arg_apply args) in
  present <- syscall (fun fs => os.Path_exists fs root_dir) root_dir ;;
  is_directory <- ask (fun fs => present && os.is_dir fs root_dir) ;;
  if negb is_directory then
    print ("Root directory does not exist or is not a directory: "
           ++ pathlib.str root_dir) ;;;
    ret 2%Z
  else
    duplicates_dir <- Path_resolve
      (or_default (arg_duplicates_dir args) (pathlib.joinpath root_dir "_duplicates")) ;;
    organize_dir <- Path_resolve
      (or_default (arg_organize_dir args) (pathlib.joinpath root_dir "_organized")) ;;
    encryption_output_dir <- Path_resolve
      (or_default (arg_encryption_output_dir args) (pathlib.joinpath root_dir "_encrypted")) ;;
    key_file <- Path_resolve
      (or_default (arg_key_file args) (pathlib.joinpath root_dir "_key.fernet")) ;;
    any_work <-
      match arg_dedupe args with
      | Some mode =>
          (if String.eqb mode "move" then ensure_directory duplicates_dir else ret tt) ;;;
          r <- dedupe_action steps root_dir mode duplicates_dir include_hidden
                 exclude_globs dry_run ;;
          print ("Dedupe: " ++ decimal (fst r) ++ " groups; " ++ decimal (snd r)
                 ++ " files "
                 ++ (if negb (String.eqb mode "report") then "moved/deleted"
                     else "not changed") ++ ".") ;;;
          ret true
      | None => ret false
      end ;;
    any_work <-
      match arg_organize args with
      | Some mode =>
          ensure_directory organize_dir ;;;
          moved <- organize_files steps root_dir mode organize_dir include_hidden
                     exclude_globs dry_run ;;
          print ("Organize: " ++ decimal moved ++ " files moved.") ;;;
          ret true
      | None => ret any_work
      end ;;
    any_work <-
      (if arg_encrypt args then
         ensure_directory encryption_output_dir ;;;
         count <- encrypt_tree steps root_dir encryption_output_dir key_file
                    include_hidden exclude_globs (arg_remove_originals args) dry_run ;;
         print ("Encrypt: " ++ decimal count ++ " files written to "
                ++ pathlib.str encryption_output_dir ++ ".") ;;;
         ret true
       else ret any_work) ;;
    if negb any_work then
      print "Nothing to do. Pass one or more of --dedupe, --organize, --encrypt." ;;;
      ret 0%Z
    else
      (if dry_run then print "Dry-run complete. Re-run with --apply to make changes."
       else print "Done.") ;;;
      ret 0%Z.

End Tidy.

Unset Implicit Arguments.

(* ================================================================== *)
(** ** Notions used to state the properties *)
(* ================================================================== *)

(** The keys of a file system. *)
Definition keys (fs : FS) : list Path := map fst fs.

(** A file system is well formed when every entry has a name and lies in
    a directory: the root, or an entry that is a directory. *)
Definition in_directory (fs : FS) (k : Path) : Prop :=
  k <> [] /\ (pathlib.parent k = [] \/ node_at fs (pathlib.parent k) = Some Dir).

Definition well_formed (fs : FS) : Prop :=
  forall k, In k (keys fs) -> in_directory fs k.

Definition well_formedb (fs : FS) : bool :=
  forallb
    (fun k =>
       match k with
       | [] => false
       | _ :: _ =>
           match pathlib.parent k with
           | [] => true
           | d =>
               match node_at fs d with
               | Some Dir => true
               | _ => false
               end
           end
       end)
    (keys fs).

(** Directory entries appended to a file system: what [mkdir] leaves
    behind.  Every entry that was there is still there, unchanged and in
    the same place. *)
Definition only_dirs_added (fs fs' : FS) : Prop :=
  exists ds : list Path, fs' = fs ++ map (fun k => (k, Dir)) ds.

(** A computation keeps a relation between the state it starts from and
    the state it ends in, whatever its outcome. *)
Definition preserves (R : State -> State -> Prop) {A : Type} (c : M A) : Prop :=
  forall st, R st (snd (c st)).

(** Relations on states. *)
Definition same_fs (st st' : State) : Prop := fs st' = fs st.

Definition dirs_added (st st' : State) : Prop := only_dirs_added (fs st) (fs st').

(* ================================================================== *)
(** ** Sample inputs *)
(* ================================================================== *)

Definition text (s : string) : bytes := list_byte_of_string s.

Definition plain (s : string) : Node := File (mkFile (text s) 0 true true).

Definition initial (fs : FS) : State := mkState fs [] 0 0 [].

(** The first candidate, from [counter] on and within [steps] rounds,
    that does not exist. *)
Fixpoint least_free (steps : nat) (fs : FS) (dest : Path) (counter : nat) : option Path :=
  match steps with
  | O => None
  | S steps' =>
      if negb (os.path_exists fs (candidate dest counter))
      then Some (candidate dest counter)
      else least_free steps' fs dest (counter + 1)
  end.

(** A path that is within the limits of the platform wherever it is
    looked up: each component has at most [NAME_MAX] bytes and the whole
    path fewer than [PATH_MAX]. *)
Definition fits (p : Path) : bool :=
  (String.length (pathlib.str p) <? os.PATH_MAX)
  && forallb (fun c => String.length c <=? os.NAME_MAX) p.

(** A destination that is taken and whose name, of 254 bytes, leaves no
    room for a counter. *)
Definition long_name : string := (zeros 250 ++ ".txt")%string.

Definition fs_long_name : FS :=
  [ (["in"], Dir); (["in"; "a.txt"], plain "new");
    (["out"], Dir); (["out"; long_name], plain "old") ].

(** A destination that is taken, twice over. *)
Definition fs_taken : FS :=
  [ (["in"], Dir); (["in"; "a.txt"], plain "new");
    (["out"], Dir); (["out"; "a.txt"], plain "old");
    (["out"; "a__1.txt"], plain "older") ].

(* ================================================================== *)
(** ** What a run prints *)
(* ================================================================== *)

(** The state after some more lines were printed. *)
Definition printing (lines : list string) (st : State) : State :=
  mkState (fs st) (out st ++ lines) (clock st) (rand_pos st) (hashed st).

(** The member of a duplicate group that is kept, as the specification
    words it: one whose path string is of minimal length. *)
Definition shortest_in (paths : list Path) (original : Path) : Prop :=
  In original paths
  /\ forall p, In p paths ->
               len (pathlib.str original) <= len (pathlib.str p).

(** The lines of a dedupe report for one group: the member kept, then one
    line for every other member. *)
Definition group_report (digest_paths : string * list Path) : list string :=
  match python_min (fun p => len (pathlib.str p)) (snd digest_paths) with
  | Some original =>
      ("Hash " ++ take_str 12 (fst digest_paths) ++ "… keep: "
       ++ pathlib.str original)%string
      :: map (fun dup => "[DRY-RUN] duplicate: " ++ pathlib.str dup)%string
           (filter (fun p => negb (path_eqb p original)) (snd digest_paths))
  | None => []
  end.

Definition dedupe_report (duplicates : Dict string (list Path)) : list string :=
  match duplicates with
  | [] => ["No duplicates found."]
  | _ :: _ =>
      ("Found " ++ decimal (length duplicates) ++ " duplicate groups.")%string
      :: flat_map group_report duplicates
  end.

(** The size buckets of the first stage of [find_duplicates]: every
    size appears once, and the members of a bucket are paths of that
    size. *)
Definition size_of (fs : FS) (p : Path) : option nat :=
  match os.stat fs p with
  | os.Success st => Some (fst st)
  | os.Failure _ => None
  end.

Definition buckets_of (fs : FS) (sizes : Dict nat (list Path)) : Prop :=
  NoDup (map fst sizes)
  /\ forall size paths p, In (size, paths) sizes -> In p paths -> size_of fs p = Some size.

(** The paths that the second stage hashes: the members of the buckets
    with two members or more. *)
Definition to_hash (sizes : Dict nat (list Path)) : list Path :=
  flat_map (fun size_paths =>
              if length (snd size_paths) <? 2 then [] else snd size_paths)
           sizes.

(** The state after the contents of some more paths were hashed. *)
Definition hashing (paths : list Path) (st : State) : State :=
  mkState (fs st) (out st) (clock st) (rand_pos st) (hashed st ++ paths).

(** A platform to run the program on samples, whose names are ASCII: no
    glob matches, the letters [A]-[Z] are lowered, [repr] puts the text
    between single quotes, the digest of a content is the content itself,
    every time stamp falls in May 2024, and encryption reverses the
    bytes. *)
Definition sample_platform : Platform := {|
  lower := ascii_lower;
  repr := fun s => ("'" ++ s ++ "'")%string;
  fnmatch := fun _ _ => false;
  Hasher := bytes;
  hashlib_new := fun _ => [];
  hasher_update := fun h chunk => h ++ chunk;
  hexdigest := fun h => string_of_list_byte h;
  localtime := fun _ => (2024, 5);
  have_cryptography := true;
  fernet_key_ok := fun _ => true;
  fernet_encrypt := fun _ data => rev data;
  random_byte := fun i => match Byte.of_nat (i mod 256) with
                          | Some b => b
                          | None => x00
                          end
|}.

(** Two files with the same content, a third of the same size and a
    fourth of another size. *)
Definition fs_duplicates : FS :=
  [ (["r"], Dir);
    (["r"; "a.txt"], plain "0123456789");
    (["r"; "b.txt"], plain "0123456789");
    (["r"; "c.txt"], plain "abcdefghij");
    (["r"; "d.txt"], plain "01234567890123456789") ].


(** The first member of a list whose key is minimal: [original] occurs in
    [l], no member has a smaller key, and every member before it has a
    larger one. *)
Definition first_minimal {A : Type} (key : A -> nat) (l : list A) (original : A) : Prop :=
  exists before after,
    l = before ++ original :: after
    /\ (forall x, In x l -> key original <= key x)
    /\ (forall x, In x before -> key original < key x).

(** The state after the file system was replaced. *)
Definition with_fs (fs' : FS) (st : State) : State :=
  mkState fs' (out st) (clock st) (rand_pos st) (hashed st).

(** A tree whose destination directory is missing. *)
Definition fs_inbox : FS :=
  [ (["in"], Dir); (["in"; "a.txt"], plain "new") ].


(** [list(files)]: the paths that the generator yields when nothing
    happens between two yields. *)
Definition list_files {platform : Platform} (steps : nat) (files : Walk)
  : M (list Path) :=
  for_each steps files (fun file_path yielded => ret (yielded ++ [file_path])) [].




(** A file that cannot be read, before one that can. *)
Definition fs_unreadable : FS :=
  [ (["r"], Dir);
    (["r"; "a.txt"], File (mkFile (text "secret") 0 false true));
    (["r"; "b.txt"], plain "public");
    (["e"], Dir) ].

(* ================================================================== *)
(** ** Organized trees *)
(* ================================================================== *)

(** A file system without symbolic links. *)
Definition no_symlinks (fs : FS) : Prop :=
  forall k t, ~ In (k, Symlink t) fs.

(** A name that ends in a dot: pathlib gives it no suffix, and gives the
    name that [safe_move] derives from it the suffix [.__n]. *)
Definition ends_with_dot (s : string) : bool :=
  match rfind "." s with
  | Some i => S i =? String.length s
  | None => false
  end.

Definition no_trailing_dots (fs : FS) : Prop :=
  forall k f, In (k, File f) fs -> ends_with_dot (pathlib.name k) = false.

(** The destination that [organize_files] computes for a regular file. *)
Definition extension_of {platform : Platform} (file_path : Path) : string :=
  let e := lstrip "." (lower (pathlib.suffix file_path)) in
  if String.eqb e "" then "noext" else e.

Definition target_dir_of {platform : Platform} (fs : FS) (organize_mode : string)
  (organize_dir file_path : Path) : Path :=
  if String.eqb organize_mode "ext"
  then pathlib.joinpath organize_dir (extension_of file_path)
  else
    match os.stat fs file_path with
    | os.Success st =>
        pathlib.joinpath
          (pathlib.joinpath organize_dir (zero_pad 4 (fst (localtime (snd st)))))
          (zero_pad 2 (snd (localtime (snd st))))
    | os.Failure _ => organize_dir
    end.

Definition target_of {platform : Platform} (fs : FS) (organize_mode : string)
  (organize_dir file_path : Path) : Path :=
  pathlib.joinpath (target_dir_of fs organize_mode organize_dir file_path)
    (pathlib.name file_path).

(** A path strictly below a directory. *)
Definition below (d p : Path) : Prop := exists rest, rest <> [] /\ p = d ++ rest.

(** The files that a traversal has still to come to: those listed in the
    current directory and not yet yielded, and those below a
    sub-directory that is still to be entered. *)
Definition pending (w : Walk) (p : Path) : Prop :=
  (exists fr, frame w = Some fr
              /\ ((exists c, In c (filenames fr) /\ p = dirpath fr ++ [c])
                  \/ (exists c, In c (dirnames fr) /\ below (dirpath fr ++ [c]) p)))
  \/ (exists d, In d (stack w) /\ below d p).

(** Two files named [a.] in different directories, the organize
    directory being listed first. *)
Definition fs_dotted : FS :=
  [ (["r"], Dir); (["r"; "_organized"], Dir);
    (["r"; "x"], Dir); (["r"; "x"; "a."], plain "one");
    (["r"; "y"], Dir); (["r"; "y"; "a."], plain "two") ].

(** A symbolic link to the place where organize will put a file. *)
Definition fs_dangling : FS :=
  [ (["r"], Dir);
    (["r"; "l.md"], Symlink ["r"; "_organized"; "txt"; "a.txt"]);
    (["r"; "a.txt"], plain "text") ].

(** While organize runs: every regular file below the root is in place,
    or is skipped by the traversal, or is still to come (and then, in
    [ext] mode, its name does not end in a dot). *)
Definition in_place_or_pending {platform : Platform} (root_dir : Path)
  (organize_mode : string) (organize_dir : Path) (w : Walk) (fs : FS) : Prop :=
  forall p f,
    node_at fs p = Some (File f) -> below root_dir p ->
    target_of fs organize_mode organize_dir p = p
    \/ should_skip p (include_hidden_of w) (exclude_globs_of w) = true
    \/ ((String.eqb organize_mode "ext" = true ->
         ends_with_dot (pathlib.name p) = false)
        /\ pending w p).

(** The directories that a traversal holds lie at or below its root. *)
Definition under (root_dir d : Path) : Prop := exists rest, d = root_dir ++ rest.

Definition walk_under (root_dir : Path) (w : Walk) : Prop :=
  (forall d, In d (stack w) -> under root_dir d)
  /\ (forall fr, frame w = Some fr -> under root_dir (dirpath fr)).

Definition organizing {platform : Platform} (root_dir : Path)
  (organize_mode : string) (organize_dir : Path) (w : Walk) (st : State) : Prop :=
  well_formed (fs st) /\ no_symlinks (fs st) /\ walk_under root_dir w
  /\ in_place_or_pending root_dir organize_mode organize_dir w (fs st).

(** After an applied run: every regular file below the root is in place
    or is skipped by the traversal. *)
Definition settled {platform : Platform} (root_dir : Path) (organize_mode : string)
  (organize_dir : Path) (include_hidden : bool) (exclude_globs : list string)
  (fs : FS) : Prop :=
  forall p f,
    node_at fs p = Some (File f) -> below root_dir p ->
    target_of fs organize_mode organize_dir p = p
    \/ should_skip p include_hidden exclude_globs = true.

(** *** How long a traversal of a file system at rest can take *)

(** The length of the longest path of the file system. *)
Definition depth (fs : FS) : nat := list_max (map (fun e => length (fst e)) fs).

(** The steps that the traversal spends on a directory and what lies
    below it, [n] levels down: one to list it, one for every name that is
    not a directory, one to push the sub-directories, and what these
    take. *)
Fixpoint walk_cost (fs : FS) (n : nat) (d : Path) : nat :=
  match os.scandir fs d with
  | os.Failure _ => 1
  | os.Success (dirs, nondirs) =>
      2 + length nondirs
      + match n with
        | O => 0
        | S n' => list_sum (map (fun c => walk_cost fs n' (pathlib.joinpath d c)) dirs)
        end
  end.

Definition cost_of (fs : FS) (d : Path) : nat := walk_cost fs (depth fs - length d) d.

(** The steps that a traversal has still to make. *)
Definition remaining (fs : FS) (w : Walk) : nat :=
  list_sum (map (cost_of fs) (stack w))
  + match frame w with
    | None => 0
    | Some fr =>
        1 + length (filenames fr)
        + list_sum (map (cost_of fs)
                      (filter (fun new_path => negb (os.islink fs new_path))
                              (map (pathlib.joinpath (dirpath fr)) (dirnames fr))))
    end.

(** A tree to organize: two files of the same name and a third. *)
Definition fs_mixed : FS :=
  [ (["r"], Dir); (["r"; "a.txt"], plain "one");
    (["r"; "sub"], Dir); (["r"; "sub"; "a.txt"], plain "two");
    (["r"; "b.MD"], plain "three") ].

(** A tree to organize where the place of a file is taken by a symbolic
    link whose target is missing. *)
Definition fs_link_at_destination : FS :=
  [ (["r"], Dir); (["r"; "a.txt"], plain "one");
    (["r"; "_organized"], Dir); (["r"; "_organized"; "txt"], Dir);
    (["r"; "_organized"; "txt"; "a.txt"], Symlink ["r"; "gone.txt"]) ].

(** [tidy.py --root /r --organize ext] *)
Definition organize_ext_preview : Args :=
  mkArgs ["r"] false [] false None None (Some "ext") None false None None false.

(** [tidy.py --root /r --organize ext --apply] *)
Definition organize_ext_apply : Args :=
  mkArgs ["r"] false [] true None None (Some "ext") None false None None false.

(** [tidy.py --root /r --encrypt --encryption-output-dir /e --key-file /k
    --apply] *)
Definition encrypt_apply : Args :=
  mkArgs ["r"] false [] true None None None None true (Some ["e"]) (Some ["k"]) false.

(* ================================================================== *)
(** ** The traversal of a tree at rest *)
(* ================================================================== *)

(** The paths that the generator yields, in order, on a file system that
    does not change while it runs; [None] when [steps] steps do not bring
    it to its end. *)
Fixpoint walk_list {platform : Platform} (steps : nat) (w : Walk) (fs : FS)
  : option (list Path) :=
  match steps with
  | O => None
  | S steps' =>
      match next_step w fs with
      | Stop => Some []
      | Skip w' => walk_list steps' w' fs
      | Yield file_path w' => option_map (cons file_path) (walk_list steps' w' fs)
      end
  end.

(** A root that is hidden itself, with a file in it. *)
Definition fs_hidden : FS :=
  [ ([".cache"], Dir); ([".cache"; "a.txt"], plain "kept") ].

(* ================================================================== *)
(** ** Grouping by a key *)
(* ================================================================== *)

(** One round of a grouping loop: [d.setdefault(key(x), []).append(x)] when
    the key is found, and nothing (the [except ...: continue]) when it is
    not. *)
Definition group_step {K A : Type} (eqb : K -> K -> bool) (key : A -> option K)
  (d : Dict K (list A)) (x : A) : Dict K (list A) :=
  match key x with
  | Some k => setdefault_append eqb k x d
  | None => d
  end.

Definition grouped {K A : Type} (eqb : K -> K -> bool) (key : A -> option K)
  (l : list A) : Dict K (list A) :=
  fold_left (group_step eqb key) l [].

(** The digest that [compute_file_hash] gives a content, and a path. *)
Definition content_digest {platform : Platform} (data : bytes) : string :=
  hexdigest (hash_chunks (S (length data)) (1024 * 1024)%N (hashlib_new "sha256") data).

Definition digest_of {platform : Platform} (fs : FS) (p : Path) : option string :=
  match os.read_bytes fs p with
  | os.Success data => Some (content_digest data)
  | os.Failure _ => None
  end.

(** A tree whose files all differ in size. *)
Definition fs_sizes : FS :=
  [ (["r"], Dir); (["r"; "a.txt"], plain "1");
    (["r"; "b.txt"], plain "22"); (["r"; "c.txt"], plain "333") ].

(* ================================================================== *)
(** ** Making directories *)
(* ================================================================== *)

(** Nothing but directories lies on the way to a path: each of its
    prefixes, the path included, is absent or is a directory. *)
Definition clear_way (fs : FS) (directory : Path) : Prop :=
  forall k rest, directory = k ++ rest -> node_at fs k = None \/ node_at fs k = Some Dir.

(** A file where a directory is wanted. *)
Definition fs_blocked : FS :=
  [ (["r"], Dir); (["r"; "a.txt"], plain "in the way") ].

Definition clear_wayb (fs : FS) (directory : Path) : bool :=
  forallb
    (fun n =>
       match node_at fs (firstn n directory) with
       | None | Some Dir => true
       | _ => false
       end)
    (seq 0 (S (length directory))).

(* ================================================================== *)
(** ** Encrypting *)
(* ================================================================== *)

(** Where [encrypt_tree] writes the file at [relative] below the root:
    the same place below the output directory, with [.enc] appended to the
    name. *)
Definition encrypted_path (output_dir relative : Path) : Path :=
  output_dir ++ pathlib.parent relative ++ [pathlib.name relative ++ ".enc"]%string.

(** What a run keeps: a tree that is well formed and without symbolic
    links stays so, and every entry whose path is [spared] is afterwards
    what it was. *)
Definition keeps (spared : Path -> Prop) (st st' : State) : Prop :=
  well_formed (fs st) -> no_symlinks (fs st) ->
  well_formed (fs st') /\ no_symlinks (fs st')
  /\ forall q n, spared q -> node_at (fs st) q = Some n -> node_at (fs st') q = Some n.

(** The paths that are not encrypted outputs. *)
Definition not_enc (q : Path) : Prop := pathlib.suffix q <> ".enc"%string.

(* ================================================================== *)
(** ** Resolving the arguments *)
(* ================================================================== *)

(** A path that runs into a loop of symbolic links: the [stat] of its real
    path fails with ELOOP. *)
Definition on_loop (fs : FS) (p : Path) : bool :=
  match os.stat fs (path_resolve fs p) with
  | os.Failure ELOOP => true
  | _ => false
  end.


(* ================================================================== *)
(** * Properties *)
(* ================================================================== *)

(** ** Text and paths *)

Lemma path_eqb_spec (p q : Path) : reflect (p = q) (path_eqb p q).
Proof.
  unfold path_eqb. destruct (list_eq_dec string_dec p q); constructor; assumption.
Qed.

Lemma path_eqb_refl (p : Path) : path_eqb p p = true.
Proof. destruct (path_eqb_spec p p); congruence. Qed.

Lemma path_eqb_eq (p q : Path) : path_eqb p q = true <-> p = q.
Proof. destruct (path_eqb_spec p q); split; congruence. Qed.

Lemma path_eqb_neq (p q : Path) : path_eqb p q = false <-> p <> q.
Proof. destruct (path_eqb_spec p q); split; congruence. Qed.

Lemma length_append (s t : string) :
  String.length (s ++ t) = String.length s + String.length t.
Proof. induction s as [|a s IH]; simpl; [reflexivity | now rewrite IH]. Qed.

Lemma append_assoc (s t u : string) : ((s ++ t) ++ u = s ++ (t ++ u))%string.
Proof. induction s as [|a s IH]; simpl; [reflexivity | now rewrite IH]. Qed.

Lemma append_nil_r (s : string) : (s ++ "" = s)%string.
Proof. induction s as [|a s IH]; simpl; [reflexivity | now rewrite IH]. Qed.

Lemma append_inv_head (s t u : string) : (s ++ t = s ++ u)%string -> t = u.
Proof. induction s as [|a s IH]; simpl; intros H; [assumption | injection H; auto]. Qed.

Lemma append_inv_tail (s t u : string) : (t ++ s = u ++ s)%string -> t = u.
Proof.
  revert u. induction t as [|a t IH]; intros [|b u] H; simpl in H.
  - reflexivity.
  - apply (f_equal String.length) in H. simpl in H. rewrite length_append in H. lia.
  - apply (f_equal String.length) in H. simpl in H. rewrite length_append in H. lia.
  - injection H as -> H. f_equal. now apply IH.
Qed.

Lemma decimal_inj (n m : nat) : decimal n = decimal m -> n = m.
Proof.
  unfold decimal. intros H.
  apply (f_equal NilEmpty.uint_of_string) in H.
  rewrite !NilEmpty.usu in H. injection H as H.
  apply (f_equal Nat.of_uint) in H. now rewrite !Unsigned.of_to in H.
Qed.

(** ** Looking entries up *)

Lemma node_at_In (fs : FS) (k : Path) (n : Node) :
  node_at fs k = Some n -> In (k, n) fs.
Proof.
  induction fs as [|[k' n'] fs IH]; simpl; [discriminate|].
  destruct (path_eqb_spec k' k) as [->|Hne].
  - intros [= ->]. now left.
  - intros H. right. auto.
Qed.

Lemma node_at_keys (fs : FS) (k : Path) :
  node_at fs k <> None <-> In k (keys fs).
Proof.
  unfold keys. induction fs as [|[k' n'] fs IH]; simpl.
  - split; [congruence | contradiction].
  - destruct (path_eqb_spec k' k) as [->|Hne].
    + split; [now left | discriminate].
    + rewrite IH. split; [now right | intros [H|H]; [contradiction | assumption]].
Qed.

Lemma node_at_app (fs fs' : FS) (k : Path) :
  node_at (fs ++ fs') k =
  match node_at fs k with
  | Some n => Some n
  | None => node_at fs' k
  end.
Proof.
  induction fs as [|[k' n'] fs IH]; simpl; [reflexivity|].
  destruct (path_eqb k' k); [reflexivity | apply IH].
Qed.

(** ** Path resolution *)

Lemma namei_nil (links : nat) (fs : FS) (cur : Path) :
  namei links fs cur [] = Found cur Dir.
Proof. destruct links; reflexivity. Qed.

Lemma namei_cons (links : nat) (fs : FS) (cur : Path) (c : string) (rest : list string) :
  namei links fs cur (c :: rest) =
  match node_at fs (cur ++ [c]) with
  | None =>
      match rest with
      | [] => Vacant (cur ++ [c])
      | _ :: _ => Unreachable ENOENT
      end
  | Some Dir => namei links fs (cur ++ [c]) rest
  | Some (Symlink t) =>
      match links with
      | O => Unreachable ELOOP
      | S links' => namei links' fs [] (t ++ rest)
      end
  | Some n =>
      match rest with
      | [] => Found (cur ++ [c]) n
      | _ :: _ => Unreachable ENOTDIR
      end
  end.
Proof. destruct links; reflexivity. Qed.

(** Induction over the steps of a resolution: one component at a time,
    with a smaller budget after a symbolic link. *)
Lemma namei_ind (fs : FS) (P : nat -> Path -> list string -> Prop) :
  (forall links cur, P links cur []) ->
  (forall links cur c rest,
      (node_at fs (cur ++ [c]) = Some Dir -> P links (cur ++ [c]) rest) ->
      (forall t links', node_at fs (cur ++ [c]) = Some (Symlink t) ->
                        links = S links' -> P links' [] (t ++ rest)) ->
      P links cur (c :: rest)) ->
  forall links cur rest, P links cur rest.
Proof.
  intros Hnil Hcons links.
  induction links as [|links IH]; intros cur rest; revert cur;
    induction rest as [|c rest IHrest]; intros cur; auto.
  - apply Hcons; [intros _; apply IHrest | intros t l' _ [=]].
  - apply Hcons; [intros _; apply IHrest | intros t l' _ [= <-]; apply IH].
Qed.

(** A directory that a resolution reaches is where it started, the root,
    or an entry. *)
Lemma namei_found_dir (fs : FS) (links : nat) (cur : Path) (rest : list string) :
  forall k, namei links fs cur rest = Found k Dir ->
            k = cur \/ k = [] \/ node_at fs k = Some Dir.
Proof.
  revert links cur rest.
  apply (namei_ind fs (fun links cur rest => forall k,
           namei links fs cur rest = Found k Dir ->
           k = cur \/ k = [] \/ node_at fs k = Some Dir)).
  - intros links cur k. rewrite namei_nil. intros [= <-]. now left.
  - intros links cur c rest IHd IHl k. rewrite namei_cons.
    destruct (node_at fs (cur ++ [c])) as [[f| |t|]|] eqn:E.
    + destruct rest; discriminate.
    + intros H. destruct (IHd eq_refl k H) as [->|[->|H']]; auto.
    + destruct links as [|links']; [discriminate|].
      intros H. destruct (IHl t links' eq_refl eq_refl k H) as [->|[->|H']]; auto.
    + destruct rest; discriminate.
    + destruct rest; discriminate.
Qed.

(** What a resolution finds is never a symbolic link, and is an entry
    unless it is a directory. *)
Lemma namei_found_entry (fs : FS) (links : nat) (cur : Path) (rest : list string) :
  forall k n, namei links fs cur rest = Found k n ->
              (forall t, n <> Symlink t) /\ (n = Dir \/ node_at fs k = Some n).
Proof.
  revert links cur rest.
  apply (namei_ind fs (fun links cur rest => forall k n,
           namei links fs cur rest = Found k n ->
           (forall t, n <> Symlink t) /\ (n = Dir \/ node_at fs k = Some n))).
  - intros links cur k n. rewrite namei_nil. intros [= <- <-].
    split; [discriminate | now left].
  - intros links cur c rest IHd IHl k n. rewrite namei_cons.
    destruct (node_at fs (cur ++ [c])) as [[f| |t|]|] eqn:E.
    + destruct rest; [|discriminate]. intros [= <- <-].
      split; [discriminate | now right].
    + intros H. exact (IHd eq_refl k n H).
    + destruct links as [|links']; [discriminate|].
      intros H. exact (IHl t links' eq_refl eq_refl k n H).
    + destruct rest; [|discriminate]. intros [= <- <-].
      split; [discriminate | now right].
    + destruct rest; discriminate.
Qed.

(** Resolving one more component: the directory part is resolved first. *)
Lemma namei_snoc_found (fs : FS) (links : nat) (cur : Path) (rest : list string)
  (c : string) :
  forall k n, namei links fs cur (rest ++ [c]) = Found k n ->
  exists d, namei links fs cur rest = Found d Dir /\ node_at fs (d ++ [c]) <> None.
Proof.
  revert links cur rest.
  apply (namei_ind fs (fun links cur rest => forall k n,
           namei links fs cur (rest ++ [c]) = Found k n ->
           exists d, namei links fs cur rest = Found d Dir
                     /\ node_at fs (d ++ [c]) <> None)).
  - intros links cur k n. simpl. rewrite namei_cons, namei_nil.
    intros H. exists cur. split; [apply namei_nil|].
    destruct (node_at fs (cur ++ [c])); [discriminate | discriminate H].
  - intros links cur c0 rest IHd IHl k n. simpl. rewrite !namei_cons.
    destruct (node_at fs (cur ++ [c0])) as [[f| |t|]|] eqn:E.
    + destruct rest; discriminate.
    + intros H. exact (IHd eq_refl k n H).
    + destruct links as [|links']; [discriminate|].
      rewrite app_assoc. intros H. exact (IHl t links' eq_refl eq_refl k n H).
    + destruct rest; discriminate.
    + destruct rest; discriminate.
Qed.

Lemma namei_snoc_entry (fs : FS) (links : nat) (cur : Path) (rest : list string)
  (c : string) :
  forall d m, namei links fs cur rest = Found d Dir ->
              node_at fs (d ++ [c]) = Some m ->
              (forall t, m <> Symlink t) ->
              namei links fs cur (rest ++ [c]) = Found (d ++ [c]) m.
Proof.
  revert links cur rest.
  apply (namei_ind fs (fun links cur rest => forall d m,
           namei links fs cur rest = Found d Dir ->
           node_at fs (d ++ [c]) = Some m ->
           (forall t, m <> Symlink t) ->
           namei links fs cur (rest ++ [c]) = Found (d ++ [c]) m)).
  - intros links cur d m. rewrite namei_nil. intros [= <-] Hm Hnl.
    simpl. rewrite namei_cons, Hm.
    destruct m as [f| |t|]; try reflexivity.
    + now rewrite namei_nil.
    + now destruct (Hnl t).
  - intros links cur c0 rest IHd IHl d m. simpl. rewrite !namei_cons.
    destruct (node_at fs (cur ++ [c0])) as [[f| |t|]|] eqn:E.
    + destruct rest; discriminate.
    + intros H. exact (IHd eq_refl d m H).
    + destruct links as [|links']; [discriminate|].
      rewrite app_assoc. intros H. exact (IHl t links' eq_refl eq_refl d m H).
    + destruct rest; discriminate.
    + destruct rest; discriminate.
Qed.

Lemma namei_snoc_vacant (fs : FS) (links : nat) (cur : Path) (rest : list string)
  (c : string) :
  forall d, namei links fs cur rest = Found d Dir ->
            node_at fs (d ++ [c]) = None ->
            namei links fs cur (rest ++ [c]) = Vacant (d ++ [c]).
Proof.
  revert links cur rest.
  apply (namei_ind fs (fun links cur rest => forall d,
           namei links fs cur rest = Found d Dir ->
           node_at fs (d ++ [c]) = None ->
           namei links fs cur (rest ++ [c]) = Vacant (d ++ [c]))).
  - intros links cur d. rewrite namei_nil. intros [= <-] Hm.
    simpl. now rewrite namei_cons, Hm.
  - intros links cur c0 rest IHd IHl d. simpl. rewrite !namei_cons.
    destruct (node_at fs (cur ++ [c0])) as [[f| |t|]|] eqn:E.
    + destruct rest; discriminate.
    + intros H. exact (IHd eq_refl d H).
    + destruct links as [|links']; [discriminate|].
      rewrite app_assoc. intros H. exact (IHl t links' eq_refl eq_refl d H).
    + destruct rest; discriminate.
    + destruct rest; discriminate.
Qed.

Lemma path_split (p : Path) : p <> [] -> p = pathlib.parent p ++ [pathlib.name p].
Proof. intros H. apply (app_removelast_last ""%string H). Qed.

Lemma parent_joinpath (p : Path) (c : string) :
  pathlib.parent (pathlib.joinpath p c) = p.
Proof. apply removelast_last. Qed.

Lemma name_joinpath (p : Path) (c : string) :
  pathlib.name (pathlib.joinpath p c) = c.
Proof. apply last_last. Qed.

(** A path that exists has an entry under its name in its directory. *)
Lemma path_exists_joinpath (fs : FS) (d : Path) (c : string) :
  os.path_exists fs (pathlib.joinpath d c) = true ->
  exists k, resolve fs d = Found k Dir /\ In (k ++ [c]) (keys fs).
Proof.
  unfold os.path_exists, resolve, pathlib.joinpath.
  destruct (namei MAXSYMLINKS fs [] (d ++ [c])) as [k n| |] eqn:E; try discriminate.
  intros _. destruct (namei_snoc_found _ _ _ _ _ _ _ E) as [k' [H1 H2]].
  exists k'. split; [assumption | now apply node_at_keys].
Qed.

(** The entry of a path that does not exist is absent or a symbolic
    link. *)
Lemma resolve_entry_not_exists (fs : FS) (p : Path) (k : Path) (m : Node) :
  resolve_entry fs p = Found k m ->
  os.path_exists fs p = false ->
  exists t, m = Symlink t.
Proof.
  unfold resolve_entry, os.path_exists. destruct p as [|c p']; [intros [= <- <-]; simpl|].
  - discriminate.
  - set (p := c :: p'). assert (Hp : p <> []) by discriminate.
    destruct (resolve fs (pathlib.parent p)) as [d [f| |t|]| |] eqn:E; try discriminate.
    destruct (node_at fs (d ++ [pathlib.name p])) as [n|] eqn:En; [|discriminate].
    intros [= <- <-]. rewrite (path_split p Hp) at 1. unfold resolve in *.
    destruct n as [f| |t|]; try (now exists t);
      rewrite (namei_snoc_entry _ _ _ _ _ _ _ E En); discriminate.
Qed.

(** ** The probing loop of [safe_move] *)

Lemma candidate_inj (dest : Path) (n m : nat) :
  candidate dest n = candidate dest m -> n = m.
Proof.
  unfold candidate, pathlib.joinpath. intros H.
  apply app_inv_head in H. injection H as H.
  apply append_inv_head in H. simpl in H. injection H as H.
  apply append_inv_tail in H. now apply decimal_inj.
Qed.

Lemma candidate_parent (dest : Path) (n : nat) :
  pathlib.parent (candidate dest n) = pathlib.parent dest.
Proof. apply parent_joinpath. Qed.

(** Among [length fs + 1] candidates one is free: those that exist are
    distinct entries of one directory. *)
Lemma some_candidate_free (fs : FS) (dest : Path) :
  exists n, 1 <= n <= S (length fs) /\ os.path_exists fs (candidate dest n) = false.
Proof.
  set (range := seq 1 (S (length fs))).
  destruct (forallb (fun n => os.path_exists fs (candidate dest n)) range) eqn:E.
  - exfalso. rewrite forallb_forall in E.
    destruct (resolve fs (pathlib.parent dest)) as [k [f| |t|]| |] eqn:R.
    2:{ set (name_of := fun n => (pathlib.stem dest ++ "__" ++ decimal n
                                    ++ pathlib.suffix dest)%string).
        assert (Hincl : incl (map (fun n => k ++ [name_of n]) range) (keys fs)).
        { intros x Hx. apply in_map_iff in Hx. destruct Hx as [n [<- Hn]].
          destruct (path_exists_joinpath fs _ _ (E n Hn)) as [k' [Hk' Hin]].
          rewrite R in Hk'. now injection Hk' as <-. }
        assert (Hnd : NoDup (map (fun n => k ++ [name_of n]) range)).
        { apply Injective_map_NoDup; [|apply seq_NoDup].
          intros n m H. apply (candidate_inj dest). unfold candidate, pathlib.joinpath.
          apply app_inv_head in H. injection H as H. unfold name_of in H.
          now rewrite H. }
        pose proof (NoDup_incl_length Hnd Hincl) as Hlen.
        unfold keys, range in Hlen. rewrite !length_map, length_seq in Hlen. lia. }
    all: assert (Hin : In 1 range) by (unfold range; apply in_seq; lia);
      destruct (path_exists_joinpath fs _ _ (E 1 Hin)) as [k' [Hk' _]];
      rewrite R in Hk'; discriminate.
  - assert (H : exists n, In n range /\ os.path_exists fs (candidate dest n) = false).
    { clear - E. induction range as [|n range IH]; simpl in E; [discriminate|].
      destruct (os.path_exists fs (candidate dest n)) eqn:En.
      - destruct (IH E) as [m [Hm Hf]]. exists m. split; [now right | assumption].
      - exists n. split; [now left | assumption]. }
    destruct H as [n [Hn Hf]]. exists n. split; [|assumption].
    unfold range in Hn. apply in_seq in Hn. lia.
Qed.

(** The loop returns the first free candidate at or after [counter], when
    there is one within its budget. *)
Lemma least_free_first (fs : FS) (dest : Path) (steps : nat) :
  forall counter n,
    counter <= n < counter + steps ->
    os.path_exists fs (candidate dest n) = false ->
    exists least,
      counter <= least <= n
      /\ os.path_exists fs (candidate dest least) = false
      /\ (forall m, counter <= m < least -> os.path_exists fs (candidate dest m) = true)
      /\ least_free steps fs dest counter = Some (candidate dest least).
Proof.
  induction steps as [|steps IH]; intros counter n Hn Hfree; [lia|].
  simpl. destruct (os.path_exists fs (candidate dest counter)) eqn:E; simpl.
  - assert (Hne : n <> counter) by (intros ->; congruence).
    destruct (IH (counter + 1) n ltac:(lia) Hfree) as [least [H1 [H2 [H3 H4]]]].
    exists least. repeat split; try lia; try assumption.
    intros m Hm. destruct (Nat.eq_dec m counter) as [->|Hmc]; [assumption|].
    apply H3. lia.
  - exists counter. repeat split; try lia; try assumption; intros; lia.
Qed.

Lemma least_free_candidate (fs : FS) (dest : Path) (steps : nat) :
  forall counter c,
    least_free steps fs dest counter = Some c -> exists n, c = candidate dest n.
Proof.
  induction steps as [|steps IH]; intros counter c; simpl; [discriminate|].
  destruct (negb (os.path_exists fs (candidate dest counter))).
  - intros [= <-]. now exists counter.
  - apply IH.
Qed.

Lemma least_free_more_steps (fs : FS) (dest : Path) (steps : nat) :
  forall counter c steps',
    least_free steps fs dest counter = Some c -> steps <= steps' ->
    least_free steps' fs dest counter = Some c.
Proof.
  induction steps as [|steps IH]; intros counter c steps' H Hle; [discriminate|].
  destruct steps' as [|steps']; [lia|]. simpl in *.
  destruct (negb (os.path_exists fs (candidate dest counter))); [assumption|].
  apply IH; [assumption | lia].
Qed.

Lemma least_free_is_free (steps : nat) (fs : FS) (dest : Path) :
  forall counter c,
    least_free steps fs dest counter = Some c -> os.path_exists fs c = false.
Proof.
  induction steps as [|steps IH]; intros counter c; simpl; [discriminate|].
  destruct (os.path_exists fs (candidate dest counter)) eqn:E; simpl.
  - apply IH.
  - now intros [= <-].
Qed.

(** What the loop returns is the least free candidate: the candidates
    before it exist. *)
Lemma least_free_spec (steps : nat) (fs : FS) (dest : Path) :
  forall counter c,
    least_free steps fs dest counter = Some c ->
    exists n,
      counter <= n < counter + steps
      /\ c = candidate dest n
      /\ os.path_exists fs (candidate dest n) = false
      /\ forall m, counter <= m < n -> os.path_exists fs (candidate dest m) = true.
Proof.
  induction steps as [|steps IH]; intros counter c; simpl; [discriminate|].
  destruct (os.path_exists fs (candidate dest counter)) eqn:E; simpl.
  - intros H. destruct (IH _ _ H) as [n [Hn [Hc [Hfree Hbefore]]]].
    exists n. split; [lia|]. split; [exact Hc|]. split; [exact Hfree|].
    intros m Hm. destruct (Nat.eq_dec m counter) as [->|Hne]; [exact E|].
    apply Hbefore. lia.
  - intros [= <-]. exists counter. split; [lia|]. split; [reflexivity|].
    split; [exact E|]. intros m Hm. lia.
Qed.

Lemma probe_ok (steps : nat) (fs : FS) (dest : Path) :
  forall counter c,
    probe steps fs dest counter = Ok c -> least_free steps fs dest counter = Some c.
Proof.
  induction steps as [|steps IH]; intros counter c; simpl; [discriminate|].
  unfold os.Path_exists.
  destruct (os.name_too_long fs (candidate dest counter)); [discriminate|].
  destruct (os.path_exists fs (candidate dest counter)); simpl.
  - apply IH.
  - now intros [= <-].
Qed.

(** The loop returns the least free candidate when no candidate up to it
    has too long a name. *)
Lemma probe_least_free (steps : nat) (fs : FS) (dest : Path) :
  forall counter n,
    least_free steps fs dest counter = Some (candidate dest n) ->
    (forall m, counter <= m <= n -> os.name_too_long fs (candidate dest m) = false) ->
    probe steps fs dest counter = Ok (candidate dest n).
Proof.
  induction steps as [|steps IH]; intros counter n Hleast Hfit; [discriminate|].
  destruct (least_free_spec _ _ _ _ _ Hleast) as [n' [Hn' [Hc _]]].
  apply candidate_inj in Hc. subst n'.
  simpl in *. unfold os.Path_exists. rewrite (Hfit counter) by lia.
  destruct (os.path_exists fs (candidate dest counter)) eqn:E; simpl in *.
  - apply IH; [exact Hleast|]. intros m Hm. apply Hfit. lia.
  - injection Hleast as Hleast. now rewrite Hleast.
Qed.

(** The least counter whose candidate is free is what the loop comes to,
    given the rounds. *)
Lemma least_free_least (fs : FS) (dest : Path) (n steps : nat) :
  1 <= n <= steps ->
  os.path_exists fs (candidate dest n) = false ->
  (forall m, 1 <= m < n -> os.path_exists fs (candidate dest m) = true) ->
  least_free steps fs dest 1 = Some (candidate dest n).
Proof.
  intros Hn Hfree Hbefore.
  destruct (least_free_first fs dest steps 1 n ltac:(lia) Hfree) as [l [L1 [L2 [_ L4]]]].
  assert (l = n) as ->; [|exact L4].
  destruct (Nat.eq_dec l n) as [|Hne]; [assumption|].
  rewrite (Hbefore l) in L2; [discriminate | lia].
Qed.

(** There is a least free candidate among the first [length fs + 1]. *)
Lemma least_free_found (fs : FS) (dest : Path) :
  exists n,
    1 <= n <= S (length fs)
    /\ os.path_exists fs (candidate dest n) = false
    /\ (forall m, 1 <= m < n -> os.path_exists fs (candidate dest m) = true).
Proof.
  destruct (some_candidate_free fs dest) as [n0 [Hn0 Hfree]].
  destruct (least_free_first fs dest n0 1 n0 ltac:(lia) Hfree)
    as [n [H1 [H2 [H3 _]]]].
  exists n. repeat split; try lia; assumption.
Qed.

(** A path whose components and whose length are within the limits is
    never too long, whatever the file system holds. *)
Lemma long_component_fits (fs : FS) (rest : list string) :
  forallb (fun c => String.length c <=? os.NAME_MAX) rest = true ->
  forall reached, os.long_component fs reached rest = false.
Proof.
  induction rest as [|c rest IH]; intros Hfit reached; [reflexivity|].
  simpl in Hfit. apply andb_true_iff in Hfit. destruct Hfit as [Hc Hrest].
  cbn [os.long_component].
  apply Nat.leb_le in Hc. destruct (Nat.ltb_spec os.NAME_MAX (String.length c)); [lia|].
  now apply IH.
Qed.

Lemma fits_not_too_long (fs : FS) (p : Path) :
  fits p = true -> os.name_too_long fs p = false.
Proof.
  unfold fits, os.name_too_long. intros H. apply andb_true_iff in H.
  destruct H as [Hlen Hnames]. apply Nat.ltb_lt in Hlen.
  rewrite (long_component_fits fs p Hnames []).
  destruct (Nat.leb_spec os.PATH_MAX (String.length (pathlib.str p))); [lia | reflexivity].
Qed.

(** The loop ends with the error of [exists()] at the first candidate
    whose name is too long, when the candidates before it exist. *)
Lemma probe_raises (steps : nat) (fs : FS) (dest : Path) :
  forall counter m,
    counter <= m < counter + steps ->
    os.name_too_long fs (candidate dest m) = true ->
    (forall k, counter <= k < m ->
               os.name_too_long fs (candidate dest k) = false
               /\ os.path_exists fs (candidate dest k) = true) ->
    probe steps fs dest counter = Raised (OSError ENAMETOOLONG (candidate dest m)).
Proof.
  induction steps as [|steps IH]; intros counter m Hm Hlong Hbefore; [lia|].
  cbn [probe]. unfold os.Path_exists.
  destruct (Nat.eq_dec counter m) as [->|Hne].
  - now rewrite Hlong.
  - destruct (Hbefore counter ltac:(lia)) as [Hfit Hexists].
    rewrite Hfit, Hexists. apply IH; [lia | exact Hlong|].
    intros k Hk. apply Hbefore. lia.
Qed.

(** C10 as it was stated fails: a destination that is taken and whose
    name has 254 bytes.  Its first candidate does not exist, and its name
    has 257 bytes: [exists()] raises, and the loop returns no candidate,
    however many rounds it is given; [safe_move] ends with that error and
    moves nothing. *)
Lemma safe_move_loop_raises_on_long_name :
  os.path_exists fs_long_name ["out"; long_name] = true
  /\ os.path_exists fs_long_name (candidate ["out"; long_name] 1) = false
  /\ (forall steps,
         probe (S steps) fs_long_name ["out"; long_name] 1
         = Raised (OSError ENAMETOOLONG (candidate ["out"; long_name] 1)))
  /\ ~ (exists n steps,
           probe steps fs_long_name ["out"; long_name] 1
           = Ok (candidate ["out"; long_name] n))
  /\ safe_move 5 ["in"; "a.txt"] ["out"; long_name] false (initial fs_long_name)
     = (Raised (OSError ENAMETOOLONG (candidate ["out"; long_name] 1)),
        initial fs_long_name).
Proof.
  assert (Hraise : forall steps,
             probe (S steps) fs_long_name ["out"; long_name] 1
             = Raised (OSError ENAMETOOLONG (candidate ["out"; long_name] 1))).
  { intros steps. apply probe_raises; [lia | vm_compute; reflexivity | intros k Hk; lia]. }
  split; [vm_compute; reflexivity|]. split; [vm_compute; reflexivity|].
  split; [exact Hraise|]. split.
  - intros [n [[|steps] H]]; [discriminate|]. rewrite Hraise in H. discriminate.
  - vm_compute. reflexivity.
Qed.

(** C10, as the program has it.  For every destination and every file
    system there is a least counter [n >= 1] whose candidate does not
    exist, and [n] is at most the number of entries plus one.  The
    disambiguation loop of [safe_move] terminates within [n] rounds: it
    returns that candidate when no candidate up to [n] has a name that is
    too long, and otherwise it ends with the error that [exists()] raises
    at the first candidate whose name is too long. *)
Theorem safe_move_loop_terminates (fs : FS) (dest : Path) :
  exists n,
    1 <= n <= S (length fs)
    /\ os.path_exists fs (candidate dest n) = false
    /\ (forall m, 1 <= m < n -> os.path_exists fs (candidate dest m) = true)
    /\ (forall steps,
           n <= steps ->
           (forall m, 1 <= m <= n -> os.name_too_long fs (candidate dest m) = false) ->
           probe steps fs dest 1 = Ok (candidate dest n))
    /\ (forall steps m,
           n <= steps -> 1 <= m <= n ->
           os.name_too_long fs (candidate dest m) = true ->
           (forall k, 1 <= k < m -> os.name_too_long fs (candidate dest k) = false) ->
           probe steps fs dest 1 = Raised (OSError ENAMETOOLONG (candidate dest m))).
Proof.
  destruct (least_free_found fs dest) as [n [Hn [Hfree Hbefore]]].
  exists n. split; [exact Hn|]. split; [exact Hfree|]. split; [exact Hbefore|]. split.
  - intros steps Hsteps Hfit. apply probe_least_free; [|exact Hfit].
    apply least_free_least; [lia | exact Hfree | exact Hbefore].
  - intros steps m Hsteps Hm Hlong Hfit. apply probe_raises; [lia | exact Hlong|].
    intros k Hk. split; [apply Hfit; lia | apply Hbefore; lia].
Qed.

Lemma safe_move_loop_terminates_witness :
  exists n,
    1 <= n <= 6
    /\ os.path_exists fs_taken (candidate ["out"; "a.txt"] n) = false
    /\ probe 6 fs_taken ["out"; "a.txt"] 1 = Ok (candidate ["out"; "a.txt"] n).
Proof.
  destruct (safe_move_loop_terminates fs_taken ["out"; "a.txt"])
    as [n [Hn [Hfree [_ [Hreturns _]]]]].
  exists n. split; [exact Hn|]. split; [exact Hfree|].
  apply Hreturns; [exact (proj2 Hn)|].
  intros m Hm. apply fits_not_too_long.
  assert (H : m = 1 \/ m = 2 \/ m = 3 \/ m = 4 \/ m = 5 \/ m = 6) by (simpl in Hn; lia).
  destruct H as [->|[->|[->|[->|[->| ->]]]]]; reflexivity.
Defined.

(** ** Computations that keep a relation *)

Lemma bind_ok {A B : Type} (c : M A) (k : A -> M B) (st st' : State) (a : A) :
  c st = (Ok a, st') -> bind c k st = k a st'.
Proof. unfold bind. now intros ->. Qed.

Lemma bind_raised {A B : Type} (c : M A) (k : A -> M B) (st st' : State) (e : Exn) :
  c st = (Raised e, st') -> bind c k st = (Raised e, st').
Proof. unfold bind. now intros ->. Qed.

Lemma bind_out_of_steps {A B : Type} (c : M A) (k : A -> M B) (st st' : State) :
  c st = (OutOfSteps, st') -> bind c k st = (OutOfSteps, st').
Proof. unfold bind. now intros ->. Qed.

Section Frames.

Variable R : State -> State -> Prop.
Hypothesis R_refl : forall st, R st st.
Hypothesis R_trans : forall a b c, R a b -> R b c -> R a c.

Lemma preserves_ret {A : Type} (a : A) : preserves R (ret a).
Proof. intros st. apply R_refl. Qed.

Lemma preserves_raise {A : Type} (e : Exn) : preserves R (@raise A e).
Proof. intros st. apply R_refl. Qed.

Lemma preserves_out_of_steps {A : Type} : preserves R (@out_of_steps A).
Proof. intros st. apply R_refl. Qed.

Lemma preserves_ask {A : Type} (q : FS -> A) : preserves R (ask q).
Proof. intros st. apply R_refl. Qed.

Lemma preserves_syscall {A : Type} (q : FS -> os.result A) (p : Path) :
  preserves R (syscall q p).
Proof. intros st. unfold syscall. destruct (q (fs st)); apply R_refl. Qed.

Lemma preserves_bind {A B : Type} (c : M A) (k : A -> M B) :
  preserves R c -> (forall a, preserves R (k a)) -> preserves R (bind c k).
Proof.
  intros Hc Hk st. unfold bind. specialize (Hc st).
  destruct (c st) as [[a|e|] st']; simpl in *; try assumption.
  apply (R_trans _ _ _ Hc). apply Hk.
Qed.

Lemma preserves_try_OSError {A : Type} (c : M A) (handler : Exn -> M A) :
  preserves R c -> (forall e, preserves R (handler e)) ->
  preserves R (try_OSError c handler).
Proof.
  intros Hc Hh st. unfold try_OSError. specialize (Hc st).
  destruct (c st) as [[a|[e p|msg|msg|code]|] st']; simpl in *; try assumption.
  apply (R_trans _ _ _ Hc). apply Hh.
Qed.

Lemma preserves_for_list {A B : Type} (l : list A) (body : A -> B -> M B) :
  (forall x acc, In x l -> preserves R (body x acc)) ->
  forall acc, preserves R (for_list l body acc).
Proof.
  induction l as [|x l IH]; intros Hbody acc; simpl.
  - apply preserves_ret.
  - apply preserves_bind; [apply Hbody; now left|].
    intros acc'. apply IH. intros y acc'' Hy. apply Hbody. now right.
Qed.

Context {platform : Platform}.

Lemma preserves_for_each {A : Type} (steps : nat) (body : Path -> A -> M A) :
  (forall p acc, preserves R (body p acc)) ->
  forall files acc, preserves R (for_each steps files body acc).
Proof.
  intros Hbody. induction steps as [|steps IH]; intros files acc st; simpl.
  - apply R_refl.
  - destruct (next_step files (fs st)) as [p w|w|]; simpl.
    + apply (preserves_bind _ _ (Hbody p acc) (fun acc' => IH w acc')).
    + apply IH.
    + apply R_refl.
Qed.

Lemma preserves_Path_resolve (p : Path) : preserves R (Path_resolve p).
Proof.
  intros st. unfold Path_resolve. cbv zeta.
  destruct (os.stat (fs st) (path_resolve (fs st) p)) as [info|[]]; apply R_refl.
Qed.

Lemma preserves_probing (steps : nat) (dest : Path) : preserves R (probing steps dest).
Proof. intros st. apply R_refl. Qed.

End Frames.

(** ** Making directories *)

Lemma only_dirs_added_refl (fs : FS) : only_dirs_added fs fs.
Proof. exists []. simpl. now rewrite app_nil_r. Qed.

Lemma only_dirs_added_trans (a b c : FS) :
  only_dirs_added a b -> only_dirs_added b c -> only_dirs_added a c.
Proof.
  intros [ds ->] [ds' ->]. exists (ds ++ ds'). now rewrite map_app, app_assoc.
Qed.

Lemma dirs_added_refl (st : State) : dirs_added st st.
Proof. apply only_dirs_added_refl. Qed.

Lemma dirs_added_trans (a b c : State) :
  dirs_added a b -> dirs_added b c -> dirs_added a c.
Proof. apply only_dirs_added_trans. Qed.

Lemma node_at_dirs (ds : list Path) (k : Path) :
  node_at (map (fun d => (d, Dir)) ds) k = None
  \/ node_at (map (fun d => (d, Dir)) ds) k = Some Dir.
Proof.
  induction ds as [|d ds IH]; simpl; [now left|].
  destruct (path_eqb d k); [now right | assumption].
Qed.

(** Entries survive the addition of directories. *)
Lemma only_dirs_added_node (fs fs' : FS) (k : Path) (n : Node) :
  only_dirs_added fs fs' -> node_at fs k = Some n -> node_at fs' k = Some n.
Proof. intros [ds ->] H. now rewrite node_at_app, H. Qed.

(** What is found afterwards that is not a directory was there before. *)
Lemma only_dirs_added_node_inv (fs fs' : FS) (k : Path) (n : Node) :
  only_dirs_added fs fs' -> node_at fs' k = Some n ->
  node_at fs k = Some n \/ (node_at fs k = None /\ n = Dir).
Proof.
  intros [ds ->]. rewrite node_at_app.
  destruct (node_at fs k) as [m|]; [now left|].
  intros H. right. split; [reflexivity|].
  destruct (node_at_dirs ds k) as [E|E]; rewrite E in H; congruence.
Qed.

Lemma resolve_entry_vacant (fs : FS) (p k : Path) :
  resolve_entry fs p = Vacant k ->
  p <> [] /\ node_at fs k = None
  /\ exists d, resolve fs (pathlib.parent p) = Found d Dir /\ k = d ++ [pathlib.name p].
Proof.
  unfold resolve_entry. destruct p as [|c p']; [discriminate|].
  destruct (resolve fs (pathlib.parent (c :: p'))) as [d [f| |t|]| |] eqn:E;
    try discriminate.
  destruct (node_at fs (d ++ [pathlib.name (c :: p')])) eqn:En; [discriminate|].
  intros [= <-]. split; [discriminate|]. split; [assumption|]. now exists d.
Qed.

Lemma mkdir_success (fs fs' : FS) (p : Path) :
  os.mkdir fs p = os.Success fs' ->
  exists k, resolve_entry fs p = Vacant k /\ fs' = fs ++ [(k, Dir)].
Proof.
  unfold os.mkdir. destruct (resolve_entry fs p) as [k n|k|e]; try discriminate.
  intros [= <-]. now exists k.
Qed.

Lemma mkdir_only_dirs (fs fs' : FS) (p : Path) :
  os.mkdir fs p = os.Success fs' -> only_dirs_added fs fs'.
Proof.
  intros H. destruct (mkdir_success _ _ _ H) as [k [_ ->]]. now exists [k].
Qed.

Lemma preserves_mkdir_exist_ok (p : Path) : preserves dirs_added (mkdir_exist_ok p).
Proof.
  intros st. unfold mkdir_exist_ok.
  destruct (os.mkdir (fs st) p) as [fs'|e] eqn:E.
  - apply (mkdir_only_dirs _ _ _ E).
  - destruct e; try apply dirs_added_refl;
      destruct (os.is_dir (fs st) p); apply dirs_added_refl.
Qed.

Lemma preserves_mkdir_parents (depth : nat) :
  forall p, preserves dirs_added (mkdir_parents depth p).
Proof.
  induction depth as [|depth IH]; intros p st; simpl;
    destruct (os.mkdir (fs st) p) as [fs'|e] eqn:E;
    try apply (mkdir_only_dirs _ _ _ E);
    destruct e; try (destruct p); try apply dirs_added_refl;
    try (destruct (os.is_dir (fs st) _); apply dirs_added_refl).
  apply (preserves_bind dirs_added dirs_added_trans); [apply IH|].
  intros _. apply preserves_mkdir_exist_ok.
Qed.

Lemma preserves_ensure_directory (directory : Path) :
  preserves dirs_added (ensure_directory directory).
Proof. apply preserves_mkdir_parents. Qed.

(** Well-formedness survives [mkdir]. *)
Lemma well_formedb_sound (fs : FS) : well_formedb fs = true -> well_formed fs.
Proof.
  unfold well_formedb, well_formed, in_directory. rewrite forallb_forall.
  intros H k Hk. specialize (H k Hk). destruct k as [|c k]; [discriminate|].
  split; [discriminate|].
  destruct (pathlib.parent (c :: k)) as [|c' d]; [now left|]. right.
  destruct (node_at fs (c' :: d)) as [[f| |t|]|]; congruence.
Qed.

Lemma keys_app (fs fs' : FS) : keys (fs ++ fs') = keys fs ++ keys fs'.
Proof. apply map_app. Qed.

Lemma well_formed_mkdir (fs fs' : FS) (p : Path) :
  well_formed fs -> os.mkdir fs p = os.Success fs' -> well_formed fs'.
Proof.
  intros Hwf H. destruct (mkdir_success _ _ _ H) as [k [Hk ->]].
  destruct (resolve_entry_vacant _ _ _ Hk) as [Hp [Hnone [d [Hd ->]]]].
  intros k' Hin. rewrite keys_app in Hin. apply in_app_or in Hin.
  destruct Hin as [Hin|[<-|[]]].
  - destruct (Hwf k' Hin) as [Hne [Hroot|Hdir]]; split; auto.
    right. now rewrite node_at_app, Hdir.
  - simpl. split; [now destruct d|].
    unfold pathlib.parent. rewrite removelast_last.
    destruct (namei_found_dir _ _ _ _ _ Hd) as [->|[->|Hd']]; auto.
    right. now rewrite node_at_app, Hd'.
Qed.

Lemma well_formed_mkdir_exist_ok (p : Path) (st : State) :
  well_formed (fs st) -> well_formed (fs (snd (mkdir_exist_ok p st))).
Proof.
  intros Hwf. unfold mkdir_exist_ok.
  destruct (os.mkdir (fs st) p) as [fs'|e] eqn:E.
  - apply (well_formed_mkdir _ _ _ Hwf E).
  - destruct e; try assumption; destruct (os.is_dir (fs st) p); assumption.
Qed.

Lemma well_formed_mkdir_parents (depth : nat) :
  forall p st, well_formed (fs st) -> well_formed (fs (snd (mkdir_parents depth p st))).
Proof.
  induction depth as [|depth IH]; intros p st Hwf; simpl;
    destruct (os.mkdir (fs st) p) as [fs'|e] eqn:E;
    try apply (well_formed_mkdir _ _ _ Hwf E);
    destruct e; try (destruct p as [|c p']); try assumption;
    try (destruct (os.is_dir (fs st) _); assumption).
  unfold bind. specialize (IH (pathlib.parent (c :: p')) st Hwf).
  destruct (mkdir_parents depth (pathlib.parent (c :: p')) st) as [[[]|e|] st'];
    simpl in *; try assumption.
  now apply well_formed_mkdir_exist_ok.
Qed.

Lemma well_formed_ensure_directory (directory : Path) (st : State) :
  well_formed (fs st) -> well_formed (fs (snd (ensure_directory directory st))).
Proof. apply well_formed_mkdir_parents. Qed.

(** ** Renaming *)

Lemma relative_to_app (p other tail : Path) :
  pathlib.relative_to p other = Some tail <-> p = other ++ tail.
Proof.
  revert p. induction other as [|o other IH]; intros [|c p]; simpl.
  - split; [now intros [= ->] | now intros ->].
  - split; [now intros [= ->] | now intros ->].
  - split; discriminate.
  - destruct (String.eqb_spec o c) as [->|Hne].
    + rewrite IH. split; [now intros -> | now intros [= ->]].
    + split; [discriminate | intros [= -> _]; contradiction].
Qed.

Lemma In_remove_key (k : Path) (fs : FS) (e : Path * Node) :
  In e (os.remove_key k fs) -> In e fs.
Proof. unfold os.remove_key. intros H. now apply filter_In in H. Qed.

Lemma node_at_remove_key (k p : Path) (fs : FS) :
  k <> p -> node_at (os.remove_key k fs) p = node_at fs p.
Proof.
  intros Hne. induction fs as [|[k' n'] fs IH]; simpl; [reflexivity|].
  destruct (path_eqb_spec k' k) as [->|Hk]; simpl.
  - destruct (path_eqb_spec k p); [contradiction | assumption].
  - now rewrite IH.
Qed.

Lemma node_at_rekey (ks kd p : Path) (fs : FS) :
  pathlib.relative_to p ks = None ->
  (forall e tail, In e fs -> pathlib.relative_to (fst e) ks = Some tail ->
                  kd ++ tail <> p) ->
  node_at (map (os.rekey ks kd) fs) p = node_at fs p.
Proof.
  intros Hp. induction fs as [|[k' n'] fs IH]; intros Hfree; simpl; [reflexivity|].
  unfold os.rekey at 1. simpl.
  destruct (pathlib.relative_to k' ks) as [tail|] eqn:E; simpl.
  - destruct (path_eqb_spec (kd ++ tail) p) as [Heq|_].
    + exfalso. apply (Hfree (k', n') tail); [now left | assumption | assumption].
    + destruct (path_eqb_spec k' p) as [->|_]; [congruence|].
      apply IH. intros e t He. apply Hfree. now right.
  - destruct (path_eqb k' p); [reflexivity|].
    apply IH. intros e t He. apply Hfree. now right.
Qed.

(** In a well-formed file system whatever lies above an entry is a
    directory. *)
Lemma well_formed_ancestor (fs : FS) :
  well_formed fs ->
  forall tail k, k <> [] -> tail <> [] -> In (k ++ tail) (keys fs) ->
                 node_at fs k = Some Dir.
Proof.
  intros Hwf tail. induction tail as [|c tail IH] using rev_ind; intros k Hk Ht Hin;
    [contradiction|].
  destruct (Hwf _ Hin) as [_ Hparent].
  unfold pathlib.parent in Hparent. rewrite app_assoc, removelast_last in Hparent.
  destruct Hparent as [Hroot|Hdir].
  - apply app_eq_nil in Hroot. now destruct Hroot.
  - destruct tail as [|c' tail'].
    + now rewrite app_nil_r in Hdir.
    + apply IH; [assumption | discriminate|].
      apply node_at_keys. congruence.
Qed.

Lemma is_dir_exists (fs : FS) (p : Path) :
  os.is_dir fs p = true -> os.path_exists fs p = true.
Proof.
  unfold os.is_dir, os.path_exists. now destruct (resolve fs p) as [k [f| |t|]| |].
Qed.

Lemma resolve_entry_key (fs : FS) (p k : Path) (n : Node) :
  resolve_entry fs p = Found k n -> p <> [] -> k <> [] /\ node_at fs k = Some n.
Proof.
  unfold resolve_entry. destruct p as [|c p']; [contradiction|].
  destruct (resolve fs (pathlib.parent (c :: p'))) as [d [f| |t|]| |]; try discriminate.
  destruct (node_at fs (d ++ [pathlib.name (c :: p')])) eqn:E; [|discriminate].
  intros [= <- <-] _. split; [now destruct d | assumption].
Qed.

(** Renaming onto a name that does not exist leaves every regular file
    that is not part of what is renamed where it is. *)
Lemma rename_keeps_files (fs fs' : FS) (src dst : Path) :
  well_formed fs ->
  os.path_exists fs dst = false ->
  os.rename fs src dst = os.Success fs' ->
  forall p f,
    node_at fs p = Some (File f) ->
    (forall ks n, resolve_entry fs src = Found ks n -> pathlib.relative_to p ks = None) ->
    node_at fs' p = Some (File f).
Proof.
  intros Hwf Hfree Hren p f Hp Hsrc. unfold os.rename in Hren.
  destruct (resolve_entry fs src) as [ks n|ks|e] eqn:Es; try discriminate.
  specialize (Hsrc ks n eq_refl).
  assert (Hland : forall kd, kd <> [] -> node_at fs kd <> Some Dir ->
            node_at fs kd <> Some (File f) \/ kd <> p ->
            forall e tail, In e fs -> pathlib.relative_to (fst e) ks = Some tail ->
                           kd ++ tail <> p).
  { intros kd Hkd Hnd Hnf e tail He Hrel Heq.
    destruct tail as [|c tail].
    - rewrite app_nil_r in Heq. subst kd. destruct Hnf as [Hnf|Hnf]; congruence.
    - apply Hnd. apply (well_formed_ancestor fs Hwf (c :: tail)); try assumption;
        [discriminate|].
      rewrite Heq. apply node_at_keys. congruence. }
  destruct (resolve_entry fs dst) as [kd m|kd|e] eqn:Ed; try discriminate.
  - destruct (resolve_entry_not_exists _ _ _ _ Ed Hfree) as [t ->].
    assert (Hdst : dst <> []) by (intros ->; discriminate).
    destruct (resolve_entry_key _ _ _ _ Ed Hdst) as [Hkd Hm].
    destruct (path_eqb ks kd); [now injection Hren as <-|].
    destruct (os.is_below kd ks); [discriminate|].
    assert (Hne : kd <> p) by (intros ->; congruence).
    destruct n; try discriminate; injection Hren as <-;
      (rewrite node_at_rekey; [now rewrite node_at_remove_key | assumption |]);
      intros e tail He; apply (Hland kd Hkd); try (right; assumption);
        try congruence; now apply In_remove_key in He.
  - destruct (resolve_entry_vacant _ _ _ Ed) as [Hdst [Hnone [d [Hd ->]]]].
    destruct (os.is_below _ ks); [discriminate|].
    injection Hren as <-. rewrite node_at_rekey; try assumption.
    apply Hland; [now destruct d | congruence | left; congruence].
Qed.

Lemma shutil_move_keeps_files (src dst : Path) (st st' : State) :
  well_formed (fs st) ->
  os.path_exists (fs st) dst = false ->
  shutil.move src dst st = (Ok tt, st') ->
  forall p f,
    node_at (fs st) p = Some (File f) ->
    (forall ks n, resolve_entry (fs st) src = Found ks n ->
                  pathlib.relative_to p ks = None) ->
    node_at (fs st') p = Some (File f).
Proof.
  intros Hwf Hfree Hmove p f Hp Hsrc.
  unfold shutil.move, bind, ask in Hmove.
  destruct (os.is_dir (fs st) dst) eqn:Edir.
  - apply is_dir_exists in Edir. congruence.
  - unfold syscall_upd in Hmove.
    destruct (os.rename (fs st) src dst) as [fs'|e] eqn:Er; [|discriminate].
    injection Hmove as <-. simpl.
    apply (rename_keeps_files _ _ _ _ Hwf Hfree Er); assumption.
Qed.

(** ** [safe_move] *)

Lemma take_drop_str (i : nat) (s : string) : (take_str i s ++ drop_str i s)%string = s.
Proof.
  revert s. induction i as [|i IH]; intros [|a s]; simpl; try reflexivity.
  now rewrite IH.
Qed.

(** The name of a path is its stem followed by its suffix. *)
Lemma stem_suffix (p : Path) :
  (pathlib.stem p ++ pathlib.suffix p)%string = pathlib.name p.
Proof.
  unfold pathlib.stem, pathlib.suffix.
  destruct (pathlib.split_index (pathlib.name p)); [apply take_drop_str | apply append_nil_r].
Qed.


(** ** Which parts of the program leave the file system alone *)

Lemma same_fs_refl (st : State) : same_fs st st.
Proof. reflexivity. Qed.

Lemma same_fs_trans (a b c : State) : same_fs a b -> same_fs b c -> same_fs a c.
Proof. unfold same_fs. congruence. Qed.

Lemma dirs_added_of_same_fs (st st' : State) : fs st' = fs st -> dirs_added st st'.
Proof. unfold dirs_added. intros ->. apply only_dirs_added_refl. Qed.

Lemma bind_ok_inv {A B : Type} (c : M A) (k : A -> M B) (st st' : State) (b : B) :
  bind c k st = (Ok b, st') ->
  exists a st1, c st = (Ok a, st1) /\ k a st1 = (Ok b, st').
Proof.
  unfold bind. destruct (c st) as [[a|e|] st1]; try discriminate.
  intros H. now exists a, st1.
Qed.

(** Side conditions of the frame lemmas. *)
Ltac frame_side :=
  first [ assumption
        | exact same_fs_refl | exact same_fs_trans
        | exact dirs_added_refl | exact dirs_added_trans
        | exact dirs_added_of_same_fs
        | (intros ? ? ?; assumption) ].

(** One step of a frame proof, by the shape of the computation. *)
Ltac frame_step :=
  lazymatch goal with
  | |- preserves _ (ret _) => apply preserves_ret; frame_side
  | |- preserves _ (raise _) => apply preserves_raise; frame_side
  | |- preserves _ out_of_steps => apply preserves_out_of_steps; frame_side
  | |- preserves _ (ask _) => apply preserves_ask; frame_side
  | |- preserves _ (Path_resolve _) => apply preserves_Path_resolve; frame_side
  | |- preserves _ (probing _ _) => apply preserves_probing; frame_side
  | |- preserves _ (syscall _ _) => apply preserves_syscall; frame_side
  | |- preserves _ (bind _ _) =>
      apply preserves_bind; [ frame_side | | intros ? ]
  | |- preserves _ (try_OSError _ _) =>
      apply preserves_try_OSError; [ frame_side | | intros ? ]
  | |- preserves _ (for_list _ _ _) =>
      apply preserves_for_list; [ frame_side | frame_side | intros ? ? ? ]
  | |- preserves _ (for_each _ _ _ _) =>
      apply preserves_for_each; [ frame_side | frame_side | intros ? ? ]
  | |- preserves _ (if ?b then _ else _) => destruct b
  | |- preserves _ (match ?x with _ => _ end) => destruct x
  | |- preserves _ (let _ := _ in _) => cbv zeta
  end.

Section FsFrames.

Context {platform : Platform}.

Variable R : State -> State -> Prop.
Hypothesis R_refl : forall st, R st st.
Hypothesis R_trans : forall a b c, R a b -> R b c -> R a c.
Hypothesis R_fs : forall st st', fs st' = fs st -> R st st'.

Lemma preserves_print (line : string) : preserves R (print line).
Proof. intros st. now apply R_fs. Qed.

Lemma preserves_print_action (message : string) (dry_run : bool) :
  preserves R (print_action message dry_run).
Proof. apply preserves_print. Qed.

Lemma preserves_os_urandom (n : nat) : preserves R (os_urandom n).
Proof. intros st. now apply R_fs. Qed.

Lemma preserves_compute_file_hash (file_path : Path) (hash_name : string)
  (chunk_size : N) : preserves R (compute_file_hash file_path hash_name chunk_size).
Proof.
  unfold compute_file_hash. repeat frame_step.
  intros st. now apply R_fs.
Qed.

Lemma preserves_group_files_by_size (steps : nat) (files : Walk) :
  preserves R (group_files_by_size steps files).
Proof. unfold group_files_by_size. repeat frame_step. Qed.

Lemma preserves_find_duplicates (steps : nat) (root_dir : Path) (include_hidden : bool)
  (exclude_globs : list string) :
  preserves R (find_duplicates steps root_dir include_hidden exclude_globs).
Proof.
  unfold find_duplicates, hash_bucket, hash_member. repeat frame_step.
  - apply preserves_group_files_by_size.
  - apply preserves_compute_file_hash.
Qed.

End FsFrames.

(** ** Dedupe in report mode *)

Section Report.

Context {platform : Platform}.

Lemma printing_nil (st : State) : printing [] st = st.
Proof. destruct st. unfold printing. simpl. now rewrite app_nil_r. Qed.

Lemma printing_app (l1 l2 : list string) (st : State) :
  printing l2 (printing l1 st) = printing (l1 ++ l2) st.
Proof. unfold printing. simpl. now rewrite app_assoc. Qed.

Lemma print_printing (line : string) (st : State) :
  print line st = (Ok tt, printing [line] st).
Proof. reflexivity. Qed.

(** Every group that [find_duplicates] returns has two members or more. *)
Lemma find_duplicates_groups (steps : nat) (root_dir : Path) (include_hidden : bool)
  (exclude_globs : list string) (st st' : State) (duplicates : Dict string (list Path)) :
  find_duplicates steps root_dir include_hidden exclude_globs st = (Ok duplicates, st') ->
  Forall (fun h_ps => 2 <= length (snd h_ps)) duplicates.
Proof.
  unfold find_duplicates. intros H.
  apply bind_ok_inv in H. destruct H as [sizes [st1 [_ H]]].
  apply bind_ok_inv in H. destruct H as [hashes [st2 [_ H]]].
  injection H as <- _. apply Forall_forall. intros g Hg.
  apply filter_In in Hg. destruct Hg as [_ Hg]. apply Nat.ltb_lt in Hg. lia.
Qed.

Lemma report_members (steps : nat) (duplicates_dir : Path) (dry_run : bool)
  (others : list Path) (operated : nat) (st : State) :
  for_list others (dedupe_one steps "report" duplicates_dir dry_run) operated st
  = (Ok operated,
     printing (map (fun dup => "[DRY-RUN] duplicate: " ++ pathlib.str dup)%string others) st).
Proof.
  revert st. induction others as [|dup others IH]; intros st; simpl.
  - now rewrite printing_nil.
  - unfold bind at 1. unfold dedupe_one at 1. cbn [String.eqb Ascii.eqb Bool.eqb].
    unfold bind at 1. unfold print_action.
    rewrite print_printing. unfold ret at 1.
    rewrite IH, printing_app. reflexivity.
Qed.

Lemma report_group (steps : nat) (duplicates_dir : Path) (dry_run : bool)
  (digest_paths : string * list Path) (operated : nat) (st : State) :
  2 <= length (snd digest_paths) ->
  dedupe_group steps "report" duplicates_dir dry_run digest_paths operated st
  = (Ok operated, printing (group_report digest_paths) st).
Proof.
  intros Hlen. unfold dedupe_group, group_report.
  destruct (snd digest_paths) as [|p paths] eqn:E; [simpl in Hlen; lia|].
  cbn [python_min]. unfold bind. rewrite print_printing.
  rewrite report_members, printing_app. reflexivity.
Qed.

Lemma report_groups (steps : nat) (duplicates_dir : Path) (dry_run : bool)
  (duplicates : Dict string (list Path)) :
  Forall (fun h_ps => 2 <= length (snd h_ps)) duplicates ->
  forall operated st,
    for_list duplicates (dedupe_group steps "report" duplicates_dir dry_run) operated st
    = (Ok operated, printing (flat_map group_report duplicates) st).
Proof.
  induction 1 as [|g duplicates Hg _ IH]; intros operated st; simpl.
  - now rewrite printing_nil.
  - unfold bind. rewrite (report_group _ _ _ _ _ _ Hg), IH, printing_app. reflexivity.
Qed.

(** C8.  Dedupe in report mode never changes the file system, whatever
    the apply flag, the budget and the outcome; and when the duplicate
    groups are found, all it does is print the report: for each group the
    member kept and one "duplicate" line for every other member. *)
Theorem dedupe_report_never_mutates (steps : nat) (root_dir duplicates_dir : Path)
  (include_hidden : bool) (exclude_globs : list string) (dry_run : bool) (st : State) :
  fs (snd (dedupe_action steps root_dir "report" duplicates_dir include_hidden
             exclude_globs dry_run st)) = fs st
  /\ forall duplicates st1,
       find_duplicates steps root_dir include_hidden exclude_globs st
       = (Ok duplicates, st1) ->
       dedupe_action steps root_dir "report" duplicates_dir include_hidden
         exclude_globs dry_run st
       = (Ok (length duplicates, 0), printing (dedupe_report duplicates) st1).
Proof.
  assert (Hlog : forall duplicates st1,
       find_duplicates steps root_dir include_hidden exclude_globs st
       = (Ok duplicates, st1) ->
       dedupe_action steps root_dir "report" duplicates_dir include_hidden
         exclude_globs dry_run st
       = (Ok (length duplicates, 0), printing (dedupe_report duplicates) st1)).
  { intros duplicates st1 Hfind. unfold dedupe_action.
    rewrite (bind_ok _ _ _ _ _ Hfind).
    pose proof (find_duplicates_groups _ _ _ _ _ _ _ Hfind) as Hgroups.
    destruct duplicates as [|g duplicates]; [reflexivity|].
    unfold bind. rewrite print_printing, (report_groups _ _ _ _ Hgroups), printing_app.
    reflexivity. }
  split; [|exact Hlog].
  pose proof (preserves_find_duplicates same_fs same_fs_refl same_fs_trans
                (fun st st' H => H) steps root_dir include_hidden exclude_globs st)
    as Hfs.
  destruct (find_duplicates steps root_dir include_hidden exclude_globs st)
    as [[duplicates|e|] st1] eqn:Hfind.
  - rewrite (Hlog duplicates st1 eq_refl). exact Hfs.
  - unfold dedupe_action. rewrite (bind_raised _ _ _ _ _ Hfind). exact Hfs.
  - unfold dedupe_action. rewrite (bind_out_of_steps _ _ _ _ Hfind). exact Hfs.
Qed.

End Report.

(** ** Size buckets and what gets hashed *)

Section Buckets.

Context {platform : Platform}.

(** An invariant of the variables of a [for] loop over the generator
    holds at its end when every round keeps it. *)
Lemma for_each_invariant {A : Type} (I : A -> State -> Prop)
  (body : Path -> A -> M A) :
  (forall p acc st acc' st', I acc st -> body p acc st = (Ok acc', st') -> I acc' st') ->
  forall steps files acc st acc' st',
    I acc st -> for_each steps files body acc st = (Ok acc', st') -> I acc' st'.
Proof.
  intros Hbody. induction steps as [|steps IH]; intros files acc st acc' st' HI;
    simpl; [discriminate|].
  destruct (next_step files (fs st)) as [p w|w|].
  - intros H. apply bind_ok_inv in H. destruct H as [acc1 [st1 [H1 H2]]].
    apply (IH w acc1 st1); [|assumption]. apply (Hbody p acc st); assumption.
  - apply IH. assumption.
  - now intros [= <- <-].
Qed.

Lemma setdefault_append_keys {V : Type} (k : nat) (v : V) (d : Dict nat (list V)) :
  map fst (setdefault_append Nat.eqb k v d)
  = if existsb (Nat.eqb k) (map fst d) then map fst d else map fst d ++ [k].
Proof.
  induction d as [|[k' vs] d IH]; simpl; [reflexivity|].
  rewrite (Nat.eqb_sym k k'). destruct (Nat.eqb k' k); simpl; [reflexivity|].
  rewrite IH. now destruct (existsb (Nat.eqb k) (map fst d)).
Qed.

Lemma setdefault_append_In {V : Type} (k : nat) (v : V) (d : Dict nat (list V))
  (k' : nat) (vs' : list V) :
  In (k', vs') (setdefault_append Nat.eqb k v d) ->
  In (k', vs') d \/ (k' = k /\ exists vs, vs' = vs ++ [v] /\ (vs = [] \/ In (k, vs) d)).
Proof.
  induction d as [|[k0 vs0] d IH]; simpl.
  - intros [[= <- <-]|[]]. right. split; [reflexivity|]. exists []. auto.
  - destruct (Nat.eqb_spec k0 k) as [->|Hne]; simpl.
    + intros [[= <- <-]|H]; [|now left; right].
      right. split; [reflexivity|]. exists vs0. auto.
    + intros [[= <- <-]|H]; [now left; left|].
      destruct (IH H) as [H'|[-> [vs [-> [->|Hin]]]]]; [now left; right| |].
      * right. split; [reflexivity|]. exists []. auto.
      * right. split; [reflexivity|]. exists vs. auto.
Qed.

Lemma setdefault_append_buckets (fs : FS) (sizes : Dict nat (list Path))
  (size : nat) (p : Path) :
  buckets_of fs sizes -> size_of fs p = Some size ->
  buckets_of fs (setdefault_append Nat.eqb size p sizes).
Proof.
  intros [Hnd Hsz] Hp. split.
  - rewrite setdefault_append_keys.
    destruct (existsb (Nat.eqb size) (map fst sizes)) eqn:E; [assumption|].
    apply NoDup_app; [assumption | repeat constructor; intros [] |].
    intros x Hx [<-|[]].
    assert (existsb (Nat.eqb size) (map fst sizes) = true); [|congruence].
    apply existsb_exists. exists size. split; [assumption | apply Nat.eqb_refl].
  - intros size' paths' q Hin Hq.
    destruct (setdefault_append_In _ _ _ _ _ Hin) as [H|[-> [vs [-> Hvs]]]].
    + apply (Hsz size' paths'); assumption.
    + apply in_app_or in Hq. destruct Hq as [Hq|[<-|[]]]; [|assumption].
      destruct Hvs as [->|Hvs]; [contradiction|].
      apply (Hsz size vs); assumption.
Qed.

(** The first stage only reads: it leaves the state as it is and returns
    buckets of the file system it ran on. *)
Lemma group_files_by_size_reads (steps : nat) (files : Walk) (st : State) :
  snd (group_files_by_size steps files st) = st.
Proof.
  apply (preserves_group_files_by_size (fun st st' => st' = st)).
  - reflexivity.
  - intros a b c. congruence.
Qed.

Lemma group_files_by_size_buckets (steps : nat) (files : Walk) (st st' : State)
  (sizes : Dict nat (list Path)) :
  group_files_by_size steps files st = (Ok sizes, st') ->
  buckets_of (fs st) sizes.
Proof.
  unfold group_files_by_size. intros H.
  refine (proj2 (for_each_invariant (fun acc s => s = st /\ buckets_of (fs st) acc)
                   _ _ _ _ _ _ _ _ _ H)).
  - intros p acc s acc' s' [-> Hacc]. unfold try_OSError, bind, syscall, size_of in *.
    intros Hbody. split.
    + destruct (os.stat (fs st) p); now injection Hbody as _ <-.
    + destruct (os.stat (fs st) p) as [[size mt]|e] eqn:E; injection Hbody as <- _;
        [|assumption].
      apply setdefault_append_buckets; [assumption|].
      unfold size_of. now rewrite E.
  - split; [reflexivity|]. split; [constructor | intros size paths p []].
Qed.

(** The second stage hashes exactly the members of the buckets with two
    members or more, in order, and changes nothing else. *)
Lemma compute_file_hash_hashed (path : Path) (hash_name : string) (chunk_size : N)
  (st : State) :
  let r := compute_file_hash path hash_name chunk_size st in
  snd r = mkState (fs st) (out st) (clock st) (rand_pos st) (hashed st ++ [path])
  /\ match fst r with
     | Ok _ => True
     | Raised (OSError _ _) => True
     | _ => False
     end.
Proof.
  unfold compute_file_hash, bind, syscall. simpl.
  destruct (os.read_bytes (fs st) path); simpl; split; auto.
Qed.

Lemma hashing_nil (st : State) : hashing [] st = st.
Proof. destruct st. unfold hashing. simpl. now rewrite app_nil_r. Qed.

Lemma hashing_app (l1 l2 : list Path) (st : State) :
  hashing l2 (hashing l1 st) = hashing (l1 ++ l2) st.
Proof. unfold hashing. simpl. now rewrite app_assoc. Qed.

Lemma hash_member_hashed (path : Path) (hash_to_files : Dict string (list Path))
  (st : State) :
  exists hash_to_files',
    hash_member path hash_to_files st = (Ok hash_to_files', hashing [path] st).
Proof.
  unfold hash_member, try_OSError, bind.
  destruct (compute_file_hash_hashed path "sha256" (1024 * 1024)%N st) as [Hst Hout].
  destruct (compute_file_hash path "sha256" (1024 * 1024)%N st)
    as [[digest|[e p|msg|msg|code]|] st1]; simpl in *; subst st1; try contradiction.
  - now eexists.
  - now eexists.
Qed.

Lemma hash_members_hashed (paths : list Path) :
  forall hash_to_files st,
  exists hash_to_files',
    for_list paths hash_member hash_to_files st = (Ok hash_to_files', hashing paths st).
Proof.
  induction paths as [|path paths IH]; intros hash_to_files st; simpl.
  - exists hash_to_files. now rewrite hashing_nil.
  - destruct (hash_member_hashed path hash_to_files st) as [h1 H1].
    rewrite (bind_ok _ _ _ _ _ H1).
    destruct (IH h1 (hashing [path] st)) as [h2 H2].
    exists h2. now rewrite H2, hashing_app.
Qed.

Lemma hash_buckets_hashed (sizes : Dict nat (list Path)) :
  forall hash_to_files st,
  exists hash_to_files',
    for_list sizes hash_bucket hash_to_files st
    = (Ok hash_to_files', hashing (to_hash sizes) st).
Proof.
  induction sizes as [|[size paths] sizes IH]; intros hash_to_files st; simpl.
  - exists hash_to_files. now rewrite hashing_nil.
  - unfold hash_bucket at 1. simpl.
    destruct (length paths <? 2).
    + unfold bind, ret. apply IH.
    + destruct (hash_members_hashed paths hash_to_files st) as [h1 H1].
      rewrite (bind_ok _ _ _ _ _ H1).
      destruct (IH h1 (hashing paths st)) as [h2 H2].
      exists h2. now rewrite H2, hashing_app.
Qed.

Lemma in_to_hash (sizes : Dict nat (list Path)) (p : Path) :
  In p (to_hash sizes) ->
  exists size paths, In (size, paths) sizes /\ In p paths /\ 2 <= length paths.
Proof.
  unfold to_hash. intros H. apply in_flat_map in H.
  destruct H as [[size paths] [Hin Hp]]. simpl in Hp.
  destruct (Nat.ltb_spec (length paths) 2); [contradiction|].
  now exists size, paths.
Qed.

Lemma NoDup_keys_value {K V : Type} (d : list (K * V)) (k : K) (v v' : V) :
  NoDup (map fst d) -> In (k, v) d -> In (k, v') d -> v = v'.
Proof.
  induction d as [|[k0 v0] d IH]; simpl; [contradiction|].
  intros Hnd H1 H2. inversion Hnd as [|? ? Hnotin Hnd']; subst.
  destruct H1 as [H1|H1], H2 as [H2|H2].
  - congruence.
  - injection H1 as -> ->. exfalso. apply Hnotin. apply in_map_iff. now exists (k, v').
  - injection H2 as -> ->. exfalso. apply Hnotin. apply in_map_iff. now exists (k, v).
  - now apply IH.
Qed.

(** C7.  When the first stage of [find_duplicates] has bucketed the files
    by size, the second stage hashes exactly the members of the buckets
    with two members or more: a file whose bucket has one member, so whose
    size is unique among the scanned files, is never hashed; and each group
    returned has two members or more.  When the first stage does not
    complete, nothing is hashed at all. *)
Theorem unique_sizes_never_hashed (steps : nat) (root_dir : Path)
  (include_hidden : bool) (exclude_globs : list string) (st : State) :
  (forall sizes st1,
      group_files_by_size steps (iter_files root_dir include_hidden exclude_globs) st
      = (Ok sizes, st1) ->
      buckets_of (fs st) sizes
      /\ (exists duplicates,
             find_duplicates steps root_dir include_hidden exclude_globs st
             = (Ok duplicates, hashing (to_hash sizes) st)
             /\ Forall (fun h_ps => 2 <= length (snd h_ps)) duplicates)
      /\ (forall size paths p,
             In (size, paths) sizes -> length paths = 1 -> In p paths ->
             ~ In p (to_hash sizes)))
  /\ ((forall sizes,
          fst (group_files_by_size steps
                 (iter_files root_dir include_hidden exclude_globs) st) <> Ok sizes) ->
      hashed (snd (find_duplicates steps root_dir include_hidden exclude_globs st))
      = hashed st).
Proof.
  split.
  - intros sizes st1 Hsizes.
    pose proof (group_files_by_size_buckets _ _ _ _ _ Hsizes) as Hb.
    pose proof (group_files_by_size_reads steps
                  (iter_files root_dir include_hidden exclude_globs) st) as Hst.
    rewrite Hsizes in Hst. simpl in Hst. subst st1.
    split; [assumption|]. split.
    + destruct (hash_buckets_hashed sizes [] st) as [hashes Hh].
      eexists. split.
      * unfold find_duplicates. rewrite (bind_ok _ _ _ _ _ Hsizes).
        rewrite (bind_ok _ _ _ _ _ Hh). reflexivity.
      * apply Forall_forall. intros g Hg. apply filter_In in Hg.
        destruct Hg as [_ Hg]. apply Nat.ltb_lt in Hg. lia.
    + intros size paths p Hin Hlen Hp Hhashed.
      destruct (in_to_hash _ _ Hhashed) as [size' [paths' [Hin' [Hp' Hlen']]]].
      destruct Hb as [Hnd Hsz].
      pose proof (Hsz _ _ _ Hin Hp) as E. pose proof (Hsz _ _ _ Hin' Hp') as E'.
      assert (size' = size) as -> by congruence.
      rewrite (NoDup_keys_value _ _ _ _ Hnd Hin Hin') in Hlen. lia.
  - intros Hfail. unfold find_duplicates, bind.
    pose proof (group_files_by_size_reads steps
                  (iter_files root_dir include_hidden exclude_globs) st) as Hst.
    destruct (group_files_by_size steps
                (iter_files root_dir include_hidden exclude_globs) st)
      as [[sizes|e|] st1]; simpl in *; subst st1; try reflexivity.
    now destruct (Hfail sizes).
Qed.

End Buckets.

(** ** Which member of a duplicate group is kept *)

Lemma min_from_first_minimal {A : Type} (key : A -> nat) (l : list A) :
  forall best, first_minimal key (best :: l) (min_from key best l).
Proof.
  induction l as [|x l IH]; intros best; simpl.
  - exists [], []. repeat split; [|intros x []]. intros x [<-|[]]. lia.
  - destruct (Nat.ltb_spec (key x) (key best)) as [Hlt|Hge].
    + destruct (IH x) as [before [after [Heq [Hmin Hbefore]]]].
      assert (Hx : key (min_from key x l) <= key x) by (apply Hmin; now left).
      exists (best :: before), after. repeat split.
      * now rewrite Heq.
      * intros y [<-|Hy]; [lia | now apply Hmin].
      * intros y [<-|Hy]; [lia | now apply Hbefore].
    + destruct (IH best) as [before [after [Heq [Hmin Hbefore]]]].
      remember (min_from key best l) as m eqn:Em. clear Em.
      assert (Hb : key m <= key best) by (apply Hmin; now left).
      destruct before as [|b before]; simpl in Heq; injection Heq as Hb0 Hl.
      * subst m. exists [], (x :: l). repeat split; [|intros y []].
        intros y [<-|[<-|Hy]]; try lia. apply Hmin. now right.
      * subst b. exists (best :: x :: before), after. repeat split.
        -- simpl. now rewrite Hl.
        -- intros y [<-|[<-|Hy]]; try lia. apply Hmin. now right.
        -- assert (Hlt : key m < key best) by (apply Hbefore; now left).
           intros y [<-|[<-|Hy]]; try lia. apply Hbefore. now right.
Qed.


(** ** Dry runs *)

(** Side conditions and steps of frame proofs about dry runs. *)
Ltac dry_side :=
  first [ assumption
        | exact dirs_added_refl | exact dirs_added_trans | exact dirs_added_of_same_fs ].

Ltac dry_step :=
  lazymatch goal with
  | |- preserves _ (ret _) => apply preserves_ret; dry_side
  | |- preserves _ (raise _) => apply preserves_raise; dry_side
  | |- preserves _ out_of_steps => apply preserves_out_of_steps; dry_side
  | |- preserves _ (ask _) => apply preserves_ask; dry_side
  | |- preserves _ (Path_resolve _) => apply preserves_Path_resolve; dry_side
  | |- preserves _ (probing _ _) => apply preserves_probing; dry_side
  | |- preserves _ (syscall _ _) => apply preserves_syscall; dry_side
  | |- preserves _ (print _) => apply preserves_print; dry_side
  | |- preserves _ (print_action _ _) => apply preserves_print_action; dry_side
  | |- preserves _ (os_urandom _) => apply preserves_os_urandom; dry_side
  | |- preserves _ (find_duplicates _ _ _ _) => apply preserves_find_duplicates; dry_side
  | |- preserves dirs_added (ensure_directory _) => apply preserves_ensure_directory
  | |- preserves _ (bind _ _) => apply preserves_bind; [ dry_side | | intros ? ]
  | |- preserves _ (try_OSError _ _) =>
      apply preserves_try_OSError; [ dry_side | | intros ? ]
  | |- preserves _ (for_list _ _ _) =>
      apply preserves_for_list; [ dry_side | dry_side | intros ? ? ? ]
  | |- preserves _ (for_each _ _ _ _) =>
      apply preserves_for_each; [ dry_side | dry_side | intros ? ? ]
  | |- preserves _ (if ?b then _ else _) => destruct b
  | |- preserves _ (match ?x with _ => _ end) => destruct x
  end.

Section DryRun.

Context {platform : Platform}.

Lemma preserves_safe_move_dry (steps : nat) (src dest : Path) :
  preserves dirs_added (safe_move steps src dest true).
Proof. unfold safe_move. cbn [negb]. repeat dry_step. Qed.


Lemma preserves_dedupe_one_dry (steps : nat) (mode : string) (duplicates_dir : Path)
  (dup : Path) (operated : nat) :
  preserves dirs_added (dedupe_one steps mode duplicates_dir true dup operated).
Proof.
  unfold dedupe_one. cbn [negb]. repeat dry_step. apply preserves_safe_move_dry.
Qed.

Lemma preserves_dedupe_action_dry (steps : nat) (root_dir : Path) (mode : string)
  (duplicates_dir : Path) (include_hidden : bool) (exclude_globs : list string) :
  preserves dirs_added
    (dedupe_action steps root_dir mode duplicates_dir include_hidden exclude_globs true).
Proof.
  unfold dedupe_action, dedupe_group. repeat dry_step. apply preserves_dedupe_one_dry.
Qed.

Lemma preserves_organize_one_dry (steps : nat) (mode : string) (organize_dir : Path)
  (file_path : Path) (count : nat) :
  preserves dirs_added (organize_one steps mode organize_dir true file_path count).
Proof. unfold organize_one. repeat dry_step. apply preserves_safe_move_dry. Qed.

Lemma preserves_organize_files_dry (steps : nat) (root_dir : Path) (mode : string)
  (organize_dir : Path) (include_hidden : bool) (exclude_globs : list string) :
  preserves dirs_added
    (organize_files steps root_dir mode organize_dir include_hidden exclude_globs true).
Proof.
  unfold organize_files. repeat dry_step. apply preserves_organize_one_dry.
Qed.


Lemma safe_move_after_mkdir (steps : nat) (src dest : Path) (dry_run : bool)
  (st st1 : State) :
  ensure_directory (pathlib.parent dest) st = (Ok tt, st1) ->
  safe_move steps src dest dry_run st =
  match os.Path_exists (fs st1) dest with
  | os.Failure e => (Raised (OSError e dest), st1)
  | os.Success taken =>
      match (if taken then probe steps (fs st1) dest 1 else Ok dest) with
      | Ok final =>
          (print_action ("move " ++ pathlib.str src ++ " -> " ++ pathlib.str final) dry_run ;;;
           if negb dry_run then shutil.move src final else ret tt) st1
      | Raised e => (Raised e, st1)
      | OutOfSteps => (OutOfSteps, st1)
      end
  end.
Proof.
  intros Hdir. unfold safe_move. rewrite (bind_ok _ _ _ _ _ Hdir).
  unfold syscall at 1. unfold bind at 1.
  destruct (os.Path_exists (fs st1) dest) as [[|]|e]; [| |reflexivity].
  - unfold probing at 1. unfold bind at 1.
    now destruct (probe steps (fs st1) dest 1).
  - reflexivity.
Qed.

(** A call that returns has used the requested destination when it was
    free, and the least free candidate otherwise. *)
Lemma safe_move_ok (steps : nat) (src dest : Path) (dry_run : bool)
  (st st1 st' : State) :
  ensure_directory (pathlib.parent dest) st = (Ok tt, st1) ->
  safe_move steps src dest dry_run st = (Ok tt, st') ->
  exists final,
    (if os.path_exists (fs st1) dest then least_free steps (fs st1) dest 1
     else Some dest) = Some final
    /\ (print_action ("move " ++ pathlib.str src ++ " -> " ++ pathlib.str final) dry_run ;;;
        if negb dry_run then shutil.move src final else ret tt) st1 = (Ok tt, st').
Proof.
  intros Hdir Hmove. rewrite (safe_move_after_mkdir _ _ _ _ _ _ Hdir) in Hmove.
  unfold os.Path_exists in Hmove.
  destruct (os.name_too_long (fs st1) dest); [discriminate|].
  destruct (os.path_exists (fs st1) dest).
  - destruct (probe steps (fs st1) dest 1) as [final| |] eqn:Eprobe; try discriminate.
    exists final. split; [exact (probe_ok _ _ _ _ _ Eprobe) | exact Hmove].
  - exists dest. split; [reflexivity | exact Hmove].
Qed.




End DryRun.

(** ** The key store *)

(** Resolutions that succeed are not affected by new directories. *)
Lemma namei_dirs_added (fs fs' : FS) :
  only_dirs_added fs fs' ->
  forall links cur rest k n,
    namei links fs cur rest = Found k n -> namei links fs' cur rest = Found k n.
Proof.
  intros Hadd.
  apply (namei_ind fs (fun links cur rest => forall k n,
           namei links fs cur rest = Found k n -> namei links fs' cur rest = Found k n)).
  - intros links cur k n. now rewrite !namei_nil.
  - intros links cur c rest IHd IHl k n. rewrite !namei_cons.
    destruct (node_at fs (cur ++ [c])) as [m|] eqn:E.
    + rewrite (only_dirs_added_node _ _ _ _ Hadd E).
      destruct m as [f| |t|]; auto.
      destruct links as [|links']; [discriminate|]. now apply IHl.
    + destruct rest; discriminate.
Qed.




(** *** Keys hold no white space *)





Section KeyStore.

Context {platform : Platform}.









End KeyStore.

(** ** What the traversal yields *)

Section Traversal.

Context {platform : Platform}.


Lemma next_step_yield (w w' : Walk) (fs : FS) (p : Path) :
  next_step w fs = Yield p w' ->
  os.is_file fs p = true
  /\ should_skip p (include_hidden_of w) (exclude_globs_of w) = false
  /\ exists fr, frame w = Some fr /\ pathlib.parent p = dirpath fr
                /\ stack w' = stack w.
Proof.
  unfold next_step. destruct (frame w) as [[top dirs [|f files]]|] eqn:E.
  - discriminate.
  - destruct (os.is_file fs (pathlib.joinpath top f)) eqn:Ef; simpl; [|discriminate].
    destruct (should_skip (pathlib.joinpath top f) (include_hidden_of w)
                (exclude_globs_of w)) eqn:Es; simpl; [discriminate|].
    intros [= <- <-]. repeat split; try assumption.
    eexists. split; [reflexivity|]. simpl. split; [apply parent_joinpath | reflexivity].
  - destruct (stack w) as [|top rest]; [discriminate|].
    destruct (os.scandir fs top) as [[dirs nondirs]|e]; discriminate.
Qed.




End Traversal.

(** ** File systems without symbolic links *)

Lemma realpath_nil (links : nat) (fs : FS) (cur : Path) :
  os.realpath links fs cur [] = cur.
Proof. destruct links; reflexivity. Qed.

Lemma realpath_cons (links : nat) (fs : FS) (cur : Path) (c : string)
  (rest : list string) :
  os.realpath links fs cur (c :: rest) =
  match node_at fs (cur ++ [c]) with
  | Some (Symlink t) =>
      match links with
      | O => (cur ++ [c]) ++ rest
      | S links' => os.realpath links' fs [] (t ++ rest)
      end
  | _ => os.realpath links fs (cur ++ [c]) rest
  end.
Proof. destruct links; reflexivity. Qed.

Section Plain.

Variable fs : FS.
Hypothesis Hplain : no_symlinks fs.

Lemma no_symlink_at (k t : Path) : node_at fs k <> Some (Symlink t).
Proof. intros H. apply node_at_In in H. exact (Hplain _ _ H). Qed.

Lemma realpath_plain (links : nat) (rest : list string) :
  forall cur, os.realpath links fs cur rest = cur ++ rest.
Proof.
  induction rest as [|c rest IH]; intros cur.
  - rewrite realpath_nil. now rewrite app_nil_r.
  - rewrite realpath_cons.
    destruct (node_at fs (cur ++ [c])) as [[f| |t|]|] eqn:E;
      try (rewrite IH, <- app_assoc; reflexivity).
    now destruct (no_symlink_at _ _ E).
Qed.

Lemma path_resolve_plain (p : Path) : path_resolve fs p = p.
Proof. unfold path_resolve. apply realpath_plain. Qed.

Lemma namei_plain_key (links : nat) (cur : Path) (rest : list string) :
  (forall k n, namei links fs cur rest = Found k n -> k = cur ++ rest)
  /\ (forall k, namei links fs cur rest = Vacant k -> k = cur ++ rest).
Proof.
  revert links cur rest.
  apply (namei_ind fs (fun links cur rest =>
           (forall k n, namei links fs cur rest = Found k n -> k = cur ++ rest)
           /\ (forall k, namei links fs cur rest = Vacant k -> k = cur ++ rest))).
  - intros links cur. rewrite namei_nil. split.
    + intros k n [= <- _]. now rewrite app_nil_r.
    + discriminate.
  - intros links cur c rest IHd _. rewrite namei_cons.
    destruct (node_at fs (cur ++ [c])) as [[f| |t|]|] eqn:E.
    + destruct rest; split; try discriminate. now intros k n [= <- _].
    + destruct (IHd eq_refl) as [H1 H2].
      split; intros; rewrite (app_assoc cur [c] rest : cur ++ c :: rest = _); eauto.
    + now destruct (no_symlink_at _ _ E).
    + destruct rest; split; try discriminate. now intros k n [= <- _].
    + destruct rest; split; try discriminate. now intros k [= <-].
Qed.

(** Without symbolic links no resolution runs into a loop. *)
Lemma namei_plain_no_loop (links : nat) (cur : Path) (rest : list string) :
  namei links fs cur rest <> Unreachable ELOOP.
Proof.
  revert links cur rest.
  apply (namei_ind fs (fun links cur rest =>
           namei links fs cur rest <> Unreachable ELOOP)).
  - intros links cur. rewrite namei_nil. discriminate.
  - intros links cur c rest IHd _. rewrite namei_cons.
    destruct (node_at fs (cur ++ [c])) as [[f| |t|]|] eqn:E.
    + destruct rest; discriminate.
    + exact (IHd eq_refl).
    + now destruct (no_symlink_at _ _ E).
    + destruct rest; discriminate.
    + destruct rest; discriminate.
Qed.

Lemma resolve_plain_found (p k : Path) (n : Node) :
  resolve fs p = Found k n -> k = p /\ (n = Dir \/ node_at fs p = Some n).
Proof.
  intros H. destruct (namei_plain_key MAXSYMLINKS [] p) as [Hk _].
  pose proof (Hk _ _ H) as ->. split; [reflexivity|].
  exact (proj2 (namei_found_entry _ _ _ _ _ _ H)).
Qed.

Lemma resolve_plain_vacant (p k : Path) : resolve fs p = Vacant k -> k = p.
Proof.
  intros H. destruct (namei_plain_key MAXSYMLINKS [] p) as [_ Hk]. exact (Hk _ H).
Qed.

Lemma islink_plain (p : Path) : os.islink fs p = false.
Proof.
  unfold os.islink, resolve_entry. destruct p as [|c p']; [reflexivity|].
  destruct (resolve fs (pathlib.parent (c :: p'))) as [d [f| |t|]| |]; try reflexivity.
  destruct (node_at fs (d ++ [pathlib.name (c :: p')])) as [[f| |t|]|] eqn:E;
    try reflexivity.
  now destruct (no_symlink_at _ _ E).
Qed.

Hypothesis Hwf : well_formed fs.

Lemma entry_not_root (p : Path) (n : Node) : node_at fs p = Some n -> p <> [].
Proof.
  intros Hn. assert (Hin : In p (keys fs)) by (apply node_at_keys; congruence).
  exact (proj1 (Hwf _ Hin)).
Qed.

(** Every entry is found under its own name. *)
Lemma resolve_plain_entry (p : Path) (n : Node) :
  node_at fs p = Some n -> resolve fs p = Found p n.
Proof.
  intros Hn. pose proof (entry_not_root p n Hn) as Hp. revert n Hn Hp.
  induction p as [|c p IH] using rev_ind; intros n Hn Hp; [contradiction|].
  assert (Hin : In (p ++ [c]) (keys fs)) by (apply node_at_keys; congruence).
  destruct (Hwf _ Hin) as [_ Hparent].
  unfold pathlib.parent in Hparent. rewrite removelast_last in Hparent.
  assert (Hd : resolve fs p = Found p Dir).
  { destruct Hparent as [->|Hd]; [reflexivity|].
    apply IH; [assumption|]. exact (entry_not_root p Dir Hd). }
  apply (namei_snoc_entry _ _ _ _ _ _ _ Hd Hn).
  intros t ->. now destruct (no_symlink_at _ _ Hn).
Qed.

Lemma is_file_plain (p : Path) :
  os.is_file fs p = true <-> exists f, node_at fs p = Some (File f).
Proof.
  unfold os.is_file. split.
  - destruct (resolve fs p) as [k [f| |t|]| |] eqn:E; try discriminate.
    intros _. destruct (resolve_plain_found _ _ _ E) as [-> [H|H]];
      [discriminate | eauto].
  - intros [f Hf].
    now rewrite (resolve_plain_entry p (File f) Hf).
Qed.

Lemma stat_plain_file (p : Path) (f : FileData) :
  node_at fs p = Some (File f) -> os.stat fs p = os.Success (length (content f), mtime f).
Proof.
  intros Hf. unfold os.stat. now rewrite (resolve_plain_entry p (File f) Hf).
Qed.

End Plain.

(** Without symbolic links a path resolves to itself. *)
Lemma Path_resolve_plain {platform : Platform} (p : Path) (st : State) :
  no_symlinks (fs st) -> Path_resolve p st = (Ok p, st).
Proof.
  intros Hplain. unfold Path_resolve. rewrite (path_resolve_plain _ Hplain). cbv zeta.
  unfold os.stat, resolve.
  pose proof (namei_plain_no_loop _ Hplain MAXSYMLINKS [] p) as H.
  destruct (namei MAXSYMLINKS (fs st) [] p) as [k [f| |t|]|k|e]; try reflexivity.
  destruct e; try reflexivity. now contradiction H.
Qed.

(** Resolving a path changes nothing. *)
Lemma Path_resolve_state {platform : Platform} (p : Path) (st st' : State)
  (r : Outcome Path) :
  Path_resolve p st = (r, st') -> st' = st.
Proof.
  unfold Path_resolve. cbv zeta.
  destruct (os.stat (fs st) (path_resolve (fs st) p)) as [info|[]];
    now intros [= _ <-].
Qed.

(** ** Listing a directory, and moving a regular file *)

Lemma child_name_spec (d : Path) (e : Path * Node) (c : string) :
  os.child_name d e = Some c <-> fst e = d ++ [c].
Proof.
  unfold os.child_name.
  destruct (pathlib.relative_to (fst e) d) as [[|c' [|c'' tail]]|] eqn:E.
  - split; [discriminate|]. intros H. apply relative_to_app in E.
    rewrite E, app_nil_r in H. apply (f_equal (@length string)) in H.
    rewrite length_app in H. simpl in H. lia.
  - apply relative_to_app in E. rewrite E. split.
    + now intros [= ->].
    + intros H. apply app_inv_head in H. now injection H as ->.
  - split; [discriminate|]. intros H. apply relative_to_app in E.
    rewrite E in H. apply app_inv_head in H. discriminate.
  - split; [discriminate|]. intros H.
    assert (Hsome : pathlib.relative_to (fst e) d = Some [c])
      by (apply relative_to_app; assumption).
    congruence.
Qed.

Lemma listdir_In (fs : FS) (d : Path) (entries : FS) (c : string) :
  In c (os.listdir fs d entries) <-> In (d ++ [c]) (keys entries).
Proof.
  induction entries as [|e entries IH]; simpl; [reflexivity|].
  destruct (os.child_name d e) as [c'|] eqn:E; simpl.
  - apply child_name_spec in E. rewrite IH, E. split.
    + intros [->|H]; auto.
    + intros [H|H]; [left|right; assumption].
      apply app_inv_head in H. now injection H.
  - rewrite IH. split; [now right|]. intros [H|H]; [|assumption].
    apply child_name_spec in H. congruence.
Qed.

Section PlainListing.

Variable fs : FS.
Hypothesis Hplain : no_symlinks fs.
Hypothesis Hwf : well_formed fs.

(** Listing a directory of a well-formed file system without symbolic
    links: it succeeds, the regular files are among the names that are not
    directories and the directories among those that are. *)
Lemma scandir_plain (top : Path) :
  top = [] \/ node_at fs top = Some Dir ->
  exists dirs nondirs,
    os.scandir fs top = os.Success (dirs, nondirs)
    /\ (forall c f, node_at fs (top ++ [c]) = Some (File f) -> In c nondirs)
    /\ (forall c, node_at fs (top ++ [c]) = Some Dir -> In c dirs).
Proof.
  intros Htop.
  assert (Hres : resolve fs top = Found top Dir).
  { destruct Htop as [->|Hd]; [reflexivity|]. now apply resolve_plain_entry. }
  unfold os.scandir. rewrite Hres. eexists. eexists. split; [reflexivity|]. split.
  - intros c f Hf. apply filter_In. split.
    + apply listdir_In. apply node_at_keys. congruence.
    + unfold os.is_dir. now rewrite (resolve_plain_entry fs Hplain Hwf _ _ Hf).
  - intros c Hd. apply filter_In. split.
    + apply listdir_In. apply node_at_keys. congruence.
    + unfold os.is_dir. now rewrite (resolve_plain_entry fs Hplain Hwf _ _ Hd).
Qed.

(** What lies above a regular file can be listed. *)
Lemma above_file_is_dir (d rest : Path) (f : FileData) :
  rest <> [] -> node_at fs (d ++ rest) = Some (File f) ->
  d = [] \/ node_at fs d = Some Dir.
Proof.
  intros Hrest Hf. destruct d as [|c d]; [now left|]. right.
  apply (well_formed_ancestor fs Hwf rest); [discriminate | assumption|].
  apply node_at_keys. congruence.
Qed.

End PlainListing.

(** Renaming a regular file to a free name: the file is found under the
    new name, and no longer under the old one; the rest is as it was. *)
Lemma node_at_rekey_file (p final : Path) (l : FS) :
  (forall e tail, In e l -> pathlib.relative_to (fst e) p = Some tail -> tail = []) ->
  (forall e, In e l -> fst e <> final) ->
  p <> final ->
  forall q,
    node_at (map (os.rekey p final) l) q
    = if path_eqb q final then node_at l p
      else if path_eqb q p then None else node_at l q.
Proof.
  intros Hbelow Hfree Hpf q.
  induction l as [|[k n] l IH]; simpl.
  - now destruct (path_eqb q final), (path_eqb q p).
  - assert (IH' := IH (fun e tail He => Hbelow e tail (or_intror He))
                      (fun e He => Hfree e (or_intror He))).
    clear IH. unfold os.rekey at 1. simpl.
    destruct (pathlib.relative_to k p) as [tail|] eqn:E; simpl.
    + pose proof (Hbelow (k, n) tail (or_introl eq_refl) E) as Ht. subst tail.
      apply relative_to_app in E. rewrite app_nil_r in E. subst k.
      rewrite app_nil_r, path_eqb_refl, IH'.
      destruct (path_eqb_spec final q), (path_eqb_spec q final), (path_eqb_spec q p),
        (path_eqb_spec p q); congruence.
    + assert (Hkp : k <> p).
      { intros ->. assert (pathlib.relative_to p p = Some []); [|congruence].
        apply relative_to_app. now rewrite app_nil_r. }
      assert (Hkf : k <> final) by (apply (Hfree (k, n)); now left).
      rewrite IH'.
      destruct (path_eqb_spec k p), (path_eqb_spec k q), (path_eqb_spec q final),
        (path_eqb_spec q p); congruence.
Qed.

(** ** The suffix of a disambiguated name *)

Lemma rfind_app (c : ascii) (s t : string) :
  rfind c (s ++ t) =
  match rfind c t with
  | Some j => Some (String.length s + j)
  | None => rfind c s
  end.
Proof.
  induction s as [|a s IH]; simpl.
  - now destruct (rfind c t).
  - rewrite IH. now destruct (rfind c t).
Qed.

Lemma rfind_split (c : ascii) (s : string) (i : nat) :
  rfind c s = Some i ->
  exists s1 s2, s = (s1 ++ String c s2)%string /\ String.length s1 = i
                /\ rfind c s2 = None.
Proof.
  revert i. induction s as [|a s IH]; intros i; simpl; [discriminate|].
  destruct (rfind c s) as [j|] eqn:E.
  - intros [= <-]. destruct (IH j eq_refl) as [s1 [s2 [-> [Hlen Hnone]]]].
    exists (String a s1), s2. simpl. now rewrite Hlen.
  - destruct (Ascii.eqb_spec a c) as [->|_]; [|discriminate].
    intros [= <-]. now exists ""%string, s.
Qed.

Lemma take_str_app (s t : string) : take_str (String.length s) (s ++ t) = s.
Proof. induction s as [|a s IH]; simpl; [now destruct t | now rewrite IH]. Qed.

Lemma drop_str_app (s t : string) : drop_str (String.length s) (s ++ t) = t.
Proof. induction s as [|a s IH]; simpl; [now destruct t | assumption]. Qed.

Lemma rfind_dot_uint (d : Decimal.uint) :
  rfind "." (NilEmpty.string_of_uint d) = None.
Proof. induction d; simpl; try rewrite IHd; reflexivity. Qed.

Lemma rfind_dot_decimal (n : nat) : rfind "." (decimal n) = None.
Proof. apply rfind_dot_uint. Qed.

Lemma rfind_dot_counter (n : nat) (s : string) :
  rfind "." ("__" ++ decimal n ++ s) =
  match rfind "." s with
  | Some j => Some (2 + String.length (decimal n) + j)
  | None => None
  end.
Proof.
  change ("__" ++ decimal n ++ s)%string with ("__" ++ (decimal n ++ s))%string.
  rewrite rfind_app, rfind_app, rfind_dot_decimal.
  destruct (rfind "." s) as [j|]; simpl; [f_equal; lia | reflexivity].
Qed.

(** A name that does not end in a dot keeps its suffix when [__n] is put
    before the suffix. *)
Lemma suffix_candidate (t : Path) (n : nat) :
  ends_with_dot (pathlib.name t) = false ->
  pathlib.suffix (candidate t n) = pathlib.suffix t.
Proof.
  intros Hdot. unfold candidate.
  unfold pathlib.suffix at 1. unfold pathlib.stem. rewrite name_joinpath.
  unfold pathlib.suffix. unfold ends_with_dot in Hdot.
  set (name := pathlib.name t) in *. unfold pathlib.split_index.
  destruct (rfind "." name) as [i|] eqn:E.
  - destruct (rfind_split _ _ _ E) as [s1 [s2 [Hname [Hlen Hnone]]]].
    assert (Hlenname : String.length name = i + S (String.length s2))
      by (rewrite Hname, length_append; simpl; lia).
    destruct ((0 <? i) && (i <? String.length name - 1)) eqn:Ei.
    + apply andb_true_iff in Ei. destruct Ei as [Hi1 Hi2].
      apply Nat.ltb_lt in Hi1, Hi2.
      rewrite Hname, <- Hlen, take_str_app, drop_str_app.
      set (head := (s1 ++ ("__" ++ decimal n))%string).
      replace (s1 ++ "__" ++ decimal n ++ String "." s2)%string
        with (head ++ String "." s2)%string
        by (unfold head; now rewrite !append_assoc).
      rewrite rfind_app. simpl. rewrite Hnone. simpl.
      assert (Hhead : 0 < String.length head).
      { unfold head. rewrite !length_append. simpl. lia. }
      rewrite Nat.add_0_r, length_append. simpl.
      replace (0 <? String.length head) with true by (symmetry; now apply Nat.ltb_lt).
      replace (String.length head <? String.length head + S (String.length s2) - 1)
        with true by (symmetry; apply Nat.ltb_lt; lia).
      simpl. apply drop_str_app.
    + rewrite rfind_app, rfind_dot_counter. simpl. rewrite E.
      apply andb_false_iff in Ei. destruct Ei as [Hi|Hi].
      * apply Nat.ltb_ge in Hi. assert (i = 0) as -> by lia. reflexivity.
      * apply Nat.ltb_ge in Hi. apply Nat.eqb_neq in Hdot. lia.
  - rewrite rfind_app, rfind_dot_counter. simpl. now rewrite E.
Qed.

(** ** Moving a regular file in a file system without symbolic links *)

Lemma no_symlinks_dirs_added (fs fs' : FS) :
  only_dirs_added fs fs' -> no_symlinks fs -> no_symlinks fs'.
Proof.
  intros [ds ->] H k t Hin. apply in_app_or in Hin. destruct Hin as [Hin|Hin].
  - exact (H _ _ Hin).
  - apply in_map_iff in Hin. destruct Hin as [d [[=] _]].
Qed.

Lemma file_dirs_added (fs fs' : FS) (q : Path) (g : FileData) :
  only_dirs_added fs fs' ->
  node_at fs' q = Some (File g) <-> node_at fs q = Some (File g).
Proof.
  intros Hadd. split.
  - intros H. destruct (only_dirs_added_node_inv _ _ _ _ Hadd H) as [H'|[_ [=]]].
    assumption.
  - apply only_dirs_added_node. assumption.
Qed.

Lemma resolve_entry_plain (fs : FS) (p : Path) (n : Node) :
  no_symlinks fs -> well_formed fs ->
  node_at fs p = Some n -> resolve_entry fs p = Found p n.
Proof.
  intros Hplain Hwf Hn.
  pose proof (entry_not_root fs Hwf p n Hn) as Hp.
  assert (Hin : In p (keys fs)) by (apply node_at_keys; congruence).
  destruct (Hwf _ Hin) as [_ Hparent].
  unfold resolve_entry. destruct p as [|c p']; [contradiction|].
  set (p := c :: p') in *.
  assert (Hd : resolve fs (pathlib.parent p) = Found (pathlib.parent p) Dir).
  { destruct Hparent as [->|Hd]; [reflexivity|]. now apply resolve_plain_entry. }
  rewrite Hd, <- (path_split p Hp), Hn. reflexivity.
Qed.

Lemma resolve_entry_plain_vacant (fs : FS) (p k : Path) :
  no_symlinks fs -> resolve_entry fs p = Vacant k -> k = p /\ node_at fs p = None.
Proof.
  intros Hplain H.
  destruct (resolve_entry_vacant _ _ _ H) as [Hp [Hnone [d [Hd ->]]]].
  destruct (resolve_plain_found fs Hplain _ _ _ Hd) as [-> _].
  rewrite <- (path_split p Hp) in *. auto.
Qed.

(** An applied [safe_move] of a regular file, when it returns: the file
    is at the requested destination or at one of its candidates, and
    nowhere else; every other regular file is where it was. *)
Lemma safe_move_plain_file (steps : nat) (p t : Path) (f : FileData) (st st' : State) :
  well_formed (fs st) -> no_symlinks (fs st) ->
  node_at (fs st) p = Some (File f) ->
  safe_move steps p t false st = (Ok tt, st') ->
  exists final,
    (final = t \/ exists n, final = candidate t n)
    /\ well_formed (fs st') /\ no_symlinks (fs st')
    /\ node_at (fs st') final = Some (File f)
    /\ forall q g,
         q <> final ->
         (node_at (fs st') q = Some (File g)
          <-> q <> p /\ node_at (fs st) q = Some (File g)).
Proof.
  intros Hwf Hplain Hp Hmove.
  destruct (ensure_directory (pathlib.parent t) st) as [[[]|e|] st1] eqn:Hdir;
    try (unfold safe_move in Hmove;
         first [ rewrite (bind_raised _ _ _ _ _ Hdir) in Hmove
               | rewrite (bind_out_of_steps _ _ _ _ Hdir) in Hmove ];
         discriminate).
  pose proof (preserves_ensure_directory (pathlib.parent t) st) as Hadd.
  pose proof (well_formed_ensure_directory (pathlib.parent t) st Hwf) as Hwf1.
  rewrite Hdir in Hadd, Hwf1. simpl in Hadd, Hwf1. unfold dirs_added in Hadd.
  pose proof (no_symlinks_dirs_added _ _ Hadd Hplain) as Hplain1.
  assert (Hp1 : node_at (fs st1) p = Some (File f))
    by (now apply (file_dirs_added _ _ _ _ Hadd)).
  destruct (safe_move_ok _ _ _ _ _ _ _ Hdir Hmove) as [final [Efinal Hmove']].
  clear Hmove. rename Hmove' into Hmove.
  assert (Hchoice : (final = t \/ exists n, final = candidate t n)
                    /\ os.path_exists (fs st1) final = false).
  { destruct (os.path_exists (fs st1) t) eqn:Et.
    - split; [|now apply (least_free_is_free _ _ _ _ _ Efinal)].
      right. exact (least_free_candidate _ _ _ _ _ Efinal).
    - injection Efinal as <-. auto. }
  destruct Hchoice as [Hchoice Hfree].
  cbv [bind print_action print ret] in Hmove. cbn [negb] in Hmove.
  unfold shutil.move, bind, ask in Hmove. cbn [fs] in Hmove.
  destruct (os.is_dir (fs st1) final) eqn:Edir;
    [apply is_dir_exists in Edir; congruence|].
  unfold syscall_upd in Hmove. cbn [fs] in Hmove.
  destruct (os.rename (fs st1) p final) as [fs'|e] eqn:Eren; [|discriminate].
  injection Hmove as <-. cbn [fs set_fs snd].
  unfold os.rename in Eren.
  rewrite (resolve_entry_plain _ _ _ Hplain1 Hwf1 Hp1) in Eren.
  destruct (resolve_entry (fs st1) final) as [kd m|kd|e] eqn:Efin; try discriminate.
  { destruct (resolve_entry_not_exists _ _ _ _ Efin Hfree) as [tl ->].
    assert (Hfin : final <> []) by (intros ->; discriminate).
    destruct (resolve_entry_key _ _ _ _ Efin Hfin) as [_ Hm].
    now destruct (no_symlink_at _ Hplain1 _ _ Hm). }
  destruct (resolve_entry_plain_vacant _ _ _ Hplain1 Efin) as [-> Hnone].
  destruct (os.is_below final p); [discriminate|]. injection Eren as <-.
  assert (Hpf : p <> final) by (intros ->; congruence).
  assert (Hrekey : forall q,
             node_at (map (os.rekey p final) (fs st1)) q
             = if path_eqb q final then node_at (fs st1) p
               else if path_eqb q p then None else node_at (fs st1) q).
  { apply node_at_rekey_file; [| |assumption].
    - intros e tail He Hrel. destruct tail as [|c tail]; [reflexivity|]. exfalso.
      apply relative_to_app in Hrel.
      assert (Hin : In (p ++ c :: tail) (keys (fs st1))).
      { rewrite <- Hrel. apply in_map. assumption. }
      pose proof (well_formed_ancestor _ Hwf1 (c :: tail) p
                    (entry_not_root _ Hwf1 _ _ Hp1) ltac:(discriminate) Hin).
      congruence.
    - intros e He Heq. apply (proj2 (node_at_keys (fs st1) final)); [|assumption].
      rewrite <- Heq. apply in_map. assumption. }
  exists final. split; [assumption|]. split; [|split; [|split]].
  - (* well-formed *)
    intros k' Hk'. unfold keys in Hk'. rewrite map_map in Hk'.
    apply in_map_iff in Hk'. destruct Hk' as [[k n] [Hk' He]].
    assert (Hold : In k (keys (fs st1))) by (apply in_map_iff; now exists (k, n)).
    assert (Hparent_same : forall d, node_at (fs st1) d = Some Dir ->
                                     node_at (map (os.rekey p final) (fs st1)) d = Some Dir).
    { intros d Hd. rewrite Hrekey.
      rewrite (proj2 (path_eqb_neq d final)) by congruence.
      now rewrite (proj2 (path_eqb_neq d p)) by congruence. }
    unfold os.rekey in Hk'. simpl in Hk'.
    destruct (pathlib.relative_to k p) as [tail|] eqn:Erel; simpl in Hk'; subst k'.
    + destruct tail as [|c tail].
      * rewrite app_nil_r.
        destruct (resolve_entry_vacant _ _ _ Efin) as [Hfin [_ [d [Hd Hkey]]]].
        destruct (resolve_plain_found _ Hplain1 _ _ _ Hd) as [-> Hdir'].
        split; [assumption|].
        destruct (namei_found_dir _ _ _ _ _ Hd) as [Hroot|[Hroot|Hd']]; auto.
      * exfalso. apply relative_to_app in Erel. subst k.
        pose proof (well_formed_ancestor _ Hwf1 (c :: tail) p
                      (entry_not_root _ Hwf1 _ _ Hp1) ltac:(discriminate) Hold).
        congruence.
    + destruct (Hwf1 k Hold) as [Hne [Hroot|Hd]]; split; auto.
  - intros k tl Hin. apply in_map_iff in Hin. destruct Hin as [[k0 n0] [Hk He]].
    unfold os.rekey in Hk. simpl in Hk.
    destruct (pathlib.relative_to k0 p); injection Hk as _ ->;
      exact (Hplain1 _ _ He).
  - now rewrite Hrekey, path_eqb_refl.
  - intros q g Hq. rewrite Hrekey.
    rewrite (proj2 (path_eqb_neq q final)) by assumption.
    destruct (path_eqb_spec q p) as [->|Hqp].
    + split; [discriminate | intros [H _]; contradiction].
    + rewrite (file_dirs_added _ _ _ _ Hadd). tauto.
Qed.

(** ** A traversal of a file system at rest comes to an end *)

Lemma walk_cost_eq (fs : FS) (n : nat) (d : Path) :
  walk_cost fs n d
  = match os.scandir fs d with
    | os.Failure _ => 1
    | os.Success (dirs, nondirs) =>
        2 + length nondirs
        + match n with
          | O => 0
          | S n' => list_sum (map (fun c => walk_cost fs n' (pathlib.joinpath d c)) dirs)
          end
    end.
Proof. destruct n; reflexivity. Qed.

Lemma depth_bound (fs : FS) (k : Path) : In k (keys fs) -> length k <= depth fs.
Proof.
  intros Hk. unfold depth.
  assert (H : Forall (fun n => n <= list_max (map (fun e => length (fst e)) fs))
                (map (fun e => length (fst e)) fs))
    by (apply list_max_le; apply Nat.le_refl).
  rewrite Forall_forall in H. apply H. unfold keys in Hk.
  apply in_map_iff in Hk. destruct Hk as [e [<- He]].
  apply in_map_iff. now exists e.
Qed.

Lemma list_sum_filter_le {A : Type} (f : A -> nat) (g : A -> bool) (l : list A) :
  list_sum (map f (filter g l)) <= list_sum (map f l).
Proof.
  induction l as [|a l IH]; simpl; [apply Nat.le_refl|].
  destruct (g a); simpl; lia.
Qed.

(** What a listed directory costs. *)
Lemma cost_of_listed (fs : FS) (d : Path) (dirs nondirs : list string) :
  no_symlinks fs ->
  os.scandir fs d = os.Success (dirs, nondirs) ->
  cost_of fs d
  = 2 + length nondirs + list_sum (map (fun c => cost_of fs (pathlib.joinpath d c)) dirs).
Proof.
  intros Hplain Hscan.
  assert (Hin : forall c, In c dirs -> In (d ++ [c]) (keys fs)).
  { unfold os.scandir in Hscan.
    destruct (resolve fs d) as [k [| | |]| |] eqn:E; try discriminate.
    injection Hscan as <- <-. intros c Hc. apply filter_In in Hc. destruct Hc as [Hc _].
    apply listdir_In in Hc. now destruct (resolve_plain_found fs Hplain _ _ _ E) as [-> _]. }
  unfold cost_of. rewrite walk_cost_eq, Hscan.
  destruct (depth fs - length d) as [|n'] eqn:En.
  - destruct dirs as [|c dirs']; [reflexivity|]. exfalso.
    pose proof (depth_bound fs _ (Hin c (or_introl eq_refl))) as Hlen.
    rewrite length_app in Hlen. simpl in Hlen. lia.
  - f_equal. f_equal. apply map_ext. intros c. unfold pathlib.joinpath.
    replace (depth fs - length (d ++ [c])) with n'; [reflexivity|].
    rewrite length_app. simpl. lia.
Qed.

Lemma cost_of_positive (fs : FS) (d : Path) : 0 < cost_of fs d.
Proof.
  unfold cost_of. rewrite walk_cost_eq.
  destruct (os.scandir fs d) as [[dirs nondirs]|e]; lia.
Qed.

Section StaticWalk.

Context {platform : Platform}.

(** Every step of the traversal of a file system without symbolic links
    leaves less to do. *)
Lemma next_step_remaining (fs : FS) (w : Walk) :
  no_symlinks fs ->
  match next_step w fs with
  | Yield _ w' => remaining fs w' < remaining fs w
  | Skip w' => remaining fs w' < remaining fs w
  | Stop => True
  end.
Proof.
  intros Hplain. unfold next_step, remaining.
  destruct (frame w) as [[top dirs [|name files]]|] eqn:E.
  - simpl. rewrite map_app, list_sum_app. lia.
  - destruct (os.is_file fs (pathlib.joinpath top name)
              && negb (should_skip (pathlib.joinpath top name) (include_hidden_of w)
                         (exclude_globs_of w))); simpl; lia.
  - destruct (stack w) as [|top rest]; [exact I|].
    destruct (os.scandir fs top) as [[dirs nondirs]|e] eqn:Es.
    + cbn [frame stack filenames dirnames dirpath map list_sum fold_right].
      rewrite (cost_of_listed fs top dirs nondirs Hplain Es).
      match goal with
      | |- context [filter ?g (map ?h ?l)] =>
          pose proof (list_sum_filter_le (cost_of fs) g (map h l)) as H1
      end.
      rewrite map_map in H1.
      assert (H2 : list_sum (map (fun c => cost_of fs (pathlib.joinpath top c))
                        (if negb (include_hidden_of w)
                         then filter (fun d => negb (startswith "." d)) dirs
                         else dirs))
                   <= list_sum (map (fun c => cost_of fs (pathlib.joinpath top c)) dirs)).
      { destruct (negb (include_hidden_of w)); [apply list_sum_filter_le | apply Nat.le_refl]. }
      lia.
    + cbn [frame stack map list_sum fold_right]. pose proof (cost_of_positive fs top). lia.
Qed.

(** A loop whose body leaves the state as it is returns when it is given
    more steps than the traversal has to make, and otherwise stops where
    it started. *)
Lemma for_each_at_rest {A : Type} (body : Path -> A -> M A) (J : Walk -> Prop)
  (acc : A) (st : State) :
  (forall w, J w ->
     match next_step w (fs st) with
     | Yield p w' => body p acc st = (Ok acc, st) /\ J w'
     | Skip w' => J w'
     | Stop => True
     end) ->
  forall steps w,
    J w ->
    (for_each steps w body acc st = (Ok acc, st)
     \/ for_each steps w body acc st = (OutOfSteps, st))
    /\ (no_symlinks (fs st) -> remaining (fs st) w < steps ->
        for_each steps w body acc st = (Ok acc, st)).
Proof.
  intros Hstep. induction steps as [|steps IH]; intros w Hw.
  - split; [now right | intros _ H; inversion H].
  - cbn [for_each]. pose proof (Hstep w Hw) as Hnext.
    assert (Hless := fun Hplain => next_step_remaining (fs st) w Hplain).
    destruct (next_step w (fs st)) as [p w'|w'|].
    + destruct Hnext as [Hbody Hw']. rewrite (bind_ok _ _ _ _ _ Hbody).
      destruct (IH w' Hw') as [H1 H2]. split; [exact H1|].
      intros Hplain Hlt. apply H2; [exact Hplain|]. specialize (Hless Hplain). lia.
    + destruct (IH w' Hnext) as [H1 H2]. split; [exact H1|].
      intros Hplain Hlt. apply H2; [exact Hplain|]. specialize (Hless Hplain). lia.
    + split; [now left | reflexivity].
Qed.

(** The traversal keeps its options. *)
Lemma next_step_flags (w : Walk) (fs : FS) :
  match next_step w fs with
  | Yield _ w' =>
      include_hidden_of w' = include_hidden_of w
      /\ exclude_globs_of w' = exclude_globs_of w
  | Skip w' =>
      include_hidden_of w' = include_hidden_of w
      /\ exclude_globs_of w' = exclude_globs_of w
  | Stop => True
  end.
Proof.
  unfold next_step. destruct (frame w) as [[top dirs [|name files]]|].
  - now split.
  - destruct (os.is_file fs (pathlib.joinpath top name)
              && negb (should_skip (pathlib.joinpath top name) (include_hidden_of w)
                         (exclude_globs_of w))); now split.
  - destruct (stack w) as [|top rest]; [exact I|].
    destruct (os.scandir fs top) as [[dirs nondirs]|e]; now split.
Qed.

(** The traversal stays below its root, and so does what it yields. *)
Lemma walk_under_step (root_dir : Path) (w : Walk) (fs : FS) :
  walk_under root_dir w ->
  match next_step w fs with
  | Yield p w' => walk_under root_dir w' /\ below root_dir p
  | Skip w' => walk_under root_dir w'
  | Stop => True
  end.
Proof.
  intros [Hstack Hframe]. unfold next_step.
  destruct (frame w) as [[top dirs [|name files]]|] eqn:E.
  - split; simpl; [|discriminate]. intros d Hd. apply in_app_or in Hd.
    destruct Hd as [Hd|Hd]; [|now apply Hstack].
    apply filter_In in Hd. destruct Hd as [Hd _]. apply in_map_iff in Hd.
    destruct Hd as [c [<- _]]. destruct (Hframe _ eq_refl) as [rest Hrest].
    simpl in Hrest. exists (rest ++ [c]). unfold pathlib.joinpath.
    now rewrite Hrest, app_assoc.
  - assert (Hunder : walk_under root_dir
                       (mkWalk (include_hidden_of w) (exclude_globs_of w)
                          (Some (mkFrame top dirs files)) (stack w))).
    { split; simpl; [assumption|]. intros fr [= <-]. apply (Hframe _ eq_refl). }
    destruct (os.is_file fs (pathlib.joinpath top name)
              && negb (should_skip (pathlib.joinpath top name) (include_hidden_of w)
                         (exclude_globs_of w))); [|exact Hunder].
    split; [exact Hunder|]. destruct (Hframe _ eq_refl) as [rest Hrest].
    simpl in Hrest. exists (rest ++ [name]). split; [now destruct rest|].
    unfold pathlib.joinpath. now rewrite Hrest, app_assoc.
  - destruct (stack w) as [|top rest]; [exact I|].
    destruct (os.scandir fs top) as [[dirs nondirs]|e].
    + split; simpl; [intros d Hd; apply Hstack; now right|].
      intros fr [= <-]. apply Hstack. now left.
    + split; simpl; [intros d Hd; apply Hstack; now right | discriminate].
Qed.

End StaticWalk.

(** ** Organize *)

Section Organize.

Context {platform : Platform}.

Variable root_dir : Path.
Variable organize_mode : string.
Variable organize_dir : Path.
Hypothesis Hmode :
  String.eqb organize_mode "ext" = true \/ String.eqb organize_mode "date" = true.

(** What [organize_one] does with a path that [stat] accepts. *)
Lemma organize_one_target (steps : nat) (dry_run : bool) (p : Path) (count : nat)
  (st : State) (info : nat * Z) :
  no_symlinks (fs st) ->
  os.stat (fs st) p = os.Success info ->
  organize_one steps organize_mode organize_dir dry_run p count st
  = if path_eqb (target_of (fs st) organize_mode organize_dir p) p
    then (Ok count, st)
    else (safe_move steps p (target_of (fs st) organize_mode organize_dir p) dry_run ;;;
          ret (count + 1)) st.
Proof.
  intros Hplain Hstat. unfold organize_one, target_of, target_dir_of, extension_of.
  destruct (String.eqb organize_mode "ext") eqn:Eext.
  - cbv [try_OSError bind ret].
    rewrite (Path_resolve_plain _ st Hplain). cbv beta iota.
    rewrite (Path_resolve_plain _ st Hplain). cbv beta iota.
    now destruct (path_eqb _ _).
  - destruct Hmode as [H|Hdate]; [discriminate|]. rewrite Hdate.
    cbv [try_OSError bind ret syscall]. rewrite Hstat.
    rewrite (Path_resolve_plain _ st Hplain). cbv beta iota.
    rewrite (Path_resolve_plain _ st Hplain). cbv beta iota.
    now destruct (path_eqb _ _).
Qed.

(** The computed destination of a regular file depends on the file
    system through the file itself only. *)
Lemma target_of_same_file (fs fs' : FS) (p q : Path) (f : FileData) :
  well_formed fs -> no_symlinks fs -> well_formed fs' -> no_symlinks fs' ->
  node_at fs p = Some (File f) -> node_at fs' q = Some (File f) ->
  target_dir_of fs' organize_mode organize_dir q
  = if String.eqb organize_mode "ext"
    then pathlib.joinpath organize_dir (extension_of q)
    else target_dir_of fs organize_mode organize_dir p.
Proof.
  intros Hwf Hplain Hwf' Hplain' Hp Hq. unfold target_dir_of.
  destruct (String.eqb organize_mode "ext"); [reflexivity|].
  now rewrite (stat_plain_file fs Hplain Hwf p f Hp),
              (stat_plain_file fs' Hplain' Hwf' q f Hq).
Qed.

Lemma target_of_kept (fs fs' : FS) (q : Path) (f : FileData) :
  well_formed fs -> no_symlinks fs -> well_formed fs' -> no_symlinks fs' ->
  node_at fs q = Some (File f) -> node_at fs' q = Some (File f) ->
  target_of fs' organize_mode organize_dir q = target_of fs organize_mode organize_dir q.
Proof.
  intros Hwf Hplain Hwf' Hplain' Hq Hq'. unfold target_of, target_dir_of.
  destruct (String.eqb organize_mode "ext"); [reflexivity|].
  now rewrite (stat_plain_file fs Hplain Hwf q f Hq),
              (stat_plain_file fs' Hplain' Hwf' q f Hq').
Qed.

Lemma extension_of_name (p q : Path) :
  pathlib.suffix p = pathlib.suffix q -> extension_of p = extension_of q.
Proof. unfold extension_of. now intros ->. Qed.

Lemma suffix_same_name (p q : Path) :
  pathlib.name p = pathlib.name q -> pathlib.suffix p = pathlib.suffix q.
Proof. unfold pathlib.suffix. now intros ->. Qed.

(** Where an applied move puts a regular file, the file is in place. *)
Lemma target_of_moved (fs fs' : FS) (p final : Path) (f : FileData) :
  well_formed fs -> no_symlinks fs -> well_formed fs' -> no_symlinks fs' ->
  node_at fs p = Some (File f) -> node_at fs' final = Some (File f) ->
  (String.eqb organize_mode "ext" = true -> ends_with_dot (pathlib.name p) = false) ->
  let t := target_of fs organize_mode organize_dir p in
  final = t \/ (exists n, final = candidate t n) ->
  target_of fs' organize_mode organize_dir final = final.
Proof.
  intros Hwf Hplain Hwf' Hplain' Hp Hfinal Hgood t Hchoice.
  assert (Hp0 : p <> []) by exact (entry_not_root fs Hwf p _ Hp).
  assert (Hparent : pathlib.parent final = target_dir_of fs organize_mode organize_dir p).
  { destruct Hchoice as [->|[n ->]]; [|rewrite candidate_parent];
      unfold t, target_of; apply parent_joinpath. }
  assert (Hnonroot : final <> []) by exact (entry_not_root fs' Hwf' final _ Hfinal).
  assert (Hsuffix : String.eqb organize_mode "ext" = true ->
                    pathlib.suffix final = pathlib.suffix p).
  { intros Hext.
    assert (Hname : pathlib.name t = pathlib.name p)
      by (unfold t, target_of; apply name_joinpath).
    destruct Hchoice as [->|[n ->]].
    - now apply suffix_same_name.
    - rewrite suffix_candidate; [now apply suffix_same_name|].
      rewrite Hname. auto. }
  unfold target_of.
  rewrite (target_of_same_file fs fs' p final f) by assumption.
  rewrite (path_split final Hnonroot) at 3. rewrite Hparent. unfold pathlib.joinpath.
  f_equal. unfold target_dir_of.
  destruct (String.eqb organize_mode "ext") eqn:Eext; [|reflexivity].
  unfold pathlib.joinpath. f_equal. f_equal. apply extension_of_name. auto.
Qed.

Lemma is_hidden_component (d : Path) (c : string) (rest : Path) :
  startswith "." c = true -> is_hidden (d ++ c :: rest) = true.
Proof.
  intros Hc. unfold is_hidden, pathlib.parts. apply existsb_exists.
  exists c. split; [|assumption]. right. apply in_elt.
Qed.

(** One step of the traversal while organize runs. *)
Lemma organizing_step (steps : nat) (w : Walk) (st : State) :
  organizing root_dir organize_mode organize_dir w st ->
  match next_step w (fs st) with
  | Yield p w' =>
      forall count count' st',
        organize_one steps organize_mode organize_dir false p count st = (Ok count', st') ->
        organizing root_dir organize_mode organize_dir w' st'
  | Skip w' => organizing root_dir organize_mode organize_dir w' st
  | Stop =>
      forall p f,
        node_at (fs st) p = Some (File f) -> below root_dir p ->
        target_of (fs st) organize_mode organize_dir p = p
        \/ should_skip p (include_hidden_of w) (exclude_globs_of w) = true
  end.
Proof.
  intros (Hwf & Hplain & [Hstack Hframe] & Hinv). unfold next_step.
  destruct (frame w) as [[top dirs [|name files]]|] eqn:Eframe.
  - (* the sub-directories are pushed *)
    split; [assumption|]. split; [assumption|]. split.
    + split; simpl; [|discriminate]. intros d Hd. apply in_app_or in Hd.
      destruct Hd as [Hd|Hd]; [|now apply Hstack].
      apply filter_In in Hd. destruct Hd as [Hd _]. apply in_map_iff in Hd.
      destruct Hd as [c [<- _]]. destruct (Hframe _ eq_refl) as [rest Hrest].
      simpl in Hrest. exists (rest ++ [c]). unfold pathlib.joinpath.
      now rewrite Hrest, app_assoc.
    + intros p f Hp Hbelow. destruct (Hinv p f Hp Hbelow) as [H|[H|[Hgood H]]]; auto.
      right. right. split; [assumption|]. right. simpl.
      destruct H as [[fr [Hfr Hcase]]|[d [Hd Hb]]].
      * rewrite Eframe in Hfr. injection Hfr as <-. simpl in Hcase.
        destruct Hcase as [[c [[] _]]|[c [Hc Hb]]].
        exists (top ++ [c]). split; [|assumption]. apply in_or_app. left.
        apply filter_In. split; [exact (in_map (pathlib.joinpath top) dirs c Hc)|].
        now rewrite islink_plain.
      * exists d. split; [apply in_or_app; now right | assumption].
  - (* the next name of the listing *)
    set (p := pathlib.joinpath top name).
    set (w' := mkWalk (include_hidden_of w) (exclude_globs_of w)
                 (Some (mkFrame top dirs files)) (stack w)).
    assert (Hunder' : walk_under root_dir w').
    { split; simpl; [assumption|]. intros fr [= <-]. apply (Hframe _ eq_refl). }
    assert (Hbelow_p : below root_dir p).
    { destruct (Hframe _ eq_refl) as [rest Hrest]. simpl in Hrest.
      exists (rest ++ [name]). split; [now destruct rest|].
      unfold p, pathlib.joinpath. now rewrite Hrest, app_assoc. }
    assert (Hrest_pending : forall q, q <> p -> pending w q -> pending w' q).
    { intros q Hq [[fr [Hfr Hcase]]|[d [Hd Hb]]]; [|right; now exists d].
      rewrite Eframe in Hfr. injection Hfr as <-. simpl in Hcase.
      destruct Hcase as [[c [Hc Hqc]]|[c [Hc Hb]]].
      - destruct Hc as [<-|Hc]; [contradiction|].
        left. eexists. split; [reflexivity|]. left. now exists c.
      - left. eexists. split; [reflexivity|]. right. now exists c. }
    destruct (os.is_file (fs st) p) eqn:Efile; cbn [andb negb].
    2:{ (* not a regular file: the name was not pending as a file *)
      split; [assumption|]. split; [assumption|]. split; [assumption|].
      intros q f Hq Hbelow. destruct (Hinv q f Hq Hbelow) as [H|[H|[Hgood H]]]; auto.
      right. right. split; [assumption|]. apply Hrest_pending; [|assumption].
      intros ->. assert (os.is_file (fs st) p = true); [|congruence].
      apply is_file_plain; eauto. }
    apply (is_file_plain _ Hplain Hwf) in Efile. destruct Efile as [g Hg].
    destruct (should_skip p (include_hidden_of w) (exclude_globs_of w)) eqn:Eskip;
      cbn [andb negb].
    { (* skipped *)
      split; [assumption|]. split; [assumption|]. split; [assumption|].
      intros q f Hq Hbelow. destruct (Hinv q f Hq Hbelow) as [H|[H|[Hgood H]]]; auto.
      destruct (list_eq_dec string_dec q p) as [->|Hqp]; [auto|].
      right. right. split; [assumption|]. now apply Hrest_pending. }
    (* yielded *)
    intros count count' st' Hbody.
    rewrite (organize_one_target steps false p count st _ Hplain
               (stat_plain_file _ Hplain Hwf p g Hg)) in Hbody.
    destruct (path_eqb_spec (target_of (fs st) organize_mode organize_dir p) p)
      as [Hplace|Hplace].
    { injection Hbody as _ <-.
      split; [assumption|]. split; [assumption|]. split; [assumption|].
      intros q f Hq Hbelow. destruct (Hinv q f Hq Hbelow) as [H|[H|[Hgood H]]]; auto.
      destruct (list_eq_dec string_dec q p) as [->|Hqp]; [auto|].
      right. right. split; [assumption|]. now apply Hrest_pending. }
    apply bind_ok_inv in Hbody. destruct Hbody as [[] [st1 [Hmove Hret]]].
    injection Hret as _ <-.
    destruct (safe_move_plain_file _ _ _ _ _ _ Hwf Hplain Hg Hmove)
      as [final [Hchoice [Hwf1 [Hplain1 [Hfinal Hothers]]]]].
    assert (Hgood_p : String.eqb organize_mode "ext" = true ->
                      ends_with_dot (pathlib.name p) = false).
    { destruct (Hinv p g Hg Hbelow_p) as [H|[H|[Hgood _]]]; [contradiction|congruence|].
      assumption. }
    split; [assumption|]. split; [assumption|]. split; [assumption|].
    intros q f Hq Hbelow.
    destruct (list_eq_dec string_dec q final) as [->|Hqf].
    { left. rewrite Hfinal in Hq. injection Hq as <-.
      apply (target_of_moved (fs st) (fs st1) p final g); assumption. }
    apply (Hothers q f Hqf) in Hq. destruct Hq as [Hqp Hq].
    destruct (Hinv q f Hq Hbelow) as [H|[H|[Hgood H]]].
    + left.
      assert (Hq1 : node_at (fs st1) q = Some (File f)).
      { apply Hothers; [exact Hqf|]. split; [exact Hqp|exact Hq]. }
      rewrite (target_of_kept (fs st) (fs st1) q f Hwf Hplain Hwf1 Hplain1 Hq Hq1).
      exact H.
    + right. left. exact H.
    + right. right. split; [exact Hgood|]. apply Hrest_pending; [exact Hqp|exact H].
  - destruct (stack w) as [|top rest] eqn:Estack.
    + (* nothing left *)
      intros p f Hp Hbelow. destruct (Hinv p f Hp Hbelow) as [H|[H|[_ H]]]; auto.
      exfalso. destruct H as [[fr [Hfr _]]|[d [Hd _]]]; [congruence|].
      rewrite Estack in Hd. contradiction.
    + (* a directory is listed *)
      assert (Hrest : forall d, In d rest -> under root_dir d)
        by (intros d Hd; apply Hstack; now right).
      assert (Hlisted : forall q f,
                 node_at (fs st) q = Some (File f) -> below top q ->
                 top = [] \/ node_at (fs st) top = Some Dir).
      { intros q f Hq [tail [Htail ->]]. exact (above_file_is_dir _ Hwf _ _ _ Htail Hq). }
      destruct (os.scandir (fs st) top) as [[dirs nondirs]|e] eqn:Escan.
      * split; [assumption|]. split; [assumption|]. split.
        { split; simpl; [assumption|]. intros fr [= <-]. apply Hstack. now left. }
        intros q f Hq Hbelow. destruct (Hinv q f Hq Hbelow) as [H|[H|[Hgood H]]]; auto.
        destruct H as [[fr [Hfr _]]|[d [Hd Hb]]]; [congruence|].
        rewrite Estack in Hd. destruct Hd as [<-|Hd].
        2:{ right. right. split; [assumption|]. right. now exists d. }
        destruct (scandir_plain _ Hplain Hwf top (Hlisted q f Hq Hb))
          as [dirs0 [nondirs0 [Hscan [Hfiles Hdirs]]]].
        rewrite Escan in Hscan. injection Hscan as <- <-.
        destruct Hb as [[|c tail] [Htail ->]]; [contradiction|].
        destruct tail as [|c' tail'].
        { right. right. split; [assumption|]. left. eexists. split; [reflexivity|].
          left. exists c. split; [|reflexivity]. simpl. now apply (Hfiles c f). }
        assert (Hc : node_at (fs st) (top ++ [c]) = Some Dir).
        { apply (well_formed_ancestor _ Hwf (c' :: tail')); [now destruct top|discriminate|].
          rewrite <- app_assoc. apply node_at_keys. simpl. congruence. }
        simpl. destruct (include_hidden_of w) eqn:Ehidden; simpl.
        { right. right. split; [assumption|]. left. eexists. split; [reflexivity|].
          right. exists c. split; [now apply Hdirs|]. simpl.
          exists (c' :: tail'). split; [discriminate|]. now rewrite <- app_assoc. }
        destruct (startswith "." c) eqn:Edot.
        { right. left. unfold should_skip. cbn [negb andb].
          now rewrite is_hidden_component. }
        right. right. split; [assumption|]. left. eexists. split; [reflexivity|].
        right. exists c. split.
        { simpl. apply filter_In. split; [now apply Hdirs | now rewrite Edot]. }
        simpl. exists (c' :: tail'). split; [discriminate|]. now rewrite <- app_assoc.
      * split; [assumption|]. split; [assumption|]. split.
        { split; simpl; [assumption|discriminate]. }
        intros q f Hq Hbelow. destruct (Hinv q f Hq Hbelow) as [H|[H|[Hgood H]]]; auto.
        destruct H as [[fr [Hfr _]]|[d [Hd Hb]]]; [congruence|].
        rewrite Estack in Hd. destruct Hd as [<-|Hd].
        2:{ right. right. split; [assumption|]. right. now exists d. }
        destruct (scandir_plain _ Hplain Hwf top (Hlisted q f Hq Hb))
          as [dirs0 [nondirs0 [Hscan _]]].
        congruence.
Qed.

(** When organize starts, every regular file below the root is still to
    come. *)
Lemma organizing_start (include_hidden : bool) (exclude_globs : list string)
  (st : State) :
  well_formed (fs st) -> no_symlinks (fs st) ->
  (String.eqb organize_mode "ext" = true -> no_trailing_dots (fs st)) ->
  organizing root_dir organize_mode organize_dir
    (iter_files root_dir include_hidden exclude_globs) st.
Proof.
  intros Hwf Hplain Hdots. split; [exact Hwf|]. split; [exact Hplain|]. split.
  - split; simpl; [|discriminate]. intros d [<-|[]]. exists []. now rewrite app_nil_r.
  - intros p f Hp Hbelow. right. right. split.
    + intros Hext. apply (Hdots Hext p f). now apply node_at_In.
    + right. exists root_dir. split; [now left | exact Hbelow].
Qed.

(** When an applied run of the loop returns, every regular file below
    the root is in place or is one that the traversal skips. *)
Lemma organize_loop_settles (steps : nat) :
  forall n w count st count' st',
    organizing root_dir organize_mode organize_dir w st ->
    for_each n w (organize_one steps organize_mode organize_dir false) count st
    = (Ok count', st') ->
    well_formed (fs st') /\ no_symlinks (fs st')
    /\ settled root_dir organize_mode organize_dir
         (include_hidden_of w) (exclude_globs_of w) (fs st').
Proof.
  induction n as [|n IH]; intros w count st count' st' Horg Hrun; [discriminate|].
  cbn [for_each] in Hrun.
  pose proof (organizing_step steps w st Horg) as Hstep.
  pose proof (next_step_flags w (fs st)) as Hflags.
  destruct (next_step w (fs st)) as [p w'|w'|].
  - apply bind_ok_inv in Hrun. destruct Hrun as [count1 [st1 [Hbody Hrun]]].
    destruct Hflags as [<- <-]. apply (IH w' count1 st1 count' st'); [|exact Hrun].
    exact (Hstep count count1 st1 Hbody).
  - destruct Hflags as [<- <-]. exact (IH w' count st count' st' Hstep Hrun).
  - injection Hrun as _ <-. destruct Horg as (Hwf & Hplain & _ & _).
    split; [exact Hwf|]. split; [exact Hplain|]. exact Hstep.
Qed.

(** A file that is in place is left where it is and is not counted. *)
Lemma organize_one_in_place (steps : nat) (dry_run : bool) (p : Path) (count : nat)
  (st : State) (f : FileData) :
  well_formed (fs st) -> no_symlinks (fs st) ->
  node_at (fs st) p = Some (File f) ->
  target_of (fs st) organize_mode organize_dir p = p ->
  organize_one steps organize_mode organize_dir dry_run p count st = (Ok count, st).
Proof.
  intros Hwf Hplain Hp Htarget.
  rewrite (organize_one_target steps dry_run p count st _ Hplain
             (stat_plain_file _ Hplain Hwf p f Hp)).
  rewrite Htarget. now rewrite path_eqb_refl.
Qed.

(** On a tree where every file is in place or skipped, the loop of
    organize changes nothing and counts nothing; it returns when it is
    given more steps than the traversal has to make. *)
Lemma organize_loop_at_rest (steps : nat) (dry_run include_hidden : bool)
  (exclude_globs : list string) (st : State) :
  well_formed (fs st) -> no_symlinks (fs st) ->
  settled root_dir organize_mode organize_dir include_hidden exclude_globs (fs st) ->
  forall n,
    let loop :=
      for_each n (iter_files root_dir include_hidden exclude_globs)
        (organize_one steps organize_mode organize_dir dry_run) 0 st in
    (loop = (Ok 0, st) \/ loop = (OutOfSteps, st))
    /\ (remaining (fs st) (iter_files root_dir include_hidden exclude_globs) < n ->
        loop = (Ok 0, st)).
Proof.
  intros Hwf Hplain Hsettled n.
  pose (J := fun w : Walk =>
               walk_under root_dir w /\ include_hidden_of w = include_hidden
               /\ exclude_globs_of w = exclude_globs).
  assert (Hstep : forall w, J w ->
            match next_step w (fs st) with
            | Yield p w' =>
                organize_one steps organize_mode organize_dir dry_run p 0 st = (Ok 0, st)
                /\ J w'
            | Skip w' => J w'
            | Stop => True
            end).
  { intros w (Hunder & Hih & Heg).
    pose proof (walk_under_step root_dir w (fs st) Hunder) as Hu.
    pose proof (next_step_flags w (fs st)) as Hflags.
    destruct (next_step w (fs st)) as [p w'|w'|] eqn:E; [| |exact I].
    - destruct Hu as [Hu Hbelow]. destruct Hflags as [Hih' Heg'].
      split; [|split; [exact Hu|split; congruence]].
      destruct (next_step_yield _ _ _ _ E) as [Hfile [Hskip _]].
      apply (is_file_plain _ Hplain Hwf) in Hfile. destruct Hfile as [f Hf].
      rewrite Hih, Heg in Hskip.
      destruct (Hsettled p f Hf Hbelow) as [Hplace|Hskipped]; [|congruence].
      exact (organize_one_in_place steps dry_run p 0 st f Hwf Hplain Hf Hplace).
    - destruct Hflags as [Hih' Heg']. split; [exact Hu|split; congruence]. }
  assert (Hstart : J (iter_files root_dir include_hidden exclude_globs)).
  { split; [|now split]. split; simpl; [|discriminate].
    intros d [<-|[]]. exists []. now rewrite app_nil_r. }
  destruct (for_each_at_rest _ J 0 st Hstep n _ Hstart) as [H1 H2].
  split; [exact H1|]. intros Hlt. now apply H2.
Qed.

End Organize.

(** ** Organize twice *)

(** C6 (amended).  On a well-formed tree without symbolic links (and, when
    files are organized by extension, without regular files whose name
    ends in a dot), once an applied run of organize has returned, a run
    on the tree that it left, applied or dry, with the same options,
    moves nothing: it counts zero files, prints that there is nothing to
    organize and leaves the state as it is otherwise; it returns as soon
    as it is given the steps that the traversal needs. *)
Theorem organize_twice_moves_nothing {platform : Platform} (steps : nat)
  (root_dir : Path) (organize_mode : string) (organize_dir : Path)
  (include_hidden : bool) (exclude_globs : list string)
  (st st1 : State) (moved : nat) :
  organize_mode = "ext" \/ organize_mode = "date" ->
  well_formed (fs st) -> no_symlinks (fs st) ->
  (organize_mode = "ext" -> no_trailing_dots (fs st)) ->
  organize_files steps root_dir organize_mode organize_dir include_hidden
    exclude_globs false st = (Ok moved, st1) ->
  forall st2,
    fs st2 = fs st1 ->
    let nothing := printing ["No files to organize or already organized."] st2 in
    (forall steps' dry_run,
        let again :=
          organize_files steps' root_dir organize_mode organize_dir include_hidden
            exclude_globs dry_run st2 in
        again = (Ok 0, nothing) \/ again = (OutOfSteps, st2))
    /\ (exists enough,
          forall steps' dry_run,
            enough <= steps' ->
            organize_files steps' root_dir organize_mode organize_dir include_hidden
              exclude_globs dry_run st2 = (Ok 0, nothing)).
Proof.
  intros Hmode Hwf Hplain Hdots Hrun st2 Hfs nothing.
  assert (Hmode' : String.eqb organize_mode "ext" = true
                   \/ String.eqb organize_mode "date" = true)
    by (destruct Hmode as [-> | ->]; [left|right]; reflexivity).
  unfold organize_files in Hrun. apply bind_ok_inv in Hrun.
  destruct Hrun as [count [st' [Hloop Hrest]]].
  assert (Hfs' : fs st1 = fs st').
  { destruct (count =? 0); cbv [bind print ret] in Hrest;
      injection Hrest as _ <-; reflexivity. }
  assert (Hstart : organizing root_dir organize_mode organize_dir
                     (iter_files root_dir include_hidden exclude_globs) st).
  { apply organizing_start; [exact Hwf | exact Hplain|].
    intros Hext. apply Hdots. now apply String.eqb_eq. }
  destruct (organize_loop_settles root_dir organize_mode organize_dir Hmode' steps
              steps _ 0 st count st' Hstart Hloop) as (Hwf' & Hplain' & Hsettled).
  cbn [iter_files include_hidden_of exclude_globs_of] in Hsettled.
  rewrite <- Hfs', <- Hfs in Hwf', Hplain', Hsettled.
  assert (Hrest2 := fun steps' dry_run =>
            organize_loop_at_rest root_dir organize_mode organize_dir Hmode' steps'
              dry_run include_hidden exclude_globs st2 Hwf' Hplain' Hsettled steps').
  cbv zeta in Hrest2. split.
  - intros steps' dry_run again. subst again. unfold organize_files.
    destruct (Hrest2 steps' dry_run) as [[H|H] _].
    + left. rewrite (bind_ok _ _ _ _ _ H). reflexivity.
    + right. rewrite (bind_out_of_steps _ _ _ _ H). reflexivity.
  - exists (S (remaining (fs st2) (iter_files root_dir include_hidden exclude_globs))).
    intros steps' dry_run Hle. unfold organize_files.
    destruct (Hrest2 steps' dry_run) as [_ H].
    rewrite (bind_ok _ _ _ _ _ (H Hle)). reflexivity.
Qed.

(** ** Loops over the traversal of a tree at rest *)

Section WalkList.

Context {platform : Platform}.

Lemma walk_list_total (fs : FS) :
  no_symlinks fs ->
  forall steps w, remaining fs w < steps -> exists l, walk_list steps w fs = Some l.
Proof.
  intros Hplain. induction steps as [|steps IH]; intros w Hlt; [inversion Hlt|].
  cbn [walk_list]. pose proof (next_step_remaining fs w Hplain) as Hless.
  destruct (next_step w fs) as [p w'|w'|].
  - destruct (IH w' ltac:(lia)) as [l ->]. now exists (p :: l).
  - apply IH. lia.
  - now exists [].
Qed.

Lemma walk_list_more (fs : FS) :
  forall steps w l,
    walk_list steps w fs = Some l ->
    forall steps', steps <= steps' -> walk_list steps' w fs = Some l.
Proof.
  induction steps as [|steps IH]; intros w l H steps' Hle; [discriminate|].
  destruct steps' as [|steps']; [inversion Hle|]. cbn [walk_list] in *.
  destruct (next_step w fs) as [p w'|w'|].
  - destruct (walk_list steps w' fs) as [l'|] eqn:E; [|discriminate].
    now rewrite (IH w' l' E steps' ltac:(lia)).
  - apply (IH w' l H). lia.
  - assumption.
Qed.

(** A loop over the generator whose body leaves the file system as it is
    runs its body on the paths of [walk_list], in order. *)
Lemma for_each_walk_list {A : Type} (body : Path -> A -> M A) :
  (forall p acc st, fs (snd (body p acc st)) = fs st) ->
  forall steps w acc st l,
    walk_list steps w (fs st) = Some l ->
    for_each steps w body acc st = for_list l body acc st.
Proof.
  intros Hbody. induction steps as [|steps IH]; intros w acc st l H; [discriminate|].
  cbn [walk_list for_each] in *.
  destruct (next_step w (fs st)) as [p w'|w'|].
  - destruct (walk_list steps w' (fs st)) as [l'|] eqn:E; [|discriminate].
    injection H as <-. cbn [for_list]. unfold bind.
    pose proof (Hbody p acc st) as Hfs.
    destruct (body p acc st) as [[acc1|e|] st1]; try reflexivity.
    apply IH. simpl in Hfs. now rewrite Hfs.
  - now apply IH.
  - now injection H as <-.
Qed.

Lemma for_each_out_of_steps {A : Type} (body : Path -> A -> M A) :
  (forall p acc st, exists acc', body p acc st = (Ok acc', st)) ->
  forall steps w acc st,
    walk_list steps w (fs st) = None ->
    for_each steps w body acc st = (OutOfSteps, st).
Proof.
  intros Hbody. induction steps as [|steps IH]; intros w acc st H; [reflexivity|].
  cbn [walk_list for_each] in *.
  destruct (next_step w (fs st)) as [p w'|w'|].
  - destruct (walk_list steps w' (fs st)) as [l'|] eqn:E; [discriminate|].
    destruct (Hbody p acc st) as [acc' Hb]. rewrite (bind_ok _ _ _ _ _ Hb).
    now apply IH.
  - now apply IH.
  - discriminate.
Qed.

Lemma collect_list (l : list Path) :
  forall acc st,
    for_list l (fun file_path yielded => ret (yielded ++ [file_path])) acc st
    = (Ok (acc ++ l), st).
Proof.
  induction l as [|p l IH]; intros acc st; simpl.
  - now rewrite app_nil_r.
  - unfold bind, ret. fold (@ret (list Path)). rewrite IH. now rewrite <- app_assoc.
Qed.

Lemma list_files_walk_list (steps : nat) (w : Walk) (st : State) :
  list_files steps w st
  = match walk_list steps w (fs st) with
    | Some l => (Ok l, st)
    | None => (OutOfSteps, st)
    end.
Proof.
  unfold list_files. destruct (walk_list steps w (fs st)) as [l|] eqn:E.
  - rewrite (for_each_walk_list (fun file_path yielded => ret (yielded ++ [file_path]))
               (fun p acc st' => eq_refl) steps w [] st l E).
    apply collect_list.
  - apply for_each_out_of_steps; [|assumption]. intros p acc st'. now eexists.
Qed.

End WalkList.

Section WalkListPlain.

Context {platform : Platform}.

(** What the generator yields passes [is_file], is not to be skipped and
    lies below the root. *)
Lemma walk_list_sound (root_dir : Path) (fs : FS) :
  forall steps w l,
    walk_under root_dir w ->
    walk_list steps w fs = Some l ->
    forall p, In p l ->
      os.is_file fs p = true
      /\ should_skip p (include_hidden_of w) (exclude_globs_of w) = false
      /\ below root_dir p.
Proof.
  induction steps as [|steps IH]; intros w l Hunder H p Hp; [discriminate|].
  cbn [walk_list] in H.
  pose proof (walk_under_step root_dir w fs Hunder) as Hu.
  pose proof (next_step_flags w fs) as Hflags.
  destruct (next_step w fs) as [p' w'|w'|] eqn:E.
  - destruct (walk_list steps w' fs) as [l'|] eqn:El; [|discriminate].
    injection H as <-. destruct Hu as [Hu Hbelow]. destruct Hflags as [Hih Heg].
    destruct Hp as [<-|Hp].
    + destruct (next_step_yield _ _ _ _ E) as [Hfile [Hskip _]]. auto.
    + rewrite <- Hih, <- Heg. exact (IH w' l' Hu El p Hp).
  - destruct Hflags as [Hih Heg]. rewrite <- Hih, <- Heg. exact (IH w' l Hu H p Hp).
  - injection H as <-. contradiction.
Qed.

Variable fs : FS.
Hypothesis Hplain : no_symlinks fs.
Hypothesis Hwf : well_formed fs.



End WalkListPlain.

(** ** What the traversal yields *)

(** A sample file system has no symbolic link. *)
Ltac no_symlinks_sample :=
  let k := fresh "k" in
  let t := fresh "t" in
  let H := fresh "H" in
  intros k t H; simpl in H;
  repeat (destruct H as [H|H]; [discriminate|]); exact H.

Lemma is_hidden_below (root_dir p : Path) :
  is_hidden root_dir = true -> below root_dir p -> is_hidden p = true.
Proof.
  unfold is_hidden, pathlib.parts. intros Hroot [rest [_ ->]].
  apply existsb_exists in Hroot. destruct Hroot as [part [Hin Hdot]].
  apply existsb_exists. exists part. split; [|assumption].
  destruct Hin as [<-|Hin]; [now left|]. right. apply in_or_app. now left.
Qed.

(** X2.  [is_hidden] looks at every component of the path, those of the
    root included: when the root itself has a component that starts with
    a dot and hidden files are not included, the traversal yields nothing
    and the body of a loop over it never runs. *)
Theorem hidden_root_yields_nothing {platform : Platform} {A : Type}
  (root_dir : Path) (exclude_globs : list string) (body : Path -> A -> M A)
  (acc : A) (steps : nat) (st : State) :
  is_hidden root_dir = true ->
  let loop := for_each steps (iter_files root_dir false exclude_globs) body acc st in
  (loop = (Ok acc, st) \/ loop = (OutOfSteps, st))
  /\ (list_files steps (iter_files root_dir false exclude_globs) st = (Ok [], st)
      \/ list_files steps (iter_files root_dir false exclude_globs) st
         = (OutOfSteps, st)).
Proof.
  intros Hhidden loop.
  pose (J := fun w : Walk =>
               walk_under root_dir w /\ include_hidden_of w = false
               /\ exclude_globs_of w = exclude_globs).
  assert (Hstart : J (iter_files root_dir false exclude_globs)).
  { split; [|now split]. split; simpl; [|discriminate].
    intros d [<-|[]]. exists []. now rewrite app_nil_r. }
  assert (Hstep : forall (B : Type) (b : Path -> B -> M B) (a : B) w, J w ->
            match next_step w (fs st) with
            | Yield p w' => b p a st = (Ok a, st) /\ J w'
            | Skip w' => J w'
            | Stop => True
            end).
  { intros B b a w (Hunder & Hih & Heg).
    pose proof (walk_under_step root_dir w (fs st) Hunder) as Hu.
    pose proof (next_step_flags w (fs st)) as Hflags.
    destruct (next_step w (fs st)) as [p w'|w'|] eqn:E; [| |exact I].
    - exfalso. destruct Hu as [_ Hbelow].
      destruct (next_step_yield _ _ _ _ E) as [_ [Hskip _]].
      unfold should_skip in Hskip.
      now rewrite Hih, (is_hidden_below root_dir p Hhidden Hbelow) in Hskip.
    - destruct Hflags as [Hih' Heg']. split; [exact Hu|split; congruence]. }
  split.
  - exact (proj1 (for_each_at_rest body J acc st (Hstep A body acc) steps _ Hstart)).
  - exact (proj1 (for_each_at_rest _ J [] st (Hstep _ _ []) steps _ Hstart)).
Qed.

Lemma hidden_root_yields_nothing_witness :
  let loop :=
    @for_each sample_platform nat 9 (iter_files [".cache"] false [])
      (fun _ count => ret (count + 1)) 0 (initial fs_hidden) in
  (loop = (Ok 0, initial fs_hidden) \/ loop = (OutOfSteps, initial fs_hidden))
  /\ (@list_files sample_platform 9 (iter_files [".cache"] false []) (initial fs_hidden)
      = (Ok [], initial fs_hidden)
      \/ @list_files sample_platform 9 (iter_files [".cache"] false []) (initial fs_hidden)
         = (OutOfSteps, initial fs_hidden)).
Proof.
  exact (@hidden_root_yields_nothing sample_platform nat [".cache"] []
           (fun _ count => ret (count + 1)) 0 9 (initial fs_hidden) eq_refl).
Defined.

(** ** Grouping loops *)

Section Grouping.

Variables K A : Type.
Variable eqb : K -> K -> bool.
Hypothesis eqb_eq : forall a b, eqb a b = true <-> a = b.
Variable key : A -> option K.

Lemma setdefault_append_fresh (k : K) (x : A) (d : Dict K (list A)) :
  map fst (setdefault_append eqb k x d) = map fst d
  \/ (~ In k (map fst d) /\ map fst (setdefault_append eqb k x d) = map fst d ++ [k]).
Proof.
  induction d as [|[k' xs] d IH]; simpl; [right; split; auto|].
  destruct (eqb k' k) eqn:E; simpl; [now left|].
  destruct IH as [->|[Hnew ->]]; [now left|]. right. split; [|reflexivity].
  intros [->|H]; [|contradiction].
  assert (eqb k k = true) by now apply eqb_eq. congruence.
Qed.

Lemma setdefault_append_NoDup (k : K) (x : A) (d : Dict K (list A)) :
  NoDup (map fst d) -> NoDup (map fst (setdefault_append eqb k x d)).
Proof.
  intros Hd. destruct (setdefault_append_fresh k x d) as [->|[Hnew ->]]; [assumption|].
  apply NoDup_app; [assumption | repeat constructor; intros [] | ].
  intros a Ha [<-|[]]. contradiction.
Qed.

Lemma setdefault_append_added (k : K) (x : A) (d : Dict K (list A)) :
  exists xs, In (k, xs ++ [x]) (setdefault_append eqb k x d).
Proof.
  induction d as [|[k' xs] d IH]; simpl; [exists []; now left|].
  destruct (eqb k' k) eqn:E.
  - apply eqb_eq in E. subst k'. exists xs. now left.
  - destruct IH as [xs' H]. exists xs'. now right.
Qed.

Lemma setdefault_append_kept (k : K) (x : A) (d : Dict K (list A)) (k' : K)
  (xs : list A) :
  In (k', xs) d ->
  exists xs', In (k', xs') (setdefault_append eqb k x d) /\ incl xs xs'.
Proof.
  induction d as [|[k0 xs0] d IH]; simpl; [contradiction|].
  intros [[= -> ->]|H].
  - destruct (eqb k' k); eexists; (split; [now left|]);
      [apply incl_appl | ]; apply incl_refl.
  - destruct (eqb k0 k).
    + exists xs. split; [now right | apply incl_refl].
    + destruct (IH H) as [xs' [H1 H2]]. exists xs'. split; [now right | assumption].
Qed.

Lemma setdefault_append_from (k : K) (x : A) (d : Dict K (list A)) (k' : K)
  (xs' : list A) (y : A) :
  In (k', xs') (setdefault_append eqb k x d) -> In y xs' ->
  (exists xs, In (k', xs) d /\ In y xs) \/ (k' = k /\ y = x).
Proof.
  induction d as [|[k0 xs0] d IH]; simpl.
  - intros [[= <- <-]|[]] [<-|[]]. now right.
  - destruct (eqb k0 k) eqn:E; simpl.
    + intros [[= <- <-]|H] Hy.
      * apply eqb_eq in E. apply in_app_or in Hy. destruct Hy as [Hy|[<-|[]]].
        -- left. exists xs0. split; [now left | assumption].
        -- now right.
      * left. exists xs'. split; [now right | assumption].
    + intros [[= <- <-]|H] Hy.
      * left. exists xs0. split; [now left | assumption].
      * destruct (IH H Hy) as [[xs [H1 H2]]|H1]; [|now right].
        left. exists xs. split; [now right | assumption].
Qed.

(** What a grouping loop leaves: every key once; every member with a key
    under its key; and nothing under a key but members with that key. *)
Lemma fold_group_step (l : list A) :
  forall d,
    NoDup (map fst d) ->
    let d' := fold_left (group_step eqb key) l d in
    NoDup (map fst d')
    /\ (forall k xs, In (k, xs) d -> exists xs', In (k, xs') d' /\ incl xs xs')
    /\ (forall x k, In x l -> key x = Some k -> exists xs, In (k, xs) d' /\ In x xs)
    /\ (forall k xs x, In (k, xs) d' -> In x xs ->
                       (exists xs0, In (k, xs0) d /\ In x xs0)
                       \/ (In x l /\ key x = Some k)).
Proof.
  induction l as [|a l IH]; intros d Hd; simpl.
  - split; [assumption|]. split; [|split].
    + intros k xs H. exists xs. split; [assumption | apply incl_refl].
    + contradiction.
    + intros k xs x H Hx. left. now exists xs.
  - assert (Hd1 : NoDup (map fst (group_step eqb key d a))).
    { unfold group_step. destruct (key a); [now apply setdefault_append_NoDup | assumption]. }
    destruct (IH _ Hd1) as (Hnd & Hkept & Hin & Hfrom).
    split; [assumption|]. split; [|split].
    + intros k xs H.
      assert (H1 : exists xs1, In (k, xs1) (group_step eqb key d a) /\ incl xs xs1).
      { unfold group_step. destruct (key a) as [ka|].
        - now apply setdefault_append_kept.
        - exists xs. split; [assumption | apply incl_refl]. }
      destruct H1 as [xs1 [H1 Hi1]]. destruct (Hkept _ _ H1) as [xs' [H2 Hi2]].
      exists xs'. split; [assumption|]. eapply incl_tran; eassumption.
    + intros x k [<-|Hx] Hk; [|now apply Hin].
      assert (Hstep : group_step eqb key d a = setdefault_append eqb k a d)
        by (unfold group_step; now rewrite Hk).
      destruct (setdefault_append_added k a d) as [xs0 H0]. rewrite <- Hstep in H0.
      destruct (Hkept _ _ H0) as [xs' [H1 Hi]]. exists xs'. split; [assumption|].
      apply Hi. apply in_or_app. right. now left.
    + intros k xs x H Hx. destruct (Hfrom k xs x H Hx) as [[xs0 [H0 Hx0]]|[Hl Hk]].
      * unfold group_step in H0. destruct (key a) as [ka|] eqn:Eka.
        -- destruct (setdefault_append_from _ _ _ _ _ _ H0 Hx0) as [H1|[-> ->]];
             [now left | right; split; [now left | exact Eka]].
        -- left. now exists xs0.
      * right. split; [now right | assumption].
Qed.

Lemma grouped_spec (l : list A) :
  NoDup (map fst (grouped eqb key l))
  /\ (forall x k, In x l -> key x = Some k ->
                  exists xs, In (k, xs) (grouped eqb key l) /\ In x xs)
  /\ (forall k xs x, In (k, xs) (grouped eqb key l) -> In x xs ->
                     In x l /\ key x = Some k).
Proof.
  destruct (fold_group_step l [] (NoDup_nil _)) as (Hnd & _ & Hin & Hfrom).
  split; [assumption|]. split; [assumption|].
  intros k xs x H Hx. destruct (Hfrom k xs x H Hx) as [[xs0 [[] _]]|H1]. assumption.
Qed.

End Grouping.

(** ** [find_duplicates] *)


Lemma NoDup_keys_filter {K V : Type} (keep : K * V -> bool) (d : list (K * V)) :
  NoDup (map fst d) -> NoDup (map fst (filter keep d)).
Proof.
  induction d as [|[k v] d IH]; simpl; [constructor|].
  intros H. inversion H as [|? ? Hk Hd]; subst.
  destruct (keep (k, v)); simpl; [|now apply IH].
  constructor; [|now apply IH]. intros Hin. apply Hk.
  apply in_map_iff in Hin. destruct Hin as [[k' v'] [Hfst Hin]].
  apply filter_In in Hin. apply in_map_iff. exists (k', v'). tauto.
Qed.

Lemma for_list_fold {A B : Type} (l : list A) (body : A -> B -> M B)
  (step : B -> A -> B) (st : State) :
  (forall x acc, body x acc st = (Ok (step acc x), st)) ->
  forall acc, for_list l body acc st = (Ok (fold_left step l acc), st).
Proof.
  intros Hbody. induction l as [|x l IH]; intros acc; simpl; [reflexivity|].
  rewrite (bind_ok _ _ _ _ _ (Hbody x acc)). apply IH.
Qed.

Section FindDuplicates.

Context {platform : Platform}.

Lemma group_files_by_size_eq (steps : nat) (w : Walk) (st : State) :
  group_files_by_size steps w st
  = match walk_list steps w (fs st) with
    | Some l => (Ok (grouped Nat.eqb (size_of (fs st)) l), st)
    | None => (OutOfSteps, st)
    end.
Proof.
  unfold group_files_by_size.
  set (body := fun (file_path : Path) (size_to_files : Dict nat (list Path)) =>
                 try_OSError
                   (st0 <- syscall (fun fs => os.stat fs file_path) file_path ;;
                    ret (setdefault_append Nat.eqb (fst st0) file_path size_to_files))
                   (fun _ => ret size_to_files)).
  assert (Hbody : forall p acc st0,
             body p acc st0 = (Ok (group_step Nat.eqb (size_of (fs st0)) acc p), st0)).
  { intros p acc st0. unfold body, try_OSError, bind, syscall, ret, group_step, size_of.
    now destruct (os.stat (fs st0) p). }
  destruct (walk_list steps w (fs st)) as [l|] eqn:E.
  - rewrite (for_each_walk_list body) with (l := l); [|intros; now rewrite Hbody|exact E].
    apply for_list_fold. intros x acc. apply Hbody.
  - apply for_each_out_of_steps; [|exact E]. intros p acc st0. rewrite Hbody. now eexists.
Qed.

Lemma hash_member_eq (path : Path) (hash_to_files : Dict string (list Path))
  (st : State) :
  hash_member path hash_to_files st
  = (Ok (group_step String.eqb (digest_of (fs st)) hash_to_files path),
     hashing [path] st).
Proof.
  unfold hash_member, try_OSError, compute_file_hash, bind, syscall, ret, group_step,
    digest_of, content_digest, hashing. simpl.
  now destruct (os.read_bytes (fs st) path).
Qed.

Lemma hash_members_eq (paths : list Path) :
  forall hash_to_files st,
    for_list paths hash_member hash_to_files st
    = (Ok (fold_left (group_step String.eqb (digest_of (fs st))) paths hash_to_files),
       hashing paths st).
Proof.
  induction paths as [|p paths IH]; intros d st; simpl.
  - now rewrite hashing_nil.
  - rewrite (bind_ok _ _ _ _ _ (hash_member_eq p d st)). rewrite IH.
    now rewrite hashing_app.
Qed.

Lemma hash_buckets_eq (sizes : Dict nat (list Path)) :
  forall hash_to_files st,
    for_list sizes hash_bucket hash_to_files st
    = (Ok (fold_left (group_step String.eqb (digest_of (fs st))) (to_hash sizes)
             hash_to_files),
       hashing (to_hash sizes) st).
Proof.
  induction sizes as [|[size paths] sizes IH]; intros d st; simpl.
  - now rewrite hashing_nil.
  - unfold hash_bucket at 1. cbn [snd]. destruct (length paths <? 2).
    + rewrite (bind_ok _ _ _ _ _ (eq_refl : ret d st = (Ok d, st))). apply IH.
    + rewrite (bind_ok _ _ _ _ _ (hash_members_eq paths d st)). rewrite IH.
      rewrite fold_left_app. now rewrite hashing_app.
Qed.

(** [find_duplicates] on the paths that the traversal yields. *)
Lemma find_duplicates_eq (steps : nat) (root_dir : Path) (include_hidden : bool)
  (exclude_globs : list string) (st : State) :
  find_duplicates steps root_dir include_hidden exclude_globs st
  = match walk_list steps (iter_files root_dir include_hidden exclude_globs) (fs st) with
    | Some l =>
        let sizes := grouped Nat.eqb (size_of (fs st)) l in
        (Ok (filter (fun h_ps => 1 <? length (snd h_ps))
               (grouped String.eqb (digest_of (fs st)) (to_hash sizes))),
         hashing (to_hash sizes) st)
    | None => (OutOfSteps, st)
    end.
Proof.
  unfold find_duplicates. unfold bind at 1. rewrite group_files_by_size_eq.
  destruct (walk_list steps _ (fs st)) as [l|]; [|reflexivity].
  unfold bind. now rewrite hash_buckets_eq.
Qed.

End FindDuplicates.

(** X3.  The hashing stage of [find_duplicates] never raises.  A member
    whose content cannot be read is left out of the groups ([except
    (OSError, PermissionError): continue]) and the loop goes on to the
    next; a member that is read is appended to the group of its digest.
    So, whatever the buckets hold, the stage returns: it has tried the
    members of the buckets of two or more, in order, and has left the
    output and the file system as they were. *)
Theorem hashing_never_raises {platform : Platform} (sizes : Dict nat (list Path))
  (hash_to_files : Dict string (list Path)) (st : State) :
  (forall path h st0,
      hash_member path h st0
      = (Ok (match os.read_bytes (fs st0) path with
             | os.Success data =>
                 setdefault_append String.eqb (content_digest data) path h
             | os.Failure _ => h
             end),
         hashing [path] st0))
  /\ for_list sizes hash_bucket hash_to_files st
     = (Ok (fold_left (group_step String.eqb (digest_of (fs st))) (to_hash sizes)
              hash_to_files),
        hashing (to_hash sizes) st)
  /\ fs (hashing (to_hash sizes) st) = fs st
  /\ out (hashing (to_hash sizes) st) = out st.
Proof.
  split; [|split; [apply hash_buckets_eq | split; reflexivity]].
  intros path h st0. rewrite hash_member_eq. unfold group_step, digest_of.
  now destruct (os.read_bytes (fs st0) path).
Qed.

Lemma hashing_never_raises_witness :
  @hash_member sample_platform ["r"; "a.txt"] [] (initial fs_unreadable)
  = (Ok [], hashing [["r"; "a.txt"]] (initial fs_unreadable))
  /\ @hash_member sample_platform ["r"; "b.txt"] [] (initial fs_unreadable)
     = (Ok [(string_of_list_byte (text "public"), [["r"; "b.txt"]])],
        hashing [["r"; "b.txt"]] (initial fs_unreadable)).
Proof.
  split.
  - rewrite (proj1 (@hashing_never_raises sample_platform [] [] (initial fs_unreadable))).
    reflexivity.
  - rewrite (proj1 (@hashing_never_raises sample_platform [] [] (initial fs_unreadable))).
    reflexivity.
Defined.

(** X4.  The groups that [find_duplicates] returns have distinct digests
    and two members or more; every member is a path that the traversal
    yielded (a file below the root that is not skipped) and whose content,
    read in chunks, has the digest of its group. *)
Theorem find_duplicates_groups_share_digest {platform : Platform} (steps : nat)
  (root_dir : Path) (include_hidden : bool) (exclude_globs : list string)
  (st st' : State) (duplicates : Dict string (list Path)) :
  find_duplicates steps root_dir include_hidden exclude_globs st = (Ok duplicates, st') ->
  NoDup (map fst duplicates)
  /\ forall digest paths,
       In (digest, paths) duplicates ->
       2 <= length paths
       /\ forall p,
            In p paths ->
            digest_of (fs st) p = Some digest
            /\ os.is_file (fs st) p = true
            /\ below root_dir p
            /\ should_skip p include_hidden exclude_globs = false.
Proof.
  rewrite find_duplicates_eq.
  set (w := iter_files root_dir include_hidden exclude_globs).
  destruct (walk_list steps w (fs st)) as [l|] eqn:El; [|discriminate].
  cbv zeta. intros [= <- <-].
  set (sizes := grouped Nat.eqb (size_of (fs st)) l).
  destruct (grouped_spec _ _ Nat.eqb Nat.eqb_eq (size_of (fs st)) l)
    as (_ & _ & Hsizes).
  destruct (grouped_spec _ _ String.eqb String.eqb_eq (digest_of (fs st)) (to_hash sizes))
    as (Hnd & _ & Hfrom).
  split; [now apply NoDup_keys_filter|].
  intros digest paths Hin. apply filter_In in Hin. destruct Hin as [Hin Hlen].
  simpl in Hlen. apply Nat.ltb_lt in Hlen. split; [lia|].
  intros p Hp. destruct (Hfrom digest paths p Hin Hp) as [Hhashed Hdigest].
  split; [assumption|].
  destruct (in_to_hash sizes p Hhashed) as [size [ps [Hb [Hpb _]]]].
  destruct (Hsizes size ps p Hb Hpb) as [Hl _].
  assert (Hunder : walk_under root_dir w).
  { split; simpl; [|discriminate]. intros d [<-|[]]. exists []. now rewrite app_nil_r. }
  destruct (walk_list_sound root_dir (fs st) steps w l Hunder El p Hl) as [H1 [H2 H3]].
  auto.
Qed.

Lemma find_duplicates_groups_share_digest_witness :
  exists duplicates st',
    @find_duplicates sample_platform 20 ["r"] false [] (initial fs_duplicates)
    = (Ok duplicates, st')
    /\ NoDup (map fst duplicates)
    /\ forall digest paths,
         In (digest, paths) duplicates ->
         2 <= length paths
         /\ forall p,
              In p paths ->
              @digest_of sample_platform fs_duplicates p = Some digest
              /\ os.is_file fs_duplicates p = true
              /\ below ["r"] p
              /\ @should_skip sample_platform p false [] = false.
Proof.
  destruct (@find_duplicates sample_platform 20 ["r"] false [] (initial fs_duplicates))
    as [o st'] eqn:E.
  assert (Ho : exists duplicates, o = Ok duplicates)
    by (vm_compute in E; injection E as <- _; eexists; reflexivity).
  destruct Ho as [duplicates ->]. exists duplicates, st'. split; [reflexivity|].
  exact (@find_duplicates_groups_share_digest sample_platform 20 ["r"] false []
           (initial fs_duplicates) st' duplicates E).
Defined.



Section NoDuplicates.

Context {platform : Platform}.

Lemma to_hash_singletons (sizes : Dict nat (list Path)) :
  (forall size paths, In (size, paths) sizes -> length paths < 2) ->
  to_hash sizes = [].
Proof.
  induction sizes as [|[size paths] sizes IH]; intros H; simpl; [reflexivity|].
  pose proof (H size paths (or_introl eq_refl)) as Hlen.
  apply Nat.ltb_lt in Hlen. rewrite Hlen. simpl.
  apply IH. intros s ps Hin. apply (H s ps). now right.
Qed.

End NoDuplicates.

(** X6.  When every size bucket of the first stage has a single member
    (no two scanned files have the same size), dedupe finds no duplicate
    and does nothing, whatever the mode and the apply flag: nothing is
    hashed, moved or deleted, the message is printed and [(0, 0)] is
    returned. *)
Theorem dedupe_unique_sizes_does_nothing {platform : Platform} (steps : nat)
  (root_dir : Path) (mode : string) (duplicates_dir : Path) (include_hidden : bool)
  (exclude_globs : list string) (dry_run : bool) (st st1 : State)
  (sizes : Dict nat (list Path)) :
  group_files_by_size steps (iter_files root_dir include_hidden exclude_globs) st
  = (Ok sizes, st1) ->
  (forall size paths, In (size, paths) sizes -> length paths < 2) ->
  dedupe_action steps root_dir mode duplicates_dir include_hidden exclude_globs dry_run st
  = (Ok (0, 0), printing ["No duplicates found."] st).
Proof.
  intros Hgroup Hsingle. unfold dedupe_action.
  assert (Hfind : find_duplicates steps root_dir include_hidden exclude_globs st
                  = (Ok [], st)).
  { rewrite find_duplicates_eq. rewrite group_files_by_size_eq in Hgroup.
    destruct (walk_list steps _ (fs st)) as [l|]; [|discriminate].
    injection Hgroup as <- _. cbv zeta.
    rewrite (to_hash_singletons _ Hsingle). now rewrite hashing_nil. }
  now rewrite (bind_ok _ _ _ _ _ Hfind).
Qed.

Lemma dedupe_unique_sizes_does_nothing_witness :
  @dedupe_action sample_platform 20 ["r"] "delete" ["r"; "_duplicates"] false [] false
    (initial fs_sizes)
  = (Ok (0, 0), printing ["No duplicates found."] (initial fs_sizes)).
Proof.
  destruct (@group_files_by_size sample_platform 20 (iter_files ["r"] false [])
              (initial fs_sizes)) as [o st1] eqn:E.
  assert (Ho : o = Ok [(1, [["r"; "a.txt"]]); (2, [["r"; "b.txt"]]);
                       (3, [["r"; "c.txt"]])])
    by (vm_compute in E; now injection E as <- _).
  subst o.
  apply (@dedupe_unique_sizes_does_nothing sample_platform 20 ["r"] "delete"
           ["r"; "_duplicates"] false [] false (initial fs_sizes) st1 _ E).
  intros size paths H. simpl in H.
  repeat (destruct H as [H|H]; [injection H as <- <-; simpl; lia|]). contradiction.
Defined.

(** ** [ensure_directory] *)

(** A resolution that did not reach a directory does not get further. *)
Lemma namei_snoc_stuck (fs : FS) (c : string) :
  forall links cur rest,
    match namei links fs cur rest with
    | Found _ Dir => True
    | Found _ _ => namei links fs cur (rest ++ [c]) = Unreachable ENOTDIR
    | Vacant _ => namei links fs cur (rest ++ [c]) = Unreachable ENOENT
    | Unreachable e => namei links fs cur (rest ++ [c]) = Unreachable e
    end.
Proof.
  apply (namei_ind fs (fun links cur rest =>
           match namei links fs cur rest with
           | Found _ Dir => True
           | Found _ _ => namei links fs cur (rest ++ [c]) = Unreachable ENOTDIR
           | Vacant _ => namei links fs cur (rest ++ [c]) = Unreachable ENOENT
           | Unreachable e => namei links fs cur (rest ++ [c]) = Unreachable e
           end)).
  - intros links cur. now rewrite namei_nil.
  - intros links cur c0 rest IHd IHl. simpl. rewrite !namei_cons.
    destruct (node_at fs (cur ++ [c0])) as [[f| |t|]|] eqn:E.
    + now destruct rest.
    + exact (IHd eq_refl).
    + destruct links as [|links']; [reflexivity|].
      rewrite app_assoc. exact (IHl t links' eq_refl eq_refl).
    + now destruct rest.
    + now destruct rest.
Qed.

Lemma clear_wayb_sound (fs : FS) (p : Path) : clear_wayb fs p = true -> clear_way fs p.
Proof.
  unfold clear_wayb. rewrite forallb_forall. intros H k rest ->.
  specialize (H (length k)). rewrite firstn_app, Nat.sub_diag, firstn_all in H.
  simpl in H. rewrite app_nil_r in H.
  assert (Hin : In (length k) (seq 0 (S (length (k ++ rest))))).
  { apply in_seq. rewrite length_app. lia. }
  specialize (H Hin). destruct (node_at fs k) as [[f| |t|]|]; auto; discriminate.
Qed.

Lemma clear_way_parent (fs : FS) (p : Path) :
  clear_way fs p -> clear_way fs (pathlib.parent p).
Proof.
  intros H k rest Hk. destruct p as [|c p'] using rev_ind.
  - apply (H k rest). exact Hk.
  - unfold pathlib.parent in Hk. rewrite removelast_last in Hk.
    apply (H k (rest ++ [c])). now rewrite Hk, app_assoc.
Qed.

Lemma clear_way_dirs_added (fs fs' : FS) (p : Path) :
  only_dirs_added fs fs' -> clear_way fs p -> clear_way fs' p.
Proof.
  intros Hadd H k rest Hk. destruct (node_at fs' k) as [n|] eqn:E; [|now left].
  right. destruct (only_dirs_added_node_inv _ _ _ _ Hadd E) as [Hn|[_ ->]]; [|reflexivity].
  destruct (H k rest Hk) as [H0|H0]; congruence.
Qed.

(** With nothing but directories on the way, a path resolves to itself,
    or a directory on the way is missing. *)
Lemma resolve_clear_way (fs : FS) (p : Path) :
  clear_way fs p ->
  resolve fs p = Found p Dir \/ resolve fs p = Vacant p
  \/ resolve fs p = Unreachable ENOENT.
Proof.
  induction p as [|c p IH] using rev_ind; intros Hclear; [now left|].
  assert (Hparent : clear_way fs p).
  { intros k rest Hk. apply (Hclear k (rest ++ [c])). now rewrite Hk, app_assoc. }
  pose proof (namei_snoc_stuck fs c MAXSYMLINKS [] p) as Hstuck.
  unfold resolve in *. destruct (IH Hparent) as [H|[H|H]]; rewrite H in Hstuck.
  - destruct (Hclear (p ++ [c]) [] (eq_sym (app_nil_r _))) as [Hn|Hn].
    + right. left. exact (namei_snoc_vacant _ _ _ _ _ _ H Hn).
    + left. apply (namei_snoc_entry _ _ _ _ _ _ _ H Hn). discriminate.
  - now right; right.
  - now right; right.
Qed.

Lemma resolve_entry_nonroot (fs : FS) (p : Path) :
  p <> [] ->
  resolve_entry fs p
  = match resolve fs (pathlib.parent p) with
    | Found d Dir =>
        match node_at fs (d ++ [pathlib.name p]) with
        | Some n => Found (d ++ [pathlib.name p]) n
        | None => Vacant (d ++ [pathlib.name p])
        end
    | Found _ _ => Unreachable ENOTDIR
    | Vacant _ => Unreachable ENOENT
    | Unreachable e => Unreachable e
    end.
Proof. destruct p; [contradiction | reflexivity]. Qed.

(** [os.mkdir] in a directory that is there: the directory is made, or it
    was there. *)
Lemma mkdir_in_directory (fs : FS) (p : Path) :
  p <> [] ->
  resolve fs (pathlib.parent p) = Found (pathlib.parent p) Dir ->
  node_at fs p = None \/ node_at fs p = Some Dir ->
  (os.mkdir fs p = os.Success (fs ++ [(p, Dir)])
   /\ os.is_dir (fs ++ [(p, Dir)]) p = true)
  \/ (os.mkdir fs p = os.Failure EEXIST /\ os.is_dir fs p = true).
Proof.
  intros Hp Hparent Hnode. unfold os.mkdir.
  rewrite (resolve_entry_nonroot fs p Hp), Hparent, <- (path_split p Hp).
  unfold os.is_dir, resolve in *. destruct Hnode as [Hn|Hn]; rewrite Hn.
  - left. split; [reflexivity|].
    assert (Hadd : only_dirs_added fs (fs ++ [(p, Dir)])) by now exists [p].
    assert (Hres : namei MAXSYMLINKS (fs ++ [(p, Dir)]) []
                     (pathlib.parent p ++ [pathlib.name p])
                   = Found (pathlib.parent p ++ [pathlib.name p]) Dir).
    { apply namei_snoc_entry;
        [exact (namei_dirs_added _ _ Hadd _ _ _ _ _ Hparent) | | discriminate].
      rewrite <- (path_split p Hp), node_at_app, Hn. simpl. now rewrite path_eqb_refl. }
    rewrite <- (path_split p Hp) in Hres. now rewrite Hres.
  - right. split; [reflexivity|].
    assert (Hres : namei MAXSYMLINKS fs [] (pathlib.parent p ++ [pathlib.name p])
                   = Found (pathlib.parent p ++ [pathlib.name p]) Dir).
    { apply namei_snoc_entry; [exact Hparent | | discriminate].
      now rewrite <- (path_split p Hp). }
    rewrite <- (path_split p Hp) in Hres. now rewrite Hres.
Qed.

Lemma mkdir_parents_missing (depth : nat) (p : Path) (st : State) :
  p <> [] -> os.mkdir (fs st) p = os.Failure ENOENT ->
  mkdir_parents (S depth) p st
  = (mkdir_parents depth (pathlib.parent p) ;;; mkdir_exist_ok p) st.
Proof.
  intros Hp Hmk. destruct p; [contradiction|]. cbn [mkdir_parents]. now rewrite Hmk.
Qed.

Lemma node_at_appended (fs : FS) (p k : Path) (n : Node) :
  node_at fs k = None -> node_at (fs ++ [(p, n)]) k <> None -> k = p.
Proof.
  intros Hnone. rewrite node_at_app, Hnone. simpl.
  destruct (path_eqb_spec p k); [auto | contradiction].
Qed.

Lemma mkdir_parents_clear (depth : nat) :
  forall p st,
    length p <= depth -> clear_way (fs st) p ->
    exists st',
      mkdir_parents depth p st = (Ok tt, st')
      /\ os.is_dir (fs st') p = true
      /\ only_dirs_added (fs st) (fs st')
      /\ (forall k, node_at (fs st) k = None -> node_at (fs st') k <> None ->
                    exists rest, p = k ++ rest).
Proof.
  induction depth as [|depth IH]; intros p st Hlen Hclear.
  - destruct p; [|inversion Hlen]. exists st.
    split; [reflexivity|]. split; [reflexivity|].
    split; [apply only_dirs_added_refl | intros k H1 H2; contradiction].
  - destruct p as [|c0 p0].
    { exists st. split; [reflexivity|]. split; [reflexivity|].
      split; [apply only_dirs_added_refl | intros k H1 H2; contradiction]. }
    remember (c0 :: p0) as p eqn:Ep. assert (Hp : p <> []) by (subst p; discriminate).
    assert (Hnode : node_at (fs st) p = None \/ node_at (fs st) p = Some Dir)
      by exact (Hclear p [] (eq_sym (app_nil_r _))).
    destruct (resolve_clear_way _ _ (clear_way_parent _ _ Hclear)) as [Hparent|Hmissing].
    + destruct (mkdir_in_directory _ _ Hp Hparent Hnode) as [[Hmk Hdir]|[Hmk Hdir]];
        cbn [mkdir_parents]; rewrite Hmk.
      * eexists. split; [reflexivity|]. split; [exact Hdir|]. split; [now exists [p]|].
        cbn [set_fs snd fs]. intros k H1 H2. exists [].
        rewrite app_nil_r. symmetry. exact (node_at_appended _ _ _ _ H1 H2).
      * rewrite Hdir. exists st. split; [reflexivity|]. split; [exact Hdir|].
        split; [apply only_dirs_added_refl | intros k H1 H2; contradiction].
    + assert (Hmk : os.mkdir (fs st) p = os.Failure ENOENT).
      { unfold os.mkdir. rewrite (resolve_entry_nonroot _ p Hp).
        now destruct Hmissing as [-> | ->]. }
      rewrite (mkdir_parents_missing depth p st Hp Hmk).
      assert (Hlen' : length (pathlib.parent p) <= depth).
      { unfold pathlib.parent. rewrite (path_split p Hp) in Hlen.
        rewrite length_app in Hlen. simpl in Hlen. unfold pathlib.parent in Hlen. lia. }
      destruct (IH (pathlib.parent p) st Hlen' (clear_way_parent _ _ Hclear))
        as [st1 [Hrun [Hdir1 [Hadd1 Hnew1]]]].
      rewrite (bind_ok _ _ _ _ _ Hrun).
      pose proof (clear_way_dirs_added _ _ _ Hadd1 Hclear) as Hclear1.
      assert (Hparent1 : resolve (fs st1) (pathlib.parent p) = Found (pathlib.parent p) Dir).
      { unfold os.is_dir in Hdir1.
        destruct (resolve_clear_way _ _ (clear_way_parent _ _ Hclear1)) as [H|[H|H]];
          [exact H | |]; rewrite H in Hdir1; discriminate. }
      assert (Hprefix : forall k, node_at (fs st) k = None ->
                          node_at (fs st1) k <> None -> exists rest, p = k ++ rest).
      { intros k H1 H2. destruct (Hnew1 k H1 H2) as [rest Hrest].
        exists (rest ++ [pathlib.name p]). rewrite app_assoc, <- Hrest.
        apply (path_split p Hp). }
      destruct (mkdir_in_directory _ _ Hp Hparent1
                  (Hclear1 p [] (eq_sym (app_nil_r _)))) as [[Hmk1 Hdir]|[Hmk1 Hdir]];
        unfold mkdir_exist_ok; rewrite Hmk1.
      * eexists. split; [reflexivity|]. split; [exact Hdir|]. split.
        { apply (only_dirs_added_trans _ _ _ Hadd1). now exists [p]. }
        cbn [set_fs snd fs]. intros k H1 H2.
        destruct (node_at (fs st1) k) as [n|] eqn:E.
        -- apply Hprefix; [assumption | congruence].
        -- exists []. rewrite app_nil_r. symmetry.
           exact (node_at_appended _ _ _ _ E H2).
      * rewrite Hdir. exists st1. split; [reflexivity|]. split; [exact Hdir|].
        split; [exact Hadd1 | exact Hprefix].
Qed.



Lemma mkdir_parents_failure (depth : nat) (p : Path) (st : State) (e : errno) :
  os.mkdir (fs st) p = os.Failure e -> e <> ENOENT ->
  mkdir_parents depth p st
  = if os.is_dir (fs st) p then (Ok tt, st) else (Raised (OSError e p), st).
Proof.
  intros Hmk He. destruct depth; cbn [mkdir_parents]; rewrite Hmk;
    destruct e; try reflexivity; contradiction.
Qed.

(** No path leads through a regular file. *)
Lemma resolve_through_file (fs : FS) (k : Path) (f : FileData) (rest : list string) :
  no_symlinks fs -> well_formed fs ->
  node_at fs k = Some (File f) -> rest <> [] ->
  resolve fs (k ++ rest) = Unreachable ENOTDIR.
Proof.
  intros Hplain Hwf Hk. induction rest as [|c rest IH] using rev_ind; [contradiction|].
  intros _. rewrite app_assoc.
  pose proof (namei_snoc_stuck fs c MAXSYMLINKS [] (k ++ rest)) as Hstuck.
  unfold resolve in *. destruct rest as [|c' rest'].
  - rewrite app_nil_r in *.
    pose proof (resolve_plain_entry fs Hplain Hwf k _ Hk) as Hres. unfold resolve in Hres.
    now rewrite Hres in Hstuck.
  - now rewrite IH in Hstuck by discriminate.
Qed.

(** X8.  A regular file in the way makes [ensure_directory] raise and
    change nothing: [FileExistsError] when the path itself is the file,
    [NotADirectoryError] when the file lies above it. *)
Theorem ensure_directory_blocked_by_file (k : Path) (rest : list string)
  (f : FileData) (st : State) :
  well_formed (fs st) -> no_symlinks (fs st) ->
  node_at (fs st) k = Some (File f) ->
  ensure_directory (k ++ rest) st
  = (Raised (OSError (match rest with
                      | [] => EEXIST
                      | _ :: _ => ENOTDIR
                      end) (k ++ rest)), st).
Proof.
  intros Hwf Hplain Hk.
  pose proof (entry_not_root _ Hwf k _ Hk) as Hk0.
  pose proof (resolve_plain_entry _ Hplain Hwf k _ Hk) as Hres.
  unfold ensure_directory. destruct rest as [|c rest] using rev_ind.
  - rewrite app_nil_r.
    rewrite (mkdir_parents_failure _ k st EEXIST); [|
      unfold os.mkdir; now rewrite (resolve_entry_plain _ k _ Hplain Hwf Hk) | discriminate].
    unfold os.is_dir. now rewrite Hres.
  - clear IHrest.
    assert (Herr : match rest ++ [c] with [] => EEXIST | _ :: _ => ENOTDIR end = ENOTDIR)
      by now destruct rest.
    rewrite Herr.
    assert (Hd : k ++ rest ++ [c] <> []) by now destruct k.
    assert (Hparent : pathlib.parent (k ++ rest ++ [c]) = k ++ rest).
    { unfold pathlib.parent. rewrite app_assoc. apply removelast_last. }
    rewrite (mkdir_parents_failure _ (k ++ rest ++ [c]) st ENOTDIR); [| |discriminate].
    + unfold os.is_dir.
      now rewrite (resolve_through_file _ k f (rest ++ [c]) Hplain Hwf Hk)
        by now destruct rest.
    + unfold os.mkdir. rewrite (resolve_entry_nonroot _ _ Hd), Hparent.
      destruct rest as [|c' rest'].
      * rewrite app_nil_r, Hres. reflexivity.
      * now rewrite (resolve_through_file _ k f (c' :: rest') Hplain Hwf Hk).
Qed.

Lemma ensure_directory_blocked_by_file_witness :
  ensure_directory (["r"; "a.txt"] ++ ["sub"]) (initial fs_blocked)
  = (Raised (OSError ENOTDIR (["r"; "a.txt"] ++ ["sub"])), initial fs_blocked).
Proof.
  apply (ensure_directory_blocked_by_file ["r"; "a.txt"] ["sub"]
           (mkFile (text "in the way") 0 true true) (initial fs_blocked)).
  - apply well_formedb_sound. reflexivity.
  - no_symlinks_sample.
  - reflexivity.
Defined.

(** ** Moving a regular file *)

Section MoveFile.

Variable fs : FS.
Hypothesis Hplain : no_symlinks fs.
Hypothesis Hwf : well_formed fs.

(** A name that does not exist in a directory that does is free. *)
Lemma resolve_entry_free (p : Path) :
  os.is_dir fs (pathlib.parent p) = true ->
  os.path_exists fs p = false ->
  p <> [] /\ node_at fs p = None /\ resolve_entry fs p = Vacant p.
Proof.
  intros Hdir Hfree.
  assert (Hp : p <> []) by (intros ->; discriminate).
  unfold os.is_dir in Hdir.
  destruct (resolve fs (pathlib.parent p)) as [d [| | |]| |] eqn:Hparent; try discriminate.
  destruct (resolve_plain_found fs Hplain _ _ _ Hparent) as [-> _].
  assert (Hnone : node_at fs p = None).
  { destruct (node_at fs p) as [n|] eqn:E; [|reflexivity]. exfalso.
    unfold os.path_exists in Hfree.
    now rewrite (resolve_plain_entry fs Hplain Hwf p n E) in Hfree. }
  split; [assumption|]. split; [assumption|].
  rewrite (resolve_entry_nonroot fs p Hp), Hparent, <- (path_split p Hp).
  now rewrite Hnone.
Qed.

(** Renaming a regular file to a free name in a directory that exists. *)
Lemma rename_plain_file (src final : Path) (f : FileData) :
  node_at fs src = Some (File f) ->
  os.is_dir fs (pathlib.parent final) = true ->
  os.path_exists fs final = false ->
  os.rename fs src final = os.Success (map (os.rekey src final) fs)
  /\ forall q,
       node_at (map (os.rekey src final) fs) q
       = if path_eqb q final then Some (File f)
         else if path_eqb q src then None else node_at fs q.
Proof.
  intros Hsrc Hdir Hfree.
  destruct (resolve_entry_free final Hdir Hfree) as [Hfinal [Hnone Hvacant]].
  assert (Hsrc0 : src <> []) by exact (entry_not_root fs Hwf src _ Hsrc).
  assert (Hbelow : forall tail, tail <> [] -> ~ In (src ++ tail) (keys fs)).
  { intros tail Htail Hin.
    pose proof (well_formed_ancestor fs Hwf tail src Hsrc0 Htail Hin). congruence. }
  assert (Hneq : src <> final) by (intros ->; congruence).
  split.
  - unfold os.rename. rewrite (resolve_entry_plain fs src _ Hplain Hwf Hsrc), Hvacant.
    assert (His : os.is_below final src = false).
    { unfold os.is_below.
      destruct (pathlib.relative_to final src) as [[|c tail]|] eqn:E; try reflexivity.
      exfalso. apply relative_to_app in E.
      unfold os.is_dir in Hdir.
      destruct (resolve fs (pathlib.parent final)) as [d [| | |]| |] eqn:Hparent;
        try discriminate.
      destruct (resolve_plain_found fs Hplain _ _ _ Hparent) as [-> Hd].
      assert (Hparent_eq : pathlib.parent final = src ++ removelast (c :: tail)).
      { unfold pathlib.parent. rewrite E. apply removelast_app. discriminate. }
      destruct (removelast (c :: tail)) as [|c' tail'] eqn:Er.
      - rewrite app_nil_r in Hparent_eq. rewrite Hparent_eq in Hd.
        destruct Hd as [Hd|Hd]; [|congruence].
        destruct (namei_found_dir _ _ _ _ _ Hparent) as [H|[H|H]]; congruence.
      - apply (Hbelow (c' :: tail')); [discriminate|]. rewrite <- Hparent_eq.
        destruct Hd as [Hd|Hd].
        + destruct (namei_found_dir _ _ _ _ _ Hparent) as [H|[H|H]].
          * rewrite Hparent_eq in H. now destruct src.
          * rewrite Hparent_eq in H. now destruct src.
          * apply node_at_keys. congruence.
        + apply node_at_keys. congruence. }
    now rewrite His.
  - intros q. rewrite (node_at_rekey_file src final fs); [now rewrite Hsrc| | |assumption].
    + intros e tail He Hrel. destruct tail as [|c tail]; [reflexivity|]. exfalso.
      apply relative_to_app in Hrel. apply (Hbelow (c :: tail)); [discriminate|].
      rewrite <- Hrel. now apply in_map.
    + intros e He Heq. apply (proj2 (node_at_keys fs final)); [|assumption].
      rewrite <- Heq. now apply in_map.
Qed.

End MoveFile.

Lemma shutil_move_plain_file (src final : Path) (f : FileData) (st : State) :
  no_symlinks (fs st) -> well_formed (fs st) ->
  node_at (fs st) src = Some (File f) ->
  os.is_dir (fs st) (pathlib.parent final) = true ->
  os.path_exists (fs st) final = false ->
  shutil.move src final st = (Ok tt, with_fs (map (os.rekey src final) (fs st)) st).
Proof.
  intros Hplain Hwf Hsrc Hdir Hfree. unfold shutil.move, bind, ask.
  destruct (os.is_dir (fs st) final) eqn:Edir;
    [apply is_dir_exists in Edir; congruence|].
  unfold syscall_upd.
  now rewrite (proj1 (rename_plain_file (fs st) Hplain Hwf src final f Hsrc Hdir Hfree)).
Qed.

Lemma mkdir_parents_out (depth : nat) :
  forall p st, out (snd (mkdir_parents depth p st)) = out st.
Proof.
  induction depth as [|depth IH]; intros p st; cbn [mkdir_parents];
    destruct (os.mkdir (fs st) p) as [fs'|e]; try reflexivity;
    destruct e; try (destruct (os.is_dir (fs st) p); reflexivity);
    destruct p as [|c p']; try reflexivity.
  unfold bind. specialize (IH (pathlib.parent (c :: p')) st).
  destruct (mkdir_parents depth (pathlib.parent (c :: p')) st) as [[[]|e|] st1];
    try exact IH.
  simpl in IH. rewrite <- IH. unfold mkdir_exist_ok.
  destruct (os.mkdir (fs st1) (c :: p')) as [fs'|e]; [reflexivity|].
  destruct e; try (destruct (os.is_dir (fs st1) (c :: p')); reflexivity); reflexivity.
Qed.

Lemma ensure_directory_out (directory : Path) (st st' : State) :
  ensure_directory directory st = (Ok tt, st') -> out st' = out st.
Proof.
  intros H. pose proof (mkdir_parents_out (length directory) directory st) as Hout.
  unfold ensure_directory in H. now rewrite H in Hout.
Qed.

(** On a tree without symbolic links a path other than the root exists
    when it has an entry. *)
Lemma path_exists_plain (fs : FS) (p : Path) :
  no_symlinks fs -> well_formed fs -> p <> [] ->
  os.path_exists fs p = match node_at fs p with Some _ => true | None => false end.
Proof.
  intros Hplain Hwf Hp. unfold os.path_exists. destruct (node_at fs p) as [n|] eqn:E.
  - now rewrite (resolve_plain_entry fs Hplain Hwf p n E).
  - destruct (resolve fs p) as [k n| |] eqn:R; try reflexivity.
    destruct (resolve_plain_found fs Hplain _ _ _ R) as [-> [->|Hn]]; [|congruence].
    destruct (namei_found_dir _ _ _ _ _ R) as [H|[H|H]]; congruence.
Qed.

(** The directories that [ensure_directory] makes for the directory of a
    path leave the path itself as it was. *)
Lemma not_own_prefix (dest rest : Path) : dest <> [] -> pathlib.parent dest <> dest ++ rest.
Proof.
  intros Hd H. apply (f_equal (@length string)) in H.
  rewrite length_app in H. rewrite (path_split dest Hd) in H at 2.
  rewrite length_app in H. simpl in H. lia.
Qed.

(** Making the directories on the way to [d] does not change what exists
    inside [d]. *)
Lemma exists_after_dirs (fs fs1 : FS) (d c : Path) :
  no_symlinks fs -> well_formed fs -> no_symlinks fs1 -> well_formed fs1 ->
  only_dirs_added fs fs1 ->
  (forall k, node_at fs k = None -> node_at fs1 k <> None -> exists rest, d = k ++ rest) ->
  c <> [] -> pathlib.parent c = d ->
  os.path_exists fs1 c = os.path_exists fs c.
Proof.
  intros Hplain Hwf Hplain1 Hwf1 Hadd Hnew Hc Hparent.
  rewrite (path_exists_plain fs c Hplain Hwf Hc), (path_exists_plain fs1 c Hplain1 Hwf1 Hc).
  destruct (node_at fs c) as [n|] eqn:E.
  - now rewrite (only_dirs_added_node _ _ _ _ Hadd E).
  - destruct (node_at fs1 c) as [n|] eqn:E1; [|reflexivity]. exfalso.
    destruct (Hnew c E) as [rest Hrest]; [congruence|].
    rewrite <- Hparent in Hrest. exact (not_own_prefix c rest Hc Hrest).
Qed.

Lemma candidate_not_root (dest : Path) (n : nat) : candidate dest n <> [].
Proof. unfold candidate, pathlib.joinpath. now destruct (pathlib.parent dest). Qed.

(** X9.  An applied [safe_move] of a regular file on a well-formed tree
    without symbolic links, when nothing but directories lies on the way
    to the directory of the destination.  The destination used is the
    requested one when that is free, and otherwise the candidate
    [stem__n] of the least [n >= 1] that is free, an [n] that is at most
    the number of entries plus one.  When the names looked up are within
    the limits of the platform and the loop is given [n] rounds, the call
    returns: the file, content and time stamp, is then at the destination
    used and no longer at the source, one line is printed, and every
    other entry that was there is as it was. *)
Theorem safe_move_moves_file (src dest : Path) (f : FileData) (st : State) :
  well_formed (fs st) -> no_symlinks (fs st) ->
  node_at (fs st) src = Some (File f) ->
  clear_way (fs st) (pathlib.parent dest) ->
  exists final rounds,
    (os.path_exists (fs st) dest = false -> rounds = 0 /\ final = dest)
    /\ (os.path_exists (fs st) dest = true ->
        1 <= rounds <= S (length (fs st))
        /\ final = candidate dest rounds
        /\ forall m, 1 <= m < rounds -> os.path_exists (fs st) (candidate dest m) = true)
    /\ os.path_exists (fs st) final = false
    /\ final <> src
    /\ forall steps,
         rounds <= steps ->
         fits dest = true ->
         (forall m, 1 <= m <= rounds -> fits (candidate dest m) = true) ->
         exists st',
           safe_move steps src dest false st = (Ok tt, st')
           /\ out st' = out st ++ ["move " ++ pathlib.str src ++ " -> "
                                   ++ pathlib.str final]%string
           /\ node_at (fs st') final = Some (File f)
           /\ node_at (fs st') src = None
           /\ forall q n,
                q <> src -> q <> final -> node_at (fs st) q = Some n ->
                node_at (fs st') q = Some n.
Proof.
  intros Hwf Hplain Hsrc Hclear.
  destruct (mkdir_parents_clear (length (pathlib.parent dest)) (pathlib.parent dest) st
              (Nat.le_refl _) Hclear) as [st1 [Hrun [Hdir [Hadd Hnew]]]].
  fold (ensure_directory (pathlib.parent dest)) in Hrun.
  pose proof (well_formed_ensure_directory (pathlib.parent dest) st Hwf) as Hwf1.
  rewrite Hrun in Hwf1. simpl in Hwf1.
  pose proof (no_symlinks_dirs_added _ _ Hadd Hplain) as Hplain1.
  assert (Hsrc1 : node_at (fs st1) src = Some (File f))
    by exact (only_dirs_added_node _ _ _ _ Hadd Hsrc).
  assert (Hsame : forall c, c <> [] -> pathlib.parent c = pathlib.parent dest ->
                            os.path_exists (fs st1) c = os.path_exists (fs st) c).
  { intros c Hc Hparent.
    exact (exists_after_dirs _ _ _ c Hplain Hwf Hplain1 Hwf1 Hadd Hnew Hc Hparent). }
  assert (Hdest : os.path_exists (fs st1) dest = os.path_exists (fs st) dest).
  { destruct dest as [|c0 dest0]; [reflexivity|]. apply Hsame; [discriminate | reflexivity]. }
  assert (Hcand : forall m, os.path_exists (fs st1) (candidate dest m)
                            = os.path_exists (fs st) (candidate dest m)).
  { intros m. apply Hsame; [apply candidate_not_root | apply candidate_parent]. }
  assert (Hchoice : exists final rounds,
             (os.path_exists (fs st) dest = false -> rounds = 0 /\ final = dest)
             /\ (os.path_exists (fs st) dest = true ->
                 1 <= rounds <= S (length (fs st))
                 /\ final = candidate dest rounds
                 /\ forall m, 1 <= m < rounds ->
                              os.path_exists (fs st) (candidate dest m) = true)
             /\ os.path_exists (fs st) final = false
             /\ os.path_exists (fs st1) final = false
             /\ pathlib.parent final = pathlib.parent dest
             /\ forall steps,
                  rounds <= steps ->
                  fits dest = true ->
                  (forall m, 1 <= m <= rounds -> fits (candidate dest m) = true) ->
                  safe_move steps src dest false st
                  = (print_action ("move " ++ pathlib.str src ++ " -> "
                                   ++ pathlib.str final) false ;;;
                     shutil.move src final) st1).
  { destruct (os.path_exists (fs st) dest) eqn:Et.
    - destruct (least_free_found (fs st) dest) as [n [Hn [Hfree Hbefore]]].
      exists (candidate dest n), n.
      split; [discriminate|]. split; [intros _; now split|].
      split; [exact Hfree|]. split; [now rewrite Hcand|].
      split; [apply candidate_parent|].
      intros steps Hle Hfit Hfits.
      rewrite (safe_move_after_mkdir steps src dest false st st1 Hrun).
      unfold os.Path_exists. rewrite (fits_not_too_long _ _ Hfit), Hdest.
      rewrite (probe_least_free steps (fs st1) dest 1 n); [reflexivity| |].
      + apply least_free_least; [lia | now rewrite Hcand|].
        intros m Hm. rewrite Hcand. now apply Hbefore.
      + intros m Hm. apply fits_not_too_long. now apply Hfits.
    - exists dest, 0. split; [now split|]. split; [discriminate|].
      split; [exact Et|]. split; [exact Hdest|]. split; [reflexivity|].
      intros steps _ Hfit _.
      rewrite (safe_move_after_mkdir steps src dest false st st1 Hrun).
      unfold os.Path_exists. now rewrite (fits_not_too_long _ _ Hfit), Hdest. }
  destruct Hchoice as [final [rounds [Hfree0 [Htaken [Hfree_before [Hfree [Hparent Hcall]]]]]]].
  rewrite <- Hparent in Hdir.
  assert (Hneq : final <> src).
  { intros ->. unfold os.path_exists in Hfree.
    now rewrite (resolve_plain_entry _ Hplain1 Hwf1 src _ Hsrc1) in Hfree. }
  exists final, rounds. split; [exact Hfree0|]. split; [exact Htaken|].
  split; [exact Hfree_before|]. split; [exact Hneq|].
  intros steps Hle Hfit Hfits.
  destruct (rename_plain_file (fs st1) Hplain1 Hwf1 src final f Hsrc1 Hdir Hfree)
    as [_ Hrekey].
  eexists. split.
  - rewrite (Hcall steps Hle Hfit Hfits).
    unfold print_action.
    rewrite (bind_ok _ _ _ _ _ (print_printing _ st1)).
    exact (shutil_move_plain_file src final f (printing [_] st1)
             Hplain1 Hwf1 Hsrc1 Hdir Hfree).
  - cbn [with_fs printing fs out]. split.
    { f_equal. exact (ensure_directory_out (pathlib.parent dest) st st1 Hrun). }
    split; [now rewrite Hrekey, path_eqb_refl|]. split.
    + rewrite Hrekey. rewrite (proj2 (path_eqb_neq src final)) by congruence.
      now rewrite path_eqb_refl.
    + intros q n Hq1 Hq2 Hq. rewrite Hrekey.
      rewrite (proj2 (path_eqb_neq q final)) by assumption.
      rewrite (proj2 (path_eqb_neq q src)) by assumption.
      exact (only_dirs_added_node _ _ _ _ Hadd Hq).
Qed.

Lemma safe_move_moves_file_witness :
  exists final rounds,
    (os.path_exists fs_taken ["out"; "a.txt"] = false
     -> rounds = 0 /\ final = ["out"; "a.txt"])
    /\ (os.path_exists fs_taken ["out"; "a.txt"] = true ->
        1 <= rounds <= S (length fs_taken)
        /\ final = candidate ["out"; "a.txt"] rounds
        /\ forall m, 1 <= m < rounds ->
                     os.path_exists fs_taken (candidate ["out"; "a.txt"] m) = true)
    /\ os.path_exists fs_taken final = false
    /\ final <> ["in"; "a.txt"]
    /\ forall steps,
         rounds <= steps ->
         fits ["out"; "a.txt"] = true ->
         (forall m, 1 <= m <= rounds -> fits (candidate ["out"; "a.txt"] m) = true) ->
         exists st',
           safe_move steps ["in"; "a.txt"] ["out"; "a.txt"] false (initial fs_taken)
           = (Ok tt, st')
           /\ out st' = [] ++ ["move " ++ pathlib.str ["in"; "a.txt"] ++ " -> "
                                ++ pathlib.str final]%string
           /\ node_at (fs st') final = Some (plain "new")
           /\ node_at (fs st') ["in"; "a.txt"] = None
           /\ forall q n,
                q <> ["in"; "a.txt"] -> q <> final -> node_at fs_taken q = Some n ->
                node_at (fs st') q = Some n.
Proof.
  apply (safe_move_moves_file ["in"; "a.txt"] ["out"; "a.txt"]
           (mkFile (text "new") 0 true true) (initial fs_taken)).
  - apply well_formedb_sound. reflexivity.
  - no_symlinks_sample.
  - reflexivity.
  - apply clear_wayb_sound. reflexivity.
Defined.

(** ** Dedupe in delete mode *)

Lemma node_at_removed (k : Path) (fs : FS) : node_at (os.remove_key k fs) k = None.
Proof.
  induction fs as [|[k' n] fs IH]; simpl; [reflexivity|].
  destruct (path_eqb_spec k' k) as [->|Hne]; simpl; [assumption|].
  now rewrite (proj2 (path_eqb_neq k' k)).
Qed.



Lemma length_filter_out (l : list Path) (a : Path) :
  NoDup l -> In a l ->
  length (filter (fun p => negb (path_eqb p a)) l) = length l - 1.
Proof.
  induction l as [|x l IH]; intros Hnd Hin; [contradiction|].
  inversion Hnd as [|? ? Hx Hl]; subst. simpl.
  destruct (path_eqb_spec x a) as [->|Hne]; simpl.
  - rewrite Nat.sub_0_r. clear IH Hnd Hin Hl. induction l as [|y l IH]; [reflexivity|].
    simpl. destruct (path_eqb_spec y a) as [->|Hya]; simpl.
    + exfalso. apply Hx. now left.
    + f_equal. apply IH. intros H. apply Hx. now right.
  - destruct Hin as [->|Hin]; [contradiction|]. rewrite (IH Hl Hin).
    destruct l; [contradiction | simpl; lia].
Qed.

Section DeleteMode.

Context {platform : Platform}.



End DeleteMode.



(** ** What organize leaves behind *)



(** What one round of the loop of organize does to the state: nothing,
    or one [safe_move] of the file. *)
Lemma organize_one_moves {platform : Platform} (steps : nat) (organize_mode : string)
  (organize_dir p : Path) (count count' : nat) (st st' : State) :
  organize_one steps organize_mode organize_dir false p count st = (Ok count', st') ->
  st' = st \/ exists target, safe_move steps p target false st = (Ok tt, st').
Proof.
  intros Hrun. unfold organize_one in Hrun. apply bind_ok_inv in Hrun.
  destruct Hrun as [target_dir [st0 [Hdir Hrun]]].
  assert (Hst0 : st0 = st).
  { destruct (String.eqb organize_mode "ext").
    - cbv [try_OSError ret] in Hdir. now injection Hdir as _ <-.
    - destruct (String.eqb organize_mode "date"); [|discriminate].
      cbv [try_OSError bind ret syscall] in Hdir.
      destruct (os.stat (fs st) p) as [info|e]; now injection Hdir as _ <-. }
  subst st0. destruct target_dir as [target_dir|]; [|injection Hrun as _ <-; now left].
  cbv zeta in Hrun. apply bind_ok_inv in Hrun.
  destruct Hrun as [target_resolved [st1 [Htarget Hrun]]].
  apply Path_resolve_state in Htarget. subst st1.
  apply bind_ok_inv in Hrun. destruct Hrun as [file_resolved [st1 [Hfile Hrun]]].
  apply Path_resolve_state in Hfile. subst st1.
  destruct (path_eqb target_resolved file_resolved).
  - injection Hrun as _ <-. now left.
  - apply bind_ok_inv in Hrun. destruct Hrun as [[] [st2 [Hmove Hret]]].
    unfold ret in Hret. injection Hret as _ <-. right. eexists. exact Hmove.
Qed.

Lemma for_each_yielded_invariant {platform : Platform} {A : Type} (I : State -> Prop)
  (body : Path -> A -> M A) :
  (forall w p w' acc st acc' st',
      I st -> next_step w (fs st) = Yield p w' -> body p acc st = (Ok acc', st') ->
      I st') ->
  forall steps w acc st acc' st',
    I st -> for_each steps w body acc st = (Ok acc', st') -> I st'.
Proof.
  intros Hbody. induction steps as [|steps IH]; intros w acc st acc' st' HI;
    cbn [for_each]; [discriminate|].
  destruct (next_step w (fs st)) as [p w'|w'|] eqn:E.
  - intros H. apply bind_ok_inv in H. destruct H as [acc1 [st1 [H1 H2]]].
    apply (IH w' acc1 st1 acc' st'); [|assumption].
    exact (Hbody w p w' acc st acc1 st1 HI E H1).
  - apply IH. assumption.
  - now intros [= _ <-].
Qed.

(** A directory that [ensure_directory] made or found is there. *)
Lemma mkdir_ok_is_dir (fs fs' : FS) (p : Path) :
  well_formed fs -> no_symlinks fs ->
  os.mkdir fs p = os.Success fs' -> os.is_dir fs' p = true.
Proof.
  intros Hwf Hplain Hmk.
  pose proof (well_formed_mkdir _ _ _ Hwf Hmk) as Hwf'.
  pose proof (no_symlinks_dirs_added _ _ (mkdir_only_dirs _ _ _ Hmk) Hplain) as Hplain'.
  destruct (mkdir_success _ _ _ Hmk) as [k [Hvacant ->]].
  destruct (resolve_entry_plain_vacant _ _ _ Hplain Hvacant) as [-> Hnone].
  unfold os.is_dir. rewrite (resolve_plain_entry _ Hplain' Hwf' p Dir); [reflexivity|].
  rewrite node_at_app, Hnone. simpl. now rewrite path_eqb_refl.
Qed.

Lemma mkdir_parents_is_dir (depth : nat) :
  forall p st st',
    well_formed (fs st) -> no_symlinks (fs st) ->
    mkdir_parents depth p st = (Ok tt, st') -> os.is_dir (fs st') p = true.
Proof.
  induction depth as [|depth IH]; intros p st st' Hwf Hplain; cbn [mkdir_parents];
    destruct (os.mkdir (fs st) p) as [fs'|e] eqn:Emk;
    try (intros [= <-]; exact (mkdir_ok_is_dir _ _ _ Hwf Hplain Emk));
    destruct e;
    try (destruct (os.is_dir (fs st) p) eqn:Ed; [now intros [= <-] | discriminate]);
    destruct p as [|c p']; try discriminate.
  intros H. apply bind_ok_inv in H. destruct H as [[] [st1 [Hparent Hlast]]].
  pose proof (well_formed_mkdir_parents depth (pathlib.parent (c :: p')) st Hwf) as Hwf1.
  pose proof (preserves_mkdir_parents depth (pathlib.parent (c :: p')) st) as Hadd.
  rewrite Hparent in Hwf1, Hadd. simpl in Hwf1, Hadd.
  pose proof (no_symlinks_dirs_added _ _ Hadd Hplain) as Hplain1.
  unfold mkdir_exist_ok in Hlast.
  destruct (os.mkdir (fs st1) (c :: p')) as [fs'|e] eqn:Emk1.
  - injection Hlast as <-. exact (mkdir_ok_is_dir _ _ _ Hwf1 Hplain1 Emk1).
  - destruct e; try discriminate;
      (destruct (os.is_dir (fs st1) (c :: p')) eqn:Ed; [now injection Hlast as <- | discriminate]).
Qed.

(** What an applied [safe_move] of a regular file that returns has done:
    the file has the name [final], which was free, and nothing else
    changed but for the directories made. *)
Lemma safe_move_file_inv (steps : nat) (p t : Path) (f : FileData) (st st' : State) :
  well_formed (fs st) -> no_symlinks (fs st) ->
  node_at (fs st) p = Some (File f) ->
  safe_move steps p t false st = (Ok tt, st') ->
  exists final,
    (final = t \/ exists n, final = candidate t n)
    /\ node_at (fs st) final = None
    /\ final <> p
    /\ node_at (fs st') final = Some (File f)
    /\ forall q g,
         q <> final ->
         (node_at (fs st') q = Some (File g)
          <-> q <> p /\ node_at (fs st) q = Some (File g)).
Proof.
  intros Hwf Hplain Hp Hmove.
  destruct (ensure_directory (pathlib.parent t) st) as [[[]|e|] st1] eqn:Hdir;
    try (unfold safe_move in Hmove;
         first [ rewrite (bind_raised _ _ _ _ _ Hdir) in Hmove
               | rewrite (bind_out_of_steps _ _ _ _ Hdir) in Hmove ];
         discriminate).
  pose proof (preserves_ensure_directory (pathlib.parent t) st) as Hadd.
  pose proof (well_formed_ensure_directory (pathlib.parent t) st Hwf) as Hwf1.
  rewrite Hdir in Hadd, Hwf1. simpl in Hadd, Hwf1. unfold dirs_added in Hadd.
  pose proof (no_symlinks_dirs_added _ _ Hadd Hplain) as Hplain1.
  pose proof (mkdir_parents_is_dir _ _ _ _ Hwf Hplain Hdir) as Hisdir.
  assert (Hp1 : node_at (fs st1) p = Some (File f))
    by exact (only_dirs_added_node _ _ _ _ Hadd Hp).
  destruct (safe_move_ok _ _ _ _ _ _ _ Hdir Hmove) as [final [Efinal Hmove']].
  clear Hmove. rename Hmove' into Hmove.
  assert (Hchoice : (final = t \/ exists n, final = candidate t n)
                    /\ os.path_exists (fs st1) final = false).
  { destruct (os.path_exists (fs st1) t) eqn:Et.
    - split; [|now apply (least_free_is_free _ _ _ _ _ Efinal)].
      right. exact (least_free_candidate _ _ _ _ _ Efinal).
    - injection Efinal as <-. auto. }
  destruct Hchoice as [Hchoice Hfree].
  assert (Hparent : pathlib.parent final = pathlib.parent t).
  { destruct Hchoice as [->|[n ->]]; [reflexivity | apply candidate_parent]. }
  rewrite <- Hparent in Hisdir.
  unfold print_action in Hmove. cbn [negb] in Hmove.
  rewrite (bind_ok _ _ _ _ _ (print_printing _ st1)) in Hmove.
  rewrite (shutil_move_plain_file p final f (printing [_] st1)
             Hplain1 Hwf1 Hp1 Hisdir Hfree) in Hmove.
  injection Hmove as <-. cbn [with_fs printing fs].
  destruct (rename_plain_file (fs st1) Hplain1 Hwf1 p final f Hp1 Hisdir Hfree)
    as [_ Hrekey].
  destruct (resolve_entry_free (fs st1) Hplain1 Hwf1 final Hisdir Hfree)
    as [_ [Hnone1 _]].
  exists final. split; [exact Hchoice|]. split; [|split; [|split]].
  - destruct (node_at (fs st) final) as [n|] eqn:E; [|reflexivity].
    rewrite (only_dirs_added_node _ _ _ _ Hadd E) in Hnone1. discriminate.
  - intros ->. congruence.
  - now rewrite Hrekey, path_eqb_refl.
  - intros q g Hq. rewrite Hrekey.
    rewrite (proj2 (path_eqb_neq q final)) by assumption.
    destruct (path_eqb_spec q p) as [->|Hqp].
    + split; [discriminate | intros [H _]; contradiction].
    + rewrite (file_dirs_added _ _ _ _ Hadd). tauto.
Qed.

(** X12.  An applied run of organize on a well-formed tree without
    symbolic links that returns loses no file and makes none: every
    regular file that was there, content and time stamp, is somewhere
    afterwards, and every regular file that is there afterwards was
    somewhere before. *)
Theorem organize_files_keeps_every_file {platform : Platform} (steps : nat)
  (root_dir : Path) (organize_mode : string) (organize_dir : Path)
  (include_hidden : bool) (exclude_globs : list string)
  (st st1 : State) (moved : nat) :
  well_formed (fs st) -> no_symlinks (fs st) ->
  organize_files steps root_dir organize_mode organize_dir include_hidden
    exclude_globs false st = (Ok moved, st1) ->
  (forall p f, node_at (fs st) p = Some (File f) ->
               exists p', node_at (fs st1) p' = Some (File f))
  /\ (forall p' f, node_at (fs st1) p' = Some (File f) ->
                   exists p, node_at (fs st) p = Some (File f)).
Proof.
  intros Hwf Hplain Hrun.
  unfold organize_files in Hrun. apply bind_ok_inv in Hrun.
  destruct Hrun as [count [st' [Hloop Hrest]]].
  assert (Hfs' : fs st1 = fs st').
  { destruct (count =? 0); cbv [bind print ret] in Hrest;
      injection Hrest as _ <-; reflexivity. }
  rewrite Hfs'.
  pose (I := fun s : State =>
               well_formed (fs s) /\ no_symlinks (fs s)
               /\ (forall p f, node_at (fs st) p = Some (File f) ->
                               exists p', node_at (fs s) p' = Some (File f))
               /\ (forall p' f, node_at (fs s) p' = Some (File f) ->
                                exists p, node_at (fs st) p = Some (File f))).
  assert (HI : I st').
  { apply (for_each_yielded_invariant I
             (organize_one steps organize_mode organize_dir false))
      with (steps := steps) (w := iter_files root_dir include_hidden exclude_globs)
           (acc := 0) (st := st) (acc' := count); [| |exact Hloop].
    - intros w p w' acc s acc' s' (Hw & Hp & Hto & Hfrom) Hyield Hbody.
      destruct (organize_one_moves _ _ _ _ _ _ _ _ Hbody) as [->|[target Hmove]];
        [exact (conj Hw (conj Hp (conj Hto Hfrom)))|].
      destruct (next_step_yield _ _ _ _ Hyield) as [Hfile _].
      apply (is_file_plain _ Hp Hw) in Hfile. destruct Hfile as [g Hg].
      destruct (safe_move_plain_file _ _ _ _ _ _ Hw Hp Hg Hmove)
        as [_ [_ [Hw' [Hp' _]]]].
      destruct (safe_move_file_inv _ _ _ _ _ _ Hw Hp Hg Hmove)
        as [final [_ [Hfree [Hneq [Hfinal Hothers]]]]].
      split; [exact Hw'|]. split; [exact Hp'|]. split.
      + intros q h Hq. destruct (Hto q h Hq) as [q' Hq'].
        destruct (path_eqb_spec q' p) as [->|Hne].
        * exists final. congruence.
        * exists q'. apply Hothers; [congruence | now split].
      + intros q' h Hq'. destruct (path_eqb_spec q' final) as [->|Hnf].
        * apply (Hfrom p). congruence.
        * apply (Hothers q' h Hnf) in Hq'. destruct Hq' as [_ Hq']. now apply (Hfrom q').
    - split; [exact Hwf|]. split; [exact Hplain|]. split; intros p f Hp; now exists p. }
  destruct HI as (_ & _ & Hto & Hfrom). now split.
Qed.

Lemma organize_files_keeps_every_file_witness :
  exists st1,
    @organize_files sample_platform 40 ["r"] "date" ["r"; "_organized"] false [] false
      (initial fs_mixed) = (Ok 3, st1)
    /\ (forall p f, node_at fs_mixed p = Some (File f) ->
                    exists p', node_at (fs st1) p' = Some (File f))
    /\ (forall p' f, node_at (fs st1) p' = Some (File f) ->
                     exists p, node_at fs_mixed p = Some (File f)).
Proof.
  destruct (@organize_files sample_platform 40 ["r"] "date" ["r"; "_organized"] false []
              false (initial fs_mixed)) as [o st1] eqn:E.
  assert (Ho : o = Ok 3) by (vm_compute in E; now injection E as <- _).
  subst o. exists st1. split; [reflexivity|].
  apply (@organize_files_keeps_every_file sample_platform 40 ["r"] "date"
           ["r"; "_organized"] false [] (initial fs_mixed) st1 3).
  - apply well_formedb_sound. reflexivity.
  - no_symlinks_sample.
  - exact E.
Defined.

(** ** Encrypting *)

Lemma encrypted_path_inj (output_dir r1 r2 : Path) :
  r1 <> [] -> r2 <> [] ->
  encrypted_path output_dir r1 = encrypted_path output_dir r2 -> r1 = r2.
Proof.
  intros H1 H2 H. unfold encrypted_path in H. apply app_inv_head in H.
  apply app_inj_tail in H. destruct H as [Hparent Hname].
  apply append_inv_tail in Hname.
  rewrite (path_split r1 H1), (path_split r2 H2). now rewrite Hparent, Hname.
Qed.

Lemma name_encrypted_path (output_dir relative : Path) :
  pathlib.name (encrypted_path output_dir relative)
  = (pathlib.name relative ++ ".enc")%string.
Proof.
  unfold encrypted_path, pathlib.name. rewrite !app_assoc. apply last_last.
Qed.

Lemma suffix_enc (n : string) :
  n <> ""%string ->
  pathlib.split_index (n ++ ".enc") = Some (String.length n).
Proof.
  intros Hn. unfold pathlib.split_index. rewrite rfind_app.
  change (rfind "." ".enc") with (Some 0). cbv beta iota. rewrite Nat.add_0_r.
  assert (H1 : (0 <? String.length n) = true)
    by (apply Nat.ltb_lt; destruct n; [contradiction | simpl; lia]).
  assert (H2 : (String.length n <? String.length (n ++ ".enc") - 1) = true)
    by (rewrite length_append; apply Nat.ltb_lt; simpl; lia).
  now rewrite H1, H2.
Qed.

Lemma suffix_encrypted_path (output_dir relative : Path) :
  pathlib.name relative <> ""%string ->
  pathlib.suffix (encrypted_path output_dir relative) = ".enc"%string.
Proof.
  intros Hn. unfold pathlib.suffix. rewrite name_encrypted_path, (suffix_enc _ Hn).
  apply drop_str_app.
Qed.

(** X13.  [encrypt_tree] writes the file at [relative] below the root to
    the same place below the output directory, with [.enc] appended to its
    name ([with_suffix(suffix + '.enc')] keeps the suffix that was there);
    so two different files are never written to the same output, and an
    output has the suffix [.enc]: a traversal that meets it leaves it
    alone. *)
Theorem encrypt_tree_mirrors_names {platform : Platform} (root_dir output_dir : Path)
  (key : bytes) (remove_originals dry_run : bool) (relative : Path) (count : nat) :
  pathlib.name relative <> ""%string ->
  (String.eqb (pathlib.suffix (root_dir ++ relative)) ".enc" = false ->
   encrypt_one root_dir output_dir key remove_originals dry_run (root_dir ++ relative)
     count
   = (encrypt_file (root_dir ++ relative) (encrypted_path output_dir relative) key
        dry_run ;;;
      (if remove_originals then
         print_action ("delete original " ++ pathlib.str (root_dir ++ relative))
           dry_run ;;;
         if negb dry_run then
           try_OSError
             (syscall_upd (fun fs => os.unlink fs (root_dir ++ relative))
                (root_dir ++ relative))
             (fun exc =>
                print ("Failed to delete " ++ pathlib.str (root_dir ++ relative)
                       ++ ": " ++ exn_str exc))
         else ret tt
       else ret tt) ;;;
      ret (count + 1)))
  /\ (forall other,
         other <> [] ->
         encrypted_path output_dir relative = encrypted_path output_dir other ->
         relative = other)
  /\ (forall root_dir' output_dir' st,
         encrypt_one root_dir' output_dir' key remove_originals dry_run
           (encrypted_path output_dir relative) count st
         = (Ok count, st)).
Proof.
  intros Hname.
  assert (Hrel : relative <> []) by (intros ->; now apply Hname).
  split; [|split].
  - intros Hsuffix. unfold encrypt_one. rewrite Hsuffix.
    rewrite (proj2 (relative_to_app (root_dir ++ relative) root_dir relative) eq_refl).
    unfold bind at 1. unfold ret at 1. unfold bind at 1. unfold with_suffix.
    rewrite (proj2 (String.eqb_neq _ _) Hname). unfold ret at 1.
    unfold encrypted_path, pathlib.joinpath.
    now rewrite <- append_assoc, stem_suffix.
  - intros other Hother H. exact (encrypted_path_inj _ _ _ Hrel Hother H).
  - intros root_dir' output_dir' st. unfold encrypt_one.
    now rewrite (suffix_encrypted_path _ _ Hname).
Qed.

Lemma encrypt_tree_mirrors_names_witness :
  @encrypt_one sample_platform ["r"] ["e"] (text "key") true false
    (["r"] ++ ["sub"; "a.txt"]) 0
  = (@encrypt_file sample_platform (["r"] ++ ["sub"; "a.txt"])
       (encrypted_path ["e"] ["sub"; "a.txt"]) (text "key") false ;;;
     (if true then
        print_action ("delete original " ++ pathlib.str (["r"] ++ ["sub"; "a.txt"]))
          false ;;;
        if negb false then
          try_OSError
            (syscall_upd (fun fs => os.unlink fs (["r"] ++ ["sub"; "a.txt"]))
               (["r"] ++ ["sub"; "a.txt"]))
            (fun exc =>
               print ("Failed to delete " ++ pathlib.str (["r"] ++ ["sub"; "a.txt"])
                      ++ ": " ++ @exn_str sample_platform exc))
        else ret tt
      else ret tt) ;;;
     ret (0 + 1)).
Proof.
  apply (proj1 (@encrypt_tree_mirrors_names sample_platform ["r"] ["e"] (text "key")
                  true false ["sub"; "a.txt"] 0 ltac:(discriminate))).
  reflexivity.
Defined.

(** ** Writing a file *)

Lemma node_at_replace_node (k : Path) (n : Node) (fs : FS) (q : Path) :
  node_at (os.replace_node k n fs) q
  = if path_eqb q k
    then match node_at fs k with Some _ => Some n | None => None end
    else node_at fs q.
Proof.
  induction fs as [|[k' n'] fs IH]; simpl.
  - now destruct (path_eqb q k).
  - destruct (path_eqb_spec k' k) as [->|Hk]; simpl.
    + destruct (path_eqb_spec k q) as [->|Hq].
      * now rewrite path_eqb_refl.
      * destruct (path_eqb_spec q k); [congruence | reflexivity].
    + destruct (path_eqb_spec k' q) as [->|Hq].
      * destruct (path_eqb_spec q k); [congruence | reflexivity].
      * exact IH.
Qed.

Lemma keys_replace_node (k : Path) (n : Node) (fs : FS) :
  keys (os.replace_node k n fs) = keys fs.
Proof.
  induction fs as [|[k' n'] fs IH]; simpl; [reflexivity|].
  destruct (path_eqb k' k); simpl; [reflexivity | now f_equal].
Qed.

Lemma In_replace_node (k : Path) (n : Node) (fs : FS) (e : Path * Node) :
  In e (os.replace_node k n fs) -> In e fs \/ e = (k, n).
Proof.
  induction fs as [|[k' n'] fs IH]; simpl; [tauto|].
  destruct (path_eqb_spec k' k) as [->|Hk]; simpl.
  - intros [<-|H]; auto.
  - intros [<-|H]; auto. destruct (IH H); auto.
Qed.

Section WriteFile.

Variable fs : FS.
Hypothesis Hplain : no_symlinks fs.
Hypothesis Hwf : well_formed fs.

(** A name that is free in a directory that is there resolves to itself. *)
Lemma resolve_free (p : Path) :
  p <> [] -> os.is_dir fs (pathlib.parent p) = true -> node_at fs p = None ->
  resolve fs p = Vacant p
  /\ (pathlib.parent p = [] \/ node_at fs (pathlib.parent p) = Some Dir).
Proof.
  intros Hp Hdir Hnone. unfold os.is_dir in Hdir.
  destruct (resolve fs (pathlib.parent p)) as [d [| | |]| |] eqn:Hparent; try discriminate.
  destruct (resolve_plain_found fs Hplain _ _ _ Hparent) as [-> _].
  split.
  - rewrite (path_split p Hp) in Hnone.
    pose proof (namei_snoc_vacant fs MAXSYMLINKS [] (pathlib.parent p) (pathlib.name p)
                  (pathlib.parent p) Hparent Hnone) as H.
    rewrite <- (path_split p Hp) in H. exact H.
  - destruct (namei_found_dir _ _ _ _ _ Hparent) as [H|[H|H]]; auto.
Qed.

(** [write_bytes] on a free name in a directory, or on a regular file
    that is writable: the data is there afterwards and nothing else has
    changed. *)
Lemma write_bytes_plain (now : Z) (dest : Path) (data : bytes) :
  dest <> [] -> os.is_dir fs (pathlib.parent dest) = true ->
  node_at fs dest = None
  \/ (exists g, node_at fs dest = Some (File g) /\ writable g = true) ->
  exists fs' g',
    os.write_bytes now fs dest data = os.Success fs'
    /\ node_at fs' dest = Some (File g') /\ content g' = data
    /\ (forall q, q <> dest -> node_at fs' q = node_at fs q)
    /\ no_symlinks fs' /\ well_formed fs'.
Proof.
  intros Hd Hdir [Hnone|[g [Hg Hwritable]]].
  - destruct (resolve_free dest Hd Hdir Hnone) as [Hvacant Hparent].
    exists (fs ++ [(dest, File (mkFile data now true true))]), (mkFile data now true true).
    split; [unfold os.write_bytes; now rewrite Hvacant|].
    split; [rewrite node_at_app, Hnone; simpl; now rewrite path_eqb_refl|].
    split; [reflexivity|]. split; [|split].
    + intros q Hq. rewrite node_at_app. destruct (node_at fs q); [reflexivity|].
      simpl. destruct (path_eqb_spec dest q); [congruence | reflexivity].
    + intros k t Hin. apply in_app_or in Hin. destruct Hin as [Hin|[Hin|[]]].
      * exact (Hplain _ _ Hin).
      * discriminate.
    + intros k Hin. rewrite keys_app in Hin. apply in_app_or in Hin.
      destruct Hin as [Hin|[<-|[]]].
      * destruct (Hwf k Hin) as [Hne [Hroot|Hk]]; split; auto.
        right. now rewrite node_at_app, Hk.
      * cbn [fst]. split; [exact Hd|]. destruct Hparent as [H|H]; [now left|].
        right. now rewrite node_at_app, H.
  - exists (os.replace_node dest (File (mkFile data now (readable g) true)) fs),
      (mkFile data now (readable g) true).
    split.
    { unfold os.write_bytes.
      now rewrite (resolve_plain_entry fs Hplain Hwf dest _ Hg), Hwritable. }
    split; [rewrite node_at_replace_node, path_eqb_refl, Hg; reflexivity|].
    split; [reflexivity|]. split; [|split].
    + intros q Hq. rewrite node_at_replace_node.
      destruct (path_eqb_spec q dest); [contradiction | reflexivity].
    + intros k t Hin. apply In_replace_node in Hin. destruct Hin as [Hin|Hin].
      * exact (Hplain _ _ Hin).
      * discriminate.
    + intros k Hin. rewrite keys_replace_node in Hin.
      destruct (Hwf k Hin) as [Hne [Hroot|Hk]]; split; auto.
      right. rewrite node_at_replace_node.
      destruct (path_eqb_spec (pathlib.parent k) dest) as [Heq|_]; [|exact Hk].
      rewrite Heq in Hk. congruence.
Qed.

End WriteFile.



(** ** Removing the originals *)

Lemma bind_cases {A B : Type} (c : M A) (k : A -> M B) (st st' : State)
  (r : Outcome B) :
  bind c k st = (r, st') ->
  (exists a st1, c st = (Ok a, st1) /\ k a st1 = (r, st'))
  \/ (exists e, c st = (Raised e, st') /\ r = Raised e)
  \/ (c st = (OutOfSteps, st') /\ r = OutOfSteps).
Proof.
  unfold bind. destruct (c st) as [[a|e|] st1]; intros H.
  - left. now exists a, st1.
  - right. left. exists e. now injection H as <- <-.
  - right. right. now injection H as <- <-.
Qed.

Section WriteOutcome.

Variable fs : FS.
Hypothesis Hplain : no_symlinks fs.
Hypothesis Hwf : well_formed fs.

(** A path resolves to a free name only in a directory that is there. *)
Lemma resolve_vacant_plain (p k : Path) :
  resolve fs p = Vacant k ->
  p <> [] /\ os.is_dir fs (pathlib.parent p) = true /\ node_at fs p = None.
Proof.
  intros H.
  assert (Hp : p <> []).
  { intros ->. unfold resolve in H. rewrite namei_nil in H. discriminate. }
  split; [exact Hp|].
  unfold resolve in H. rewrite (path_split p Hp) in H.
  pose proof (namei_snoc_stuck fs (pathlib.name p) MAXSYMLINKS [] (pathlib.parent p))
    as Hstuck.
  unfold os.is_dir, resolve.
  destruct (namei MAXSYMLINKS fs [] (pathlib.parent p)) as [d [g| |t|]|d|e] eqn:Hparent;
    try (rewrite Hstuck in H; discriminate).
  split; [reflexivity|].
  destruct (resolve_plain_found fs Hplain _ _ _ Hparent) as [-> _].
  destruct (node_at fs p) as [m|] eqn:Hm; [exfalso|reflexivity].
  rewrite (path_split p Hp) in Hm.
  rewrite (namei_snoc_entry fs MAXSYMLINKS [] (pathlib.parent p) (pathlib.name p)
             (pathlib.parent p) m Hparent Hm) in H; [discriminate|].
  intros t ->. rewrite <- (path_split p Hp) in Hm.
  exact (no_symlink_at fs Hplain _ _ Hm).
Qed.

(** When [write_bytes] succeeds the data is there, and nothing else has
    changed. *)
Lemma write_bytes_success (now : Z) (dest : Path) (data : bytes) (fs' : FS) :
  os.write_bytes now fs dest data = os.Success fs' ->
  exists g',
    node_at fs' dest = Some (File g') /\ content g' = data
    /\ (forall q, q <> dest -> node_at fs' q = node_at fs q)
    /\ no_symlinks fs' /\ well_formed fs'.
Proof.
  intros H.
  assert (Hpre : dest <> [] /\ os.is_dir fs (pathlib.parent dest) = true
                 /\ (node_at fs dest = None
                     \/ (exists g, node_at fs dest = Some (File g)
                                    /\ writable g = true))).
  { unfold os.write_bytes in H.
    destruct (resolve fs dest) as [k [g| |t|]|k|e] eqn:E; try discriminate.
    - destruct (writable g) eqn:Hwritable; [|discriminate].
      destruct (resolve_plain_found fs Hplain _ _ _ E) as [-> [Hg|Hg]]; [discriminate|].
      split; [exact (entry_not_root fs Hwf dest _ Hg)|]. split; [|right; now exists g].
      assert (Hin : In dest (keys fs)) by (apply node_at_keys; congruence).
      destruct (Hwf dest Hin) as [_ [Hroot|Hdir]]; unfold os.is_dir.
      + rewrite Hroot. unfold resolve. now rewrite namei_nil.
      + now rewrite (resolve_plain_entry fs Hplain Hwf _ _ Hdir).
    - destruct (resolve_vacant_plain dest k E) as [Hd [Hdir Hnone]]. auto. }
  destruct Hpre as [Hd [Hdir Hdest]].
  destruct (write_bytes_plain fs Hplain Hwf now dest data Hd Hdir Hdest)
    as [fs'' [g' [Hwrite Hrest]]].
  rewrite Hwrite in H. injection H as <-. now exists g'.
Qed.

End WriteOutcome.

(** Whatever an applied [encrypt_file] comes to, the source is as it was;
    when it returns, the destination holds the token. *)
Lemma encrypt_file_safe {platform : Platform} (src dest : Path) (key : bytes)
  (f : FileData) (st st' : State) (r : Outcome unit) :
  well_formed (fs st) -> no_symlinks (fs st) ->
  node_at (fs st) src = Some (File f) -> dest <> src ->
  encrypt_file src dest key false st = (r, st') ->
  well_formed (fs st') /\ no_symlinks (fs st')
  /\ node_at (fs st') src = Some (File f)
  /\ (r = Ok tt ->
      exists g', node_at (fs st') dest = Some (File g')
                 /\ content g' = fernet_encrypt key (content f)).
Proof.
  intros Hwf Hplain Hsrc Hneq Hrun. unfold encrypt_file in Hrun.
  destruct have_cryptography.
  2:{ unfold bind at 1 in Hrun. unfold bind at 1 in Hrun. unfold print at 1 in Hrun.
      unfold raise at 1 in Hrun. injection Hrun as <- <-. cbn [fs].
      split; [exact Hwf|]. split; [exact Hplain|]. split; [exact Hsrc | discriminate]. }
  unfold bind at 1 in Hrun. unfold ret at 1 in Hrun.
  pose proof (preserves_ensure_directory (pathlib.parent dest) st) as Hadd.
  pose proof (well_formed_ensure_directory (pathlib.parent dest) st Hwf) as Hwf1.
  unfold dirs_added in Hadd.
  assert (Hstop : forall st1 (r0 : Outcome unit) s,
             only_dirs_added (fs st) (fs st1) -> well_formed (fs st1) ->
             r0 <> Ok tt -> fs s = fs st1 ->
             well_formed (fs s) /\ no_symlinks (fs s)
             /\ node_at (fs s) src = Some (File f)
             /\ (r0 = Ok tt ->
                 exists g', node_at (fs s) dest = Some (File g')
                            /\ content g' = fernet_encrypt key (content f))).
  { intros st1 r0 s Ha Hw Hr ->. split; [exact Hw|].
    split; [exact (no_symlinks_dirs_added _ _ Ha Hplain)|].
    split; [exact (only_dirs_added_node _ _ _ _ Ha Hsrc) | contradiction]. }
  apply bind_cases in Hrun.
  destruct Hrun as [[[] [st1 [H1 Hrun]]]|[[e [H1 ->]]|[H1 ->]]];
    rewrite H1 in Hadd, Hwf1; cbn [snd] in Hadd, Hwf1;
    [| apply (Hstop st'); [exact Hadd | exact Hwf1 | discriminate | reflexivity] ..].
  pose proof (no_symlinks_dirs_added _ _ Hadd Hplain) as Hplain1.
  pose proof (only_dirs_added_node _ _ _ _ Hadd Hsrc) as Hsrc1.
  unfold print_action in Hrun.
  rewrite (bind_ok _ _ _ _ _ (print_printing _ st1)) in Hrun. cbv beta iota in Hrun.
  set (st2 := printing _ st1) in Hrun.
  assert (Hfs2 : fs st2 = fs st1) by reflexivity.
  destruct (fernet_key_ok key).
  2:{ unfold bind at 1 in Hrun. unfold raise at 1 in Hrun. injection Hrun as <- <-.
      apply (Hstop st1); [exact Hadd | exact Hwf1 | discriminate | exact Hfs2]. }
  unfold bind at 1 in Hrun. unfold ret at 1 in Hrun.
  destruct (readable f) eqn:Hreadable.
  2:{ assert (Hread : syscall (fun fs0 => os.read_bytes fs0 src) src st2
                      = (Raised (OSError EACCES src), st2)).
      { unfold syscall, os.read_bytes. rewrite Hfs2.
        now rewrite (resolve_plain_entry (fs st1) Hplain1 Hwf1 src _ Hsrc1), Hreadable. }
      rewrite (bind_raised _ _ _ _ _ Hread) in Hrun. injection Hrun as <- <-.
      apply (Hstop st1); [exact Hadd | exact Hwf1 | discriminate | exact Hfs2]. }
  assert (Hread : syscall (fun fs0 => os.read_bytes fs0 src) src st2
                  = (Ok (content f), st2)).
  { unfold syscall, os.read_bytes. rewrite Hfs2.
    now rewrite (resolve_plain_entry (fs st1) Hplain1 Hwf1 src _ Hsrc1), Hreadable. }
  rewrite (bind_ok _ _ _ _ _ Hread) in Hrun.
  unfold write_bytes, syscall_upd in Hrun. rewrite Hfs2 in Hrun.
  destruct (os.write_bytes (clock st2) (fs st1) dest (fernet_encrypt key (content f)))
    as [fs'|e] eqn:Hwrite.
  2:{ injection Hrun as <- <-.
      apply (Hstop st1); [exact Hadd | exact Hwf1 | discriminate | exact Hfs2]. }
  unfold set_fs in Hrun. injection Hrun as <- <-. cbn [fs].
  destruct (write_bytes_success (fs st1) Hplain1 Hwf1 _ _ _ _ Hwrite)
    as [g' [Hg' [Hcontent [Hothers [Hplain' Hwf']]]]].
  split; [exact Hwf'|]. split; [exact Hplain'|]. split.
  - rewrite (Hothers src); [exact Hsrc1 | congruence].
  - intros _. now exists g'.
Qed.

(** X15.  With [--remove-originals], applied, on a well-formed tree
    without symbolic links: whatever the handling of one regular file
    comes to, the file is either still there as it was, or it was deleted
    after the token of its content was written to its place below the
    output directory, and the file is counted. *)
Theorem remove_originals_keeps_content {platform : Platform}
  (root_dir output_dir : Path) (key : bytes) (file_path : Path) (f : FileData)
  (count : nat) (st st' : State) (r : Outcome nat) :
  well_formed (fs st) -> no_symlinks (fs st) ->
  node_at (fs st) file_path = Some (File f) ->
  encrypt_one root_dir output_dir key true false file_path count st = (r, st') ->
  node_at (fs st') file_path = Some (File f)
  \/ (r = Ok (count + 1)
      /\ node_at (fs st') file_path = None
      /\ exists relative g,
           file_path = root_dir ++ relative
           /\ node_at (fs st') (encrypted_path output_dir relative) = Some (File g)
           /\ content g = fernet_encrypt key (content f)).
Proof.
  intros Hwf Hplain Hsrc Hrun. unfold encrypt_one in Hrun.
  destruct (String.eqb (pathlib.suffix file_path) ".enc") eqn:Hsuffix.
  { injection Hrun as _ <-. now left. }
  destruct (pathlib.relative_to file_path root_dir) as [relative|] eqn:Hrel.
  2:{ unfold bind at 1 in Hrun. unfold raise at 1 in Hrun. injection Hrun as _ <-.
      now left. }
  apply relative_to_app in Hrel.
  unfold bind at 1 in Hrun. unfold ret at 1 in Hrun. unfold with_suffix in Hrun.
  destruct (String.eqb (pathlib.name relative) "") eqn:Hname.
  { unfold bind at 1 in Hrun. unfold raise at 1 in Hrun. injection Hrun as _ <-.
    now left. }
  apply String.eqb_neq in Hname.
  unfold bind at 1 in Hrun. unfold ret at 1 in Hrun.
  assert (Htarget : output_dir
                    ++ pathlib.joinpath (pathlib.parent relative)
                         (pathlib.stem relative ++ pathlib.suffix relative ++ ".enc")
                    = encrypted_path output_dir relative).
  { unfold encrypted_path, pathlib.joinpath. now rewrite <- append_assoc, stem_suffix. }
  rewrite Htarget in Hrun.
  assert (Hneq : encrypted_path output_dir relative <> file_path).
  { intros Heq. rewrite <- Heq, (suffix_encrypted_path _ _ Hname) in Hsuffix.
    discriminate. }
  apply bind_cases in Hrun.
  destruct Hrun as [[[] [st1 [H1 Hrun]]]|[[e [H1 ->]]|[H1 ->]]];
    destruct (encrypt_file_safe _ _ _ _ _ _ _ Hwf Hplain Hsrc Hneq H1)
      as [Hwf1 [Hplain1 [Hsrc1 Htoken]]];
    [| now left ..].
  destruct (Htoken eq_refl) as [g [Hg Hcontent]].
  right. cbv beta iota in Hrun. unfold print_action in Hrun.
  unfold bind at 1 in Hrun.
  rewrite (bind_ok _ _ _ _ _ (print_printing _ st1)) in Hrun.
  cbn [negb] in Hrun. cbv beta iota in Hrun.
  unfold try_OSError, syscall_upd in Hrun.
  change (fs (printing _ st1)) with (fs st1) in Hrun.
  assert (Hunlink : os.unlink (fs st1) file_path
                    = os.Success (os.remove_key file_path (fs st1))).
  { unfold os.unlink. now rewrite (resolve_entry_plain _ _ _ Hplain1 Hwf1 Hsrc1). }
  rewrite Hunlink in Hrun. unfold set_fs, ret in Hrun. injection Hrun as <- <-.
  cbn [fs]. split; [reflexivity|]. split; [apply node_at_removed|].
  exists relative, g. split; [exact Hrel|]. split; [|exact Hcontent].
  rewrite node_at_remove_key; [exact Hg | congruence].
Qed.

Lemma remove_originals_keeps_content_witness :
  let run := @encrypt_one sample_platform ["r"] ["e"] (text "key") true false
               ["r"; "a.txt"] 0 (initial fs_mixed) in
  node_at (fs (snd run)) ["r"; "a.txt"] = Some (plain "one")
  \/ (fst run = Ok (0 + 1)
      /\ node_at (fs (snd run)) ["r"; "a.txt"] = None
      /\ exists relative g,
           ["r"; "a.txt"] = ["r"] ++ relative
           /\ node_at (fs (snd run)) (encrypted_path ["e"] relative) = Some (File g)
           /\ content g = @fernet_encrypt sample_platform (text "key") (text "one")).
Proof.
  intros run.
  apply (@remove_originals_keeps_content sample_platform ["r"] ["e"] (text "key")
           ["r"; "a.txt"] (mkFile (text "one") 0 true true) 0 (initial fs_mixed)
           (snd run) (fst run)).
  - apply well_formedb_sound. reflexivity.
  - no_symlinks_sample.
  - reflexivity.
  - apply surjective_pairing.
Defined.

(** ** What encryption leaves alone *)

Lemma keeps_refl (spared : Path -> Prop) (st : State) : keeps spared st st.
Proof. intros Hwf Hplain. auto. Qed.

Lemma keeps_trans (spared : Path -> Prop) (a b c : State) :
  keeps spared a b -> keeps spared b c -> keeps spared a c.
Proof.
  intros Hab Hbc Hwf Hplain. destruct (Hab Hwf Hplain) as [Hwf1 [Hplain1 H1]].
  destruct (Hbc Hwf1 Hplain1) as [Hwf2 [Hplain2 H2]]. auto.
Qed.

Lemma keeps_same_fs (spared : Path -> Prop) (st st' : State) :
  fs st' = fs st -> keeps spared st st'.
Proof. intros E Hwf Hplain. rewrite E. auto. Qed.

Lemma preserves_ret_bind (R : State -> State -> Prop) {A B : Type} (a : A)
  (k : A -> M B) :
  preserves R (k a) -> preserves R (bind (ret a) k).
Proof. intros H st. exact (H st). Qed.

Lemma preserves_raise_bind (R : State -> State -> Prop) {A B : Type} (e : Exn)
  (k : A -> M B) :
  (forall st, R st st) -> preserves R (bind (raise e) k).
Proof. intros R_refl st. apply R_refl. Qed.

Ltac keeps_step spared :=
  first [ apply (preserves_ret _ (keeps_refl spared))
        | apply (preserves_raise _ (keeps_refl spared))
        | apply (preserves_print _ (keeps_same_fs spared))
        | apply (preserves_print_action _ (keeps_same_fs spared))
        | apply (preserves_syscall _ (keeps_refl spared))
        | apply (preserves_os_urandom _ (keeps_same_fs spared)) ].

Lemma keeps_ensure_directory (spared : Path -> Prop) (directory : Path) :
  preserves (keeps spared) (ensure_directory directory).
Proof.
  intros st Hwf Hplain.
  pose proof (preserves_ensure_directory directory st) as Hadd. unfold dirs_added in Hadd.
  split; [exact (well_formed_ensure_directory directory st Hwf)|].
  split; [exact (no_symlinks_dirs_added _ _ Hadd Hplain)|].
  intros q n _ Hn. exact (only_dirs_added_node _ _ _ _ Hadd Hn).
Qed.

Lemma keeps_write_bytes (spared : Path -> Prop) (dest : Path) (data : bytes) :
  (forall q, spared q -> q <> dest) ->
  preserves (keeps spared) (write_bytes dest data).
Proof.
  intros Hdest st Hwf Hplain. unfold write_bytes, syscall_upd.
  destruct (os.write_bytes (clock st) (fs st) dest data) as [fs'|e] eqn:Hwrite.
  - unfold set_fs. cbn [snd fs].
    destruct (write_bytes_success (fs st) Hplain Hwf _ _ _ _ Hwrite)
      as [g' [_ [_ [Hothers [Hplain' Hwf']]]]].
    split; [exact Hwf'|]. split; [exact Hplain'|].
    intros q n Hq Hn. rewrite (Hothers q (Hdest q Hq)). exact Hn.
  - cbn [snd]. auto.
Qed.

Lemma keeps_encrypt_file {platform : Platform} (spared : Path -> Prop)
  (src dest : Path) (key : bytes) (dry_run : bool) :
  (forall q, spared q -> q <> dest) ->
  preserves (keeps spared) (encrypt_file src dest key dry_run).
Proof.
  intros Hdest. unfold encrypt_file.
  apply (preserves_bind _ (keeps_trans spared)).
  { destruct have_cryptography; [keeps_step spared|].
    apply (preserves_bind _ (keeps_trans spared)); [keeps_step spared|].
    intros _. keeps_step spared. }
  intros _. apply (preserves_bind _ (keeps_trans spared));
    [apply keeps_ensure_directory|].
  intros _. apply (preserves_bind _ (keeps_trans spared)); [keeps_step spared|].
  intros _. destruct dry_run; [keeps_step spared|].
  apply (preserves_bind _ (keeps_trans spared)).
  { destruct (fernet_key_ok key); keeps_step spared. }
  intros _. apply (preserves_bind _ (keeps_trans spared)); [keeps_step spared|].
  intros data. now apply keeps_write_bytes.
Qed.

Lemma keeps_encrypt_one {platform : Platform} (root_dir output_dir : Path)
  (key : bytes) (dry_run : bool) (file_path : Path) (count : nat) :
  preserves (keeps not_enc)
    (encrypt_one root_dir output_dir key false dry_run file_path count).
Proof.
  unfold encrypt_one.
  destruct (String.eqb (pathlib.suffix file_path) ".enc"); [keeps_step not_enc|].
  destruct (pathlib.relative_to file_path root_dir) as [relative|];
    [|apply preserves_raise_bind, keeps_refl].
  apply preserves_ret_bind. unfold with_suffix.
  destruct (String.eqb (pathlib.name relative) "") eqn:Hname;
    [apply preserves_raise_bind, keeps_refl|].
  apply String.eqb_neq in Hname. apply preserves_ret_bind. cbv zeta.
  assert (Htarget : output_dir
                    ++ pathlib.joinpath (pathlib.parent relative)
                         (pathlib.stem relative ++ pathlib.suffix relative ++ ".enc")
                    = encrypted_path output_dir relative).
  { unfold encrypted_path, pathlib.joinpath. now rewrite <- append_assoc, stem_suffix. }
  rewrite Htarget.
  apply (preserves_bind _ (keeps_trans not_enc)).
  { apply keeps_encrypt_file. intros q Hq ->. apply Hq.
    exact (suffix_encrypted_path _ _ Hname). }
  intros _. apply (preserves_bind _ (keeps_trans not_enc)); [keeps_step not_enc|].
  intros _. keeps_step not_enc.
Qed.

(** The key store writes the key file only when nothing is there. *)
Lemma keeps_read_or_create_key {platform : Platform} (spared : Path -> Prop)
  (key_file : Path) :
  preserves (keeps spared) (read_or_create_key key_file).
Proof.
  intros st. unfold read_or_create_key.
  unfold bind at 1. unfold ask at 1.
  destruct (os.path_exists (fs st) key_file) eqn:Hpresent; cbv beta iota.
  - match goal with
    | |- keeps _ _ (snd (?c st)) => assert (H : preserves (keeps spared) c)
    end.
    { apply (preserves_bind _ (keeps_trans spared)); [keeps_step spared|].
      intros data. keeps_step spared. }
    exact (H st).
  - set (other := fun q : Path => q <> key_file).
    match goal with
    | |- keeps _ _ (snd (?c st)) => assert (H : preserves (keeps other) c)
    end.
    { apply (preserves_bind _ (keeps_trans other)).
      { destruct have_cryptography; [unfold Fernet_generate_key|];
          (apply (preserves_bind _ (keeps_trans other)); [keeps_step other|]);
          intros random_bytes; keeps_step other. }
      intros key. apply (preserves_bind _ (keeps_trans other));
        [apply keeps_ensure_directory|].
      intros _. apply (preserves_bind _ (keeps_trans other)).
      { apply keeps_write_bytes. intros q Hq. exact Hq. }
      intros _. apply (preserves_bind _ (keeps_trans other)); [keeps_step other|].
      intros _. keeps_step other. }
    intros Hwf Hplain.
    assert (Habsent : forall q n, node_at (fs st) q = Some n -> q <> key_file).
    { intros q n Hn ->. unfold os.path_exists in Hpresent.
      now rewrite (resolve_plain_entry (fs st) Hplain Hwf _ _ Hn) in Hpresent. }
    destruct (H st Hwf Hplain) as [Hwf' [Hplain' Hkeep]].
    split; [exact Hwf'|]. split; [exact Hplain'|].
    intros q n _ Hn. apply Hkeep; [exact (Habsent q n Hn) | exact Hn].
Qed.

(** X16.  Without [--remove-originals], [encrypt_tree] on a well-formed
    tree without symbolic links leaves every entry whose name does not end
    in [.enc] as it was, applied or not and whatever the run comes to: it
    only makes directories, writes the key file where nothing was, and
    writes files named [*.enc]. *)
Theorem encrypt_tree_spares_other_files {platform : Platform} (steps : nat)
  (root_dir output_dir key_file : Path) (include_hidden : bool)
  (exclude_globs : list string) (dry_run : bool) (st st' : State)
  (r : Outcome nat) :
  well_formed (fs st) -> no_symlinks (fs st) ->
  encrypt_tree steps root_dir output_dir key_file include_hidden exclude_globs
    false dry_run st = (r, st') ->
  well_formed (fs st') /\ no_symlinks (fs st')
  /\ forall q n,
       pathlib.suffix q <> ".enc"%string ->
       node_at (fs st) q = Some n -> node_at (fs st') q = Some n.
Proof.
  intros Hwf Hplain Hrun.
  assert (H : preserves (keeps not_enc)
                (encrypt_tree steps root_dir output_dir key_file include_hidden
                   exclude_globs false dry_run)).
  { unfold encrypt_tree.
    apply (preserves_bind _ (keeps_trans not_enc)); [apply keeps_read_or_create_key|].
    intros key. apply (preserves_bind _ (keeps_trans not_enc)).
    { apply (preserves_for_each _ (keeps_refl not_enc) (keeps_trans not_enc)).
      intros p acc. apply keeps_encrypt_one. }
    intros count. apply (preserves_bind _ (keeps_trans not_enc)).
    { destruct (count =? 0); keeps_step not_enc. }
    intros _. keeps_step not_enc. }
  specialize (H st Hwf Hplain). rewrite Hrun in H. exact H.
Qed.

Lemma encrypt_tree_spares_other_files_witness :
  let run := @encrypt_tree sample_platform 40 ["r"] ["e"] ["k"] false [] false false
               (initial fs_unreadable) in
  well_formed (fs (snd run)) /\ no_symlinks (fs (snd run))
  /\ forall q n,
       pathlib.suffix q <> ".enc"%string ->
       node_at fs_unreadable q = Some n -> node_at (fs (snd run)) q = Some n.
Proof.
  intros run.
  apply (@encrypt_tree_spares_other_files sample_platform 40 ["r"] ["e"] ["k"] false []
           false (initial fs_unreadable) (snd run) (fst run)).
  - apply well_formedb_sound. reflexivity.
  - no_symlinks_sample.
  - apply surjective_pairing.
Defined.

(** ** Reading in chunks *)

Lemma read_chunk_spec (data : bytes) :
  forall chunk_size chunk rest,
    read_chunk chunk_size data = (chunk, rest) ->
    chunk ++ rest = data
    /\ ((0 < chunk_size)%N -> data <> [] -> chunk <> []).
Proof.
  induction data as [|b data IH]; intros chunk_size chunk rest; simpl.
  - intros [= <- <-]. split; [reflexivity | intros _ H; now contradiction H].
  - destruct (N.eqb_spec chunk_size 0) as [->|Hpos].
    + intros [= <- <-]. split; [reflexivity | intros H; inversion H].
    + destruct (read_chunk (N.pred chunk_size) data) as [chunk' rest'] eqn:E.
      intros [= <- <-]. destruct (IH _ _ _ E) as [<- _].
      split; [reflexivity | discriminate].
Qed.

Section Chunks.

Context {platform : Platform}.

(** What a streaming hash does: feeding it two chunks is feeding it their
    concatenation, and feeding it nothing changes nothing. *)
Hypothesis update_app :
  forall h a b, hasher_update (hasher_update h a) b = hasher_update h (a ++ b).
Hypothesis update_nil : forall h, hasher_update h [] = h.

Lemma hash_chunks_whole (chunk_size : N) :
  (0 < chunk_size)%N ->
  forall rounds data hasher,
    length data < rounds ->
    hash_chunks rounds chunk_size hasher data = hasher_update hasher data.
Proof.
  intros Hpos. induction rounds as [|rounds IH]; intros data hasher Hlen; [lia|].
  cbn [hash_chunks].
  destruct (read_chunk chunk_size data) as [chunk rest] eqn:E.
  destruct (read_chunk_spec data _ _ _ E) as [Hdata Hchunk].
  destruct chunk as [|c chunk].
  - destruct data as [|b data]; [now rewrite update_nil|].
    exfalso. now apply (Hchunk Hpos).
  - rewrite IH.
    + now rewrite update_app, Hdata.
    + rewrite <- Hdata in Hlen. rewrite length_app in Hlen. simpl in Hlen. lia.
Qed.

End Chunks.

(** X17.  [compute_file_hash] reads the file in chunks, and the size of
    the chunks does not show: with a streaming hash, the digest of a
    readable file is the digest of its whole content, for every positive
    chunk size. *)
Theorem compute_file_hash_whole_content {platform : Platform} (file_path : Path)
  (hash_name : string) (chunk_size : N) (data : bytes) (st : State) :
  (forall h a b, hasher_update (hasher_update h a) b = hasher_update h (a ++ b)) ->
  (forall h, hasher_update h [] = h) ->
  (0 < chunk_size)%N ->
  os.read_bytes (fs st) file_path = os.Success data ->
  fst (compute_file_hash file_path hash_name chunk_size st)
  = Ok (hexdigest (hasher_update (hashlib_new hash_name) data)).
Proof.
  intros Happ Hnil Hpos Hread.
  unfold compute_file_hash, bind, syscall. cbn [fs]. rewrite Hread.
  unfold ret. cbn [fst].
  now rewrite (hash_chunks_whole Happ Hnil chunk_size Hpos (S (length data)) data
                 (hashlib_new hash_name) (Nat.lt_succ_diag_r _)).
Qed.

Lemma compute_file_hash_whole_content_witness :
  fst (@compute_file_hash sample_platform ["r"; "d.txt"] "sha256" 3
         (initial fs_duplicates))
  = Ok (@hexdigest sample_platform
          (@hasher_update sample_platform (@hashlib_new sample_platform "sha256")
             (text "01234567890123456789"))).
Proof.
  apply (@compute_file_hash_whole_content sample_platform ["r"; "d.txt"] "sha256" 3
           (text "01234567890123456789") (initial fs_duplicates)).
  - intros h a b. symmetry. apply app_assoc.
  - intros h. apply app_nil_r.
  - reflexivity.
  - reflexivity.
Defined.

(** ** The exit code *)

Lemma is_dir_path_exists (fs : FS) (p : Path) :
  os.is_dir fs p = true -> os.path_exists fs p = true.
Proof.
  unfold os.is_dir, os.path_exists. now destruct (resolve fs p) as [k [| | |]| |].
Qed.

Lemma Path_resolve_ok {platform : Platform} (p : Path) (st : State) :
  on_loop (fs st) p = false ->
  Path_resolve p st = (Ok (path_resolve (fs st) p), st).
Proof.
  unfold on_loop, Path_resolve. cbv zeta.
  destruct (os.stat (fs st) (path_resolve (fs st) p)) as [info|[]];
    (reflexivity || discriminate).
Qed.

Lemma Path_resolve_loop {platform : Platform} (p : Path) (st : State) :
  on_loop (fs st) p = true ->
  Path_resolve p st
  = (Raised (RuntimeError ("Symlink loop from "
                           ++ repr (pathlib.str (path_resolve (fs st) p)))), st).
Proof.
  unfold on_loop, Path_resolve. cbv zeta.
  destruct (os.stat (fs st) (path_resolve (fs st) p)) as [info|[]];
    (reflexivity || discriminate).
Qed.

Lemma is_dir_not_on_loop (fs : FS) (p : Path) :
  os.is_dir fs (path_resolve fs p) = true -> on_loop fs p = false.
Proof.
  unfold os.is_dir, on_loop, os.stat.
  now destruct (resolve fs (path_resolve fs p)) as [k [| | |]| |].
Qed.



(** X19.  With a root that resolves to a directory, [main] returns 0
    whenever it returns.  When none of [--dedupe], [--organize] and
    [--encrypt] is given, the name of the root is within the limits and
    none of the four directories and files of the options runs into a loop
    of symbolic links, it says that there is nothing to do, returns 0 and
    changes nothing, with [--apply] or without; when one of the four is on
    such a loop, [main] raises [RuntimeError] and changes nothing. *)
Theorem main_returns_zero {platform : Platform} (steps : nat) (args : Args)
  (st : State) :
  let root_dir := path_resolve (fs st) (arg_root args) in
  let options :=
    [ or_default (arg_duplicates_dir args) (pathlib.joinpath root_dir "_duplicates");
      or_default (arg_organize_dir args) (pathlib.joinpath root_dir "_organized");
      or_default (arg_encryption_output_dir args) (pathlib.joinpath root_dir "_encrypted");
      or_default (arg_key_file args) (pathlib.joinpath root_dir "_key.fernet") ] in
  os.is_dir (fs st) root_dir = true ->
  (forall code st', main steps args st = (Ok code, st') -> code = 0%Z)
  /\ (os.name_too_long (fs st) root_dir = false ->
      forallb (fun p => negb (on_loop (fs st) p)) options = true ->
      arg_dedupe args = None -> arg_organize args = None ->
      arg_encrypt args = false ->
      main steps args st
      = (Ok 0%Z,
         printing ["Nothing to do. Pass one or more of --dedupe, --organize, --encrypt."]
           st))
  /\ (os.name_too_long (fs st) root_dir = false ->
      forallb (fun p => negb (on_loop (fs st) p)) options = false ->
      exists msg, main steps args st = (Raised (RuntimeError msg), st)).
Proof.
  cbv zeta. intros Hdir. pose proof (is_dir_path_exists _ _ Hdir) as Hexists.
  pose proof (is_dir_not_on_loop _ _ Hdir) as Hloop.
  assert (Hstart : forall k : Path -> M Z,
             (root_dir <- Path_resolve (arg_root args) ;; k root_dir) st
             = k (path_resolve (fs st) (arg_root args)) st).
  { intros k. now rewrite (bind_ok _ _ _ _ _ (Path_resolve_ok _ _ Hloop)). }
  split; [|split].
  - intros code st' Hrun. unfold main in Hrun. rewrite Hstart in Hrun.
    cbv zeta in Hrun.
    unfold bind at 1 in Hrun. unfold syscall at 1 in Hrun. unfold os.Path_exists in Hrun.
    destruct (os.name_too_long (fs st) (path_resolve (fs st) (arg_root args)));
      [discriminate|].
    unfold bind at 1 in Hrun. unfold ask at 1 in Hrun.
    rewrite Hdir, Hexists in Hrun. cbn [andb negb] in Hrun. cbv beta iota zeta in Hrun.
    do 7 (apply bind_ok_inv in Hrun; destruct Hrun as [? [? [_ Hrun]]]).
    match type of Hrun with
    | (if negb ?b then _ else _) _ = _ => destruct b
    end; cbn [negb] in Hrun; cbv beta iota in Hrun.
    + apply bind_ok_inv in Hrun. destruct Hrun as [? [? [_ Hrun]]].
      now injection Hrun as <- _.
    + apply bind_ok_inv in Hrun. destruct Hrun as [? [? [_ Hrun]]].
      now injection Hrun as <- _.
  - intros Hlong Hoptions Hdedupe Horganize Hencrypt.
    cbn [forallb] in Hoptions.
    repeat (apply andb_true_iff in Hoptions; destruct Hoptions as [?H Hoptions]).
    repeat match goal with
           | H : negb (on_loop _ _) = true |- _ => apply negb_true_iff in H
           end.
    unfold main. rewrite Hstart. cbv zeta.
    unfold bind at 1. unfold syscall at 1. unfold os.Path_exists. rewrite Hlong.
    unfold bind at 1. unfold ask at 1.
    rewrite Hdir, Hexists. cbn [andb negb]. cbv beta iota.
    rewrite (bind_ok _ _ _ _ _ (Path_resolve_ok _ _ H)).
    rewrite (bind_ok _ _ _ _ _ (Path_resolve_ok _ _ H0)).
    rewrite (bind_ok _ _ _ _ _ (Path_resolve_ok _ _ H1)).
    rewrite (bind_ok _ _ _ _ _ (Path_resolve_ok _ _ H2)).
    rewrite Hdedupe, Horganize, Hencrypt. reflexivity.
  - intros Hlong Hoptions.
    unfold main. rewrite Hstart. cbv zeta.
    unfold bind at 1. unfold syscall at 1. unfold os.Path_exists. rewrite Hlong.
    unfold bind at 1. unfold ask at 1.
    rewrite Hdir, Hexists. cbn [andb negb]. cbv beta iota.
    cbn [forallb] in Hoptions.
    do 4 (match goal with
          | |- context [bind (Path_resolve ?p) _ st] =>
              let E := fresh "E" in
              destruct (on_loop (fs st) p) eqn:E;
              [ rewrite (bind_raised _ _ _ _ _ (Path_resolve_loop _ _ E));
                eexists; reflexivity
              | rewrite (bind_ok _ _ _ _ _ (Path_resolve_ok _ _ E)) ]
          end).
    discriminate.
Qed.

Lemma main_returns_zero_witness :
  (forall code st',
      @main sample_platform 40
        (mkArgs ["in"] false [] true None None None None false None None false)
        (initial fs_inbox) = (Ok code, st') -> code = 0%Z)
  /\ @main sample_platform 40
       (mkArgs ["in"] false [] true None None None None false None None false)
       (initial fs_inbox)
     = (Ok 0%Z,
        printing ["Nothing to do. Pass one or more of --dedupe, --organize, --encrypt."]
          (initial fs_inbox)).
Proof.
  destruct (@main_returns_zero sample_platform 40
              (mkArgs ["in"] false [] true None None None None false None None false)
              (initial fs_inbox) eq_refl) as [Hcode [Hnothing _]].
  split; [exact Hcode | exact (Hnothing eq_refl eq_refl eq_refl eq_refl eq_refl)].
Defined.

(** ** Moving the duplicates away *)

(** The loop over the members that are not kept, in [move] mode: when it
    returns, every member has a place in the directory of the duplicates,
    and every other regular file is where it was. *)
Lemma move_all {platform : Platform} (steps : nat) (duplicates_dir : Path) (others : list Path) :
  forall operated st n st',
    well_formed (fs st) -> no_symlinks (fs st) ->
    NoDup others ->
    (forall p, In p others -> exists f, node_at (fs st) p = Some (File f)) ->
    for_list others (dedupe_one steps "move" duplicates_dir false) operated st
    = (Ok n, st') ->
    n = operated + length others
    /\ (forall q g, ~ In q others -> node_at (fs st) q = Some (File g) ->
                    node_at (fs st') q = Some (File g))
    /\ (forall p f, In p others -> node_at (fs st) p = Some (File f) ->
                    exists final,
                      pathlib.parent final = duplicates_dir
                      /\ node_at (fs st') final = Some (File f)).
Proof.
  induction others as [|dup others IH]; intros operated st n st' Hwf Hplain Hnd Hfiles Hrun.
  - simpl in Hrun. injection Hrun as <- <-.
    split; [simpl; lia|]. split; [auto | intros p f []].
  - inversion Hnd as [|? ? Hdup Hrest]; subst.
    destruct (Hfiles dup (or_introl eq_refl)) as [f Hf].
    cbn [for_list] in Hrun. apply bind_ok_inv in Hrun.
    destruct Hrun as [n1 [st1 [Hone Hrun]]].
    unfold dedupe_one in Hone. cbn [String.eqb Ascii.eqb Bool.eqb] in Hone.
    cbv zeta in Hone. apply bind_ok_inv in Hone.
    destruct Hone as [[] [st1' [Hmove Hret]]]. injection Hret as <- <-.
    destruct (safe_move_plain_file _ _ _ _ _ _ Hwf Hplain Hf Hmove)
      as [_ [_ [Hwf1 [Hplain1 _]]]].
    destruct (safe_move_file_inv _ _ _ _ _ _ Hwf Hplain Hf Hmove)
      as [final [Hchoice [Hfree [Hneq [Hfinal Hothers]]]]].
    assert (Hparent : pathlib.parent final = duplicates_dir).
    { destruct Hchoice as [->|[k ->]];
        [|rewrite candidate_parent]; apply parent_joinpath. }
    assert (Hkept : forall q g, q <> dup -> node_at (fs st) q = Some (File g) ->
                                node_at (fs st1') q = Some (File g)).
    { intros q g Hq Hg. apply Hothers; [congruence | now split]. }
    assert (Hfinal_out : ~ In final others).
    { intros Hin. destruct (Hfiles final (or_intror Hin)) as [g Hg]. congruence. }
    destruct (IH (operated + 1) st1' n st' Hwf1 Hplain1 Hrest) as [Hn [Hout Hin]].
    + intros p Hp. destruct (Hfiles p (or_intror Hp)) as [g Hg]. exists g.
      apply Hkept; [|exact Hg]. intros ->. contradiction.
    + exact Hrun.
    + split; [simpl; lia|]. split.
      * intros q g Hq Hg. apply Hout; [intros H; apply Hq; now right|].
        apply Hkept; [|exact Hg]. intros ->. apply Hq. now left.
      * intros p g [<-|Hp] Hg.
        -- exists final. split; [exact Hparent|].
           apply Hout; [exact Hfinal_out|]. congruence.
        -- apply (Hin p g Hp). apply Hkept; [|exact Hg]. intros ->. contradiction.
Qed.

(** X20.  Applied dedupe in move mode, for one group of regular files on
    a well-formed tree without symbolic links, when it returns: every
    member but the one kept is counted and its content has a place in the
    directory of the duplicates; the member kept, and every regular file
    that is not in the group, is where it was. *)
Theorem dedupe_move_keeps_content {platform : Platform} (steps : nat)
  (duplicates_dir : Path) (digest : string) (paths : list Path) (operated n : nat)
  (st st' : State) :
  well_formed (fs st) -> no_symlinks (fs st) ->
  NoDup paths ->
  (forall p, In p paths -> exists f, node_at (fs st) p = Some (File f)) ->
  dedupe_group steps "move" duplicates_dir false (digest, paths) operated st
  = (Ok n, st') ->
  exists original,
    python_min (fun p => len (pathlib.str p)) paths = Some original
    /\ In original paths
    /\ n = operated + (length paths - 1)
    /\ (forall q g, ~ In q paths \/ q = original ->
                    node_at (fs st) q = Some (File g) ->
                    node_at (fs st') q = Some (File g))
    /\ (forall p f, In p paths -> p <> original ->
                    node_at (fs st) p = Some (File f) ->
                    exists final,
                      pathlib.parent final = duplicates_dir
                      /\ node_at (fs st') final = Some (File f)).
Proof.
  intros Hwf Hplain Hnd Hfiles Hrun.
  destruct paths as [|x l]; [discriminate|].
  set (paths := x :: l) in *.
  set (original := min_from (fun p => len (pathlib.str p)) x l).
  assert (Hin : In original paths).
  { destruct (min_from_first_minimal (fun p => len (pathlib.str p)) l x)
      as [before [after [Heq _]]].
    unfold paths. rewrite Heq. apply in_elt. }
  set (others := filter (fun p => negb (path_eqb p original)) paths).
  assert (Hothers : forall p, In p others <-> In p paths /\ p <> original).
  { intros p. unfold others. rewrite filter_In.
    destruct (path_eqb_spec p original); simpl; intuition congruence. }
  unfold dedupe_group in Hrun. cbn [fst snd] in Hrun.
  change (python_min (fun p => len (pathlib.str p)) paths)
    with (Some original) in Hrun.
  cbv beta iota zeta in Hrun. fold others in Hrun.
  rewrite (bind_ok _ _ _ _ _ (print_printing _ st)) in Hrun.
  set (st0 := printing _ st) in Hrun.
  destruct (move_all steps duplicates_dir others operated st0 n st' Hwf Hplain
              (NoDup_filter _ Hnd)) as [Hn [Hout Hmoved]].
  - intros p Hp. apply Hfiles. now apply Hothers.
  - exact Hrun.
  - exists original. split; [reflexivity|]. split; [exact Hin|]. split; [|split].
    + rewrite Hn. unfold others. now rewrite (length_filter_out paths original Hnd Hin).
    + intros q g Hq Hg. apply Hout; [|exact Hg].
      intros H. apply Hothers in H. destruct H as [H1 H2]. destruct Hq; auto.
    + intros p f Hp Hne Hf. apply (Hmoved p f); [|exact Hf]. now apply Hothers.
Qed.

Lemma dedupe_move_keeps_content_witness :
  let run := @dedupe_group sample_platform 9 "move" ["r"; "_duplicates"] false
               ("30313233", [["r"; "b.txt"]; ["r"; "a.txt"]]) 0
               (initial fs_duplicates) in
  exists original,
    python_min (fun p => len (pathlib.str p))
      [["r"; "b.txt"]; ["r"; "a.txt"]] = Some original
    /\ In original [["r"; "b.txt"]; ["r"; "a.txt"]]
    /\ 1 = 0 + (2 - 1)
    /\ (forall q g, ~ In q [["r"; "b.txt"]; ["r"; "a.txt"]] \/ q = original ->
                    node_at fs_duplicates q = Some (File g) ->
                    node_at (fs (snd run)) q = Some (File g))
    /\ (forall p f, In p [["r"; "b.txt"]; ["r"; "a.txt"]] -> p <> original ->
                    node_at fs_duplicates p = Some (File f) ->
                    exists final,
                      pathlib.parent final = ["r"; "_duplicates"]
                      /\ node_at (fs (snd run)) final = Some (File f)).
Proof.
  intros run.
  apply (@dedupe_move_keeps_content sample_platform 9 ["r"; "_duplicates"] "30313233"
           [["r"; "b.txt"]; ["r"; "a.txt"]] 0 1 (initial fs_duplicates) (snd run)).
  - apply well_formedb_sound. reflexivity.
  - no_symlinks_sample.
  - repeat constructor; simpl; intuition discriminate.
  - intros p [<-|[<-|[]]]; eexists; reflexivity.
  - vm_compute. reflexivity.
Defined.

(** ** What a preview counts *)

(** In a preview, [delete] mode announces a member and leaves the counter
    alone. *)
Lemma delete_dry_all {platform : Platform} (steps : nat) (duplicates_dir : Path) (others : list Path) :
  forall operated st,
    for_list others (dedupe_one steps "delete" duplicates_dir true) operated st
    = (Ok operated,
       printing (map (fun dup => "[DRY-RUN] delete " ++ pathlib.str dup)%string others)
         st).
Proof.
  induction others as [|dup others IH]; intros operated st.
  - simpl. now rewrite printing_nil.
  - cbn [for_list map].
    assert (Hone : dedupe_one steps "delete" duplicates_dir true dup operated st
                   = (Ok operated,
                      printing ["[DRY-RUN] delete " ++ pathlib.str dup]%string st))
      by reflexivity.
    rewrite (bind_ok _ _ _ _ _ Hone), IH.
    now rewrite printing_app.
Qed.

Lemma delete_dry_group {platform : Platform} (steps : nat) (duplicates_dir : Path) (digest : string)
  (paths : list Path) (operated : nat) (st : State) :
  paths <> [] ->
  exists lines,
    dedupe_group steps "delete" duplicates_dir true (digest, paths) operated st
    = (Ok operated, printing lines st).
Proof.
  intros Hpaths. destruct paths as [|x l]; [contradiction|].
  unfold dedupe_group. cbn [fst snd python_min]. cbv beta iota zeta.
  rewrite (bind_ok _ _ _ _ _ (print_printing _ st)).
  rewrite delete_dry_all, printing_app. eexists. reflexivity.
Qed.

Lemma delete_dry_groups {platform : Platform} (steps : nat) (duplicates_dir : Path)
  (duplicates : Dict string (list Path)) :
  Forall (fun h_ps => 2 <= length (snd h_ps)) duplicates ->
  forall operated st,
    exists st',
      for_list duplicates (dedupe_group steps "delete" duplicates_dir true) operated st
      = (Ok operated, st')
      /\ fs st' = fs st.
Proof.
  induction 1 as [|[digest paths] duplicates Hpaths _ IH]; intros operated st.
  - exists st. now split.
  - cbn [for_list].
    destruct (delete_dry_group steps duplicates_dir digest paths operated st)
      as [lines Hgroup].
    { intros ->. simpl in Hpaths. lia. }
    rewrite (bind_ok _ _ _ _ _ Hgroup).
    destruct (IH operated (printing lines st)) as [st' [Hrun Hfs]].
    exists st'. split; [exact Hrun|]. rewrite Hfs. reflexivity.
Qed.

(** X21.  A preview of dedupe in [delete] mode counts nothing: whatever
    duplicates are found, [dedupe_action] returns the number of groups and
    0 files, and the file system is as it was.  (The counter is advanced
    inside [if not dry_run]; [move] mode advances it in a preview as
    well.) *)
Theorem dedupe_delete_preview_counts_nothing {platform : Platform} (steps : nat)
  (root_dir duplicates_dir : Path) (include_hidden : bool)
  (exclude_globs : list string) (duplicates : Dict string (list Path))
  (st st1 : State) :
  find_duplicates steps root_dir include_hidden exclude_globs st
  = (Ok duplicates, st1) ->
  exists st',
    dedupe_action steps root_dir "delete" duplicates_dir include_hidden exclude_globs
      true st
    = (Ok (length duplicates, 0), st')
    /\ fs st' = fs st.
Proof.
  intros Hfind.
  pose proof (find_duplicates_groups _ _ _ _ _ _ _ Hfind) as Hgroups.
  pose proof (preserves_find_duplicates same_fs same_fs_refl same_fs_trans
                (fun a b H => H) steps root_dir include_hidden exclude_globs st) as Hfs.
  rewrite Hfind in Hfs. cbn [snd] in Hfs. unfold same_fs in Hfs.
  unfold dedupe_action. rewrite (bind_ok _ _ _ _ _ Hfind).
  destruct duplicates as [|group duplicates].
  - eexists. split; [reflexivity | exact Hfs].
  - rewrite (bind_ok _ _ _ _ _ (print_printing _ st1)).
    destruct (delete_dry_groups steps duplicates_dir (group :: duplicates) Hgroups 0
                (printing ["Found " ++ decimal (length (group :: duplicates))
                           ++ " duplicate groups."]%string st1))
      as [st' [Hrun Hfs']].
    exists st'. rewrite (bind_ok _ _ _ _ _ Hrun).
    split; [reflexivity|]. rewrite Hfs'. exact Hfs.
Qed.

Lemma dedupe_delete_preview_counts_nothing_witness :
  exists st',
    @dedupe_action sample_platform 20 ["r"] "delete" ["r"; "_duplicates"] false [] true
      (initial fs_duplicates)
    = (Ok (length [("0123456789"%string, [["r"; "a.txt"]; ["r"; "b.txt"]])], 0), st')
    /\ fs st' = fs_duplicates.
Proof.
  apply (@dedupe_delete_preview_counts_nothing sample_platform 20 ["r"]
           ["r"; "_duplicates"] false []
           [("0123456789"%string, [["r"; "a.txt"]; ["r"; "b.txt"]])]
           (initial fs_duplicates)
           (snd (@find_duplicates sample_platform 20 ["r"] false []
                   (initial fs_duplicates)))).
  vm_compute. reflexivity.
Defined.

(** ** The member that is kept, and what becomes of the others *)





(** ** The properties on sample inputs *)

(** C1.  The claim fails on the program where the destination is a
    symbolic link whose target is missing: [exists()] follows the link and
    answers [False], so no candidate is looked for, and the move replaces
    the link.  Here [/r/_organized/txt/a.txt] is such a link; the applied
    organize run logs the move of [/r/a.txt] to that very name, and the
    link is gone afterwards, the file in its place. *)
Theorem safe_move_replaces_dangling_link :
  let dest := ["r"; "_organized"; "txt"; "a.txt"] in
  let st' := snd (@main sample_platform 20 organize_ext_apply
                    (initial fs_link_at_destination)) in
  node_at fs_link_at_destination dest = Some (Symlink ["r"; "gone.txt"])
  /\ os.islink fs_link_at_destination dest = true
  /\ os.path_exists fs_link_at_destination dest = false
  /\ safe_move 5 ["r"; "a.txt"] dest false (initial fs_link_at_destination)
     = (Ok tt,
        mkState [ (["r"], Dir); (dest, plain "one");
                  (["r"; "_organized"], Dir); (["r"; "_organized"; "txt"], Dir) ]
          ["move /r/a.txt -> /r/_organized/txt/a.txt"] 0 0 [])
  /\ fst (@main sample_platform 20 organize_ext_apply (initial fs_link_at_destination))
     = Ok 0%Z
  /\ out st' = ["move /r/a.txt -> /r/_organized/txt/a.txt";
                "Organize: 1 files moved."; "Done."]
  /\ node_at (fs st') dest = Some (plain "one")
  /\ os.islink (fs st') dest = false.
Proof. vm_compute. repeat split. Qed.

(** C2.  The claim fails on the program: a run without [--apply] makes
    directories, and what it logs is not always what the applied run does.
    In the tree [fs_mixed], where [/r/_organized] is missing, the dry run
    of organize by extension returns 0 and leaves [/r/_organized],
    [/r/_organized/txt] and [/r/_organized/md] behind; it announces the one
    destination [/r/_organized/txt/a.txt] for [/r/a.txt] and for
    [/r/sub/a.txt], where the applied run moves the second to
    [/r/_organized/txt/a__1.txt].  No file is moved by the dry run. *)
Theorem dry_run_makes_directories :
  let dry := @main sample_platform 20 organize_ext_preview (initial fs_mixed) in
  let applied := @main sample_platform 20 organize_ext_apply (initial fs_mixed) in
  fst dry = Ok 0%Z
  /\ node_at fs_mixed ["r"; "_organized"] = None
  /\ fs (snd dry)
     = fs_mixed ++ [ (["r"; "_organized"], Dir); (["r"; "_organized"; "txt"], Dir);
                     (["r"; "_organized"; "md"], Dir) ]
  /\ out (snd dry)
     = ["[DRY-RUN] move /r/a.txt -> /r/_organized/txt/a.txt";
        "[DRY-RUN] move /r/b.MD -> /r/_organized/md/b.MD";
        "[DRY-RUN] move /r/sub/a.txt -> /r/_organized/txt/a.txt";
        "Organize: 3 files moved.";
        "Dry-run complete. Re-run with --apply to make changes."]
  /\ fst applied = Ok 0%Z
  /\ out (snd applied)
     = ["move /r/a.txt -> /r/_organized/txt/a.txt";
        "move /r/b.MD -> /r/_organized/md/b.MD";
        "move /r/sub/a.txt -> /r/_organized/txt/a__1.txt";
        "Organize: 3 files moved."; "Done."]
  /\ node_at (fs (snd applied)) ["r"; "_organized"; "txt"; "a__1.txt"] = Some (plain "two").
Proof. vm_compute. repeat split. Qed.

Lemma unique_sizes_never_hashed_witness :
  let st := initial fs_duplicates in
  let sizes := [(10, [["r"; "a.txt"]; ["r"; "b.txt"]; ["r"; "c.txt"]]);
                (20, [["r"; "d.txt"]])] in
  (exists duplicates,
      @find_duplicates sample_platform 10 ["r"] false [] st
      = (Ok duplicates, hashing (to_hash sizes) st)
      /\ Forall (fun h_ps => 2 <= length (snd h_ps)) duplicates)
  /\ ~ In ["r"; "d.txt"] (to_hash sizes).
Proof.
  intros st sizes.
  destruct (@unique_sizes_never_hashed sample_platform 10 ["r"] false [] st)
    as [Hsizes _].
  destruct (Hsizes sizes st eq_refl) as [_ [Hfound Hunique]].
  split; [exact Hfound|].
  apply (Hunique 20 [["r"; "d.txt"]]); simpl; auto.
Defined.

Lemma dedupe_report_never_mutates_witness :
  let st := initial fs_duplicates in
  let duplicates := [("0123456789", [["r"; "a.txt"]; ["r"; "b.txt"]])] in
  fs (snd (@dedupe_action sample_platform 10 ["r"] "report" ["r"; "_duplicates"]
             false [] false st)) = fs st
  /\ @dedupe_action sample_platform 10 ["r"] "report" ["r"; "_duplicates"] false []
       false st
     = (Ok (length duplicates, 0),
        printing (dedupe_report duplicates)
          (hashing [["r"; "a.txt"]; ["r"; "b.txt"]; ["r"; "c.txt"]] st)).
Proof.
  intros st duplicates.
  destruct (@dedupe_report_never_mutates sample_platform 10 ["r"] ["r"; "_duplicates"]
              false [] false st) as [Hfs Hlog].
  split; [exact Hfs|]. apply Hlog. reflexivity.
Defined.




(** C4 fails on the program: a file that cannot be read makes
    [encrypt_tree] raise, and the whole program with it; the failure is
    not logged and the file after it is not encrypted. *)
Lemma encrypt_tree_aborts_on_unreadable_file :
  (let r := @encrypt_tree sample_platform 50 ["r"] ["e"] ["k"] false [] false false
              (initial fs_unreadable) in
   fst r = Raised (OSError EACCES ["r"; "a.txt"])
   /\ os.is_file (fs (snd r)) ["r"; "b.txt"] = true
   /\ os.read_bytes (fs (snd r)) ["r"; "b.txt"] = os.Success (text "public")
   /\ os.path_exists (fs (snd r)) ["e"; "b.txt.enc"] = false
   /\ out (snd r) = ["Wrote key file: /k"; "encrypt /r/a.txt -> /e/a.txt.enc"])
  /\ (let r := @main sample_platform 50 encrypt_apply (initial fs_unreadable) in
      fst r = Raised (OSError EACCES ["r"; "a.txt"])
      /\ os.path_exists (fs (snd r)) ["e"; "b.txt.enc"] = false
      /\ out (snd r) = ["Wrote key file: /k"; "encrypt /r/a.txt -> /e/a.txt.enc"]).
Proof. split; repeat split. Qed.

(** Where the sibling loop of [find_duplicates] meets the same file, it
    skips it and goes on. *)
Lemma find_duplicates_skips_unreadable_file :
  fst (@find_duplicates sample_platform 50 ["r"] false [] (initial fs_unreadable)) = Ok []
  /\ hashed (snd (@find_duplicates sample_platform 50 ["r"] false []
                    (initial fs_unreadable)))
     = [["r"; "a.txt"]; ["r"; "b.txt"]].
Proof. split; reflexivity. Qed.

(** C6 as it was stated fails: a symbolic link that dangles during the
    first run is not a file then; the first run moves the file that it
    points to into place, and the second run moves the link.  So it is
    for [organize_files] and for the whole program run twice. *)
Lemma organize_second_run_moves_link :
  (let organize :=
     @organize_files sample_platform 20 ["r"] "ext" ["r"; "_organized"] false []
       false in
   exists st1 st2,
     organize (initial fs_dangling) = (Ok 1, st1)
     /\ organize st1 = (Ok 1, st2)
     /\ out st2 = out st1 ++ ["move /r/l.md -> /r/_organized/md/l.md"])
  /\ (let tidy := @main sample_platform 30 organize_ext_apply in
      exists st1 st2,
        tidy (initial fs_dangling) = (Ok 0%Z, st1)
        /\ out st1 = ["move /r/a.txt -> /r/_organized/txt/a.txt";
                      "Organize: 1 files moved."; "Done."]
        /\ tidy st1 = (Ok 0%Z, st2)
        /\ out st2 = out st1 ++ ["move /r/l.md -> /r/_organized/md/l.md";
                                 "Organize: 1 files moved."; "Done."]).
Proof.
  split.
  - eexists. eexists. split; [vm_compute; reflexivity|].
    split; vm_compute; reflexivity.
  - eexists. eexists. split; [vm_compute; reflexivity|].
    split; [vm_compute; reflexivity|]. split; vm_compute; reflexivity.
Qed.

(** With the suffixes of pathlib before Python 3.14, a second file named
    [a.] is moved to [noext/a.__1], whose suffix is [.__1]: the second
    run moves it again. *)
Lemma organize_second_run_moves_dotted :
  let organize :=
    @organize_files sample_platform 30 ["r"] "ext" ["r"; "_organized"] false [] false in
  exists st1 st2,
    organize (initial fs_dotted) = (Ok 2, st1)
    /\ organize st1 = (Ok 1, st2)
    /\ out st2
       = out st1 ++ ["move /r/_organized/noext/a.__1 -> /r/_organized/__1/a.__1"].
Proof.
  eexists. eexists. split; [vm_compute; reflexivity|].
  split; vm_compute; reflexivity.
Qed.

Lemma organize_twice_moves_nothing_witness :
  let organize :=
    @organize_files sample_platform 40 ["r"] "ext" ["r"; "_organized"] false [] in
  exists st1,
    organize false (initial fs_mixed) = (Ok 3, st1)
    /\ exists enough,
         forall steps' dry_run,
           enough <= steps' ->
           @organize_files sample_platform steps' ["r"] "ext" ["r"; "_organized"]
             false [] dry_run st1
           = (Ok 0, printing ["No files to organize or already organized."] st1).
Proof.
  intros organize.
  destruct (organize false (initial fs_mixed)) as [o st1] eqn:E.
  assert (Ho : o = Ok 3) by (vm_compute in E; now injection E as <- _).
  subst o. exists st1. split; [reflexivity|].
  refine (proj2 (@organize_twice_moves_nothing sample_platform 40 ["r"] "ext"
                   ["r"; "_organized"] false [] (initial fs_mixed) st1 3
                   (or_introl eq_refl) _ _ _ E st1 eq_refl)).
  - apply well_formedb_sound. reflexivity.
  - intros k t H. simpl in H.
    repeat (destruct H as [H|H]; [discriminate|]). exact H.
  - intros _ k f H. simpl in H.
    repeat (destruct H as [H|H]; [injection H as <- _; reflexivity|]). contradiction.
Defined.
